(** * ble_scanner: the BLE worker loop and the scanner window, embedded

    Source files:
    - [bleak_worker.py]: class [BleakWorker], the command queue and
      [run_ble_loop];
    - [ble_scanner.py]: class [BLEScanner], [start_scan],
      [process_advertisement], [apply_filters].

    Conventions of the embedding.
    - Python [str] values are [string]s of ASCII characters (addresses,
      UUIDs and hex filters are ASCII); [lower], [strip] and [replace]
      follow Python on code points below 128.
    - Python dicts that are only looked up by key are [gmap]s; dicts the
      code iterates over ([notification_handlers[address]],
      [manufacturer_data]) are association lists in insertion order.
    - Millisecond timestamps are [Z]; durations in seconds, which Python
      computes with [/ 1000.0], are exact rationals [Q].
    - Everything the BLE stack decides (whether an awaited call returns or
      raises, what [is_connected] says, which advertisements arrive) is
      an [adapter] argument of the dispatch, so every theorem quantifies
      over all behaviours of the stack.
    - [dispatch] and [handle] give what the loop's own code does for one
      command.  The notification handlers that [start_notify] hands to
      the stack run as callbacks and tasks of their own; they are the
      [Callback] and [Task_runs] occurrences of [run_event_loop]. *)

From Stdlib Require Import ZArith QArith String Ascii List Lia Bool.
From stdpp Require Import gmap strings list.

(** ** Values shared by the two source files *)

(** [bleak.backends.device.BLEDevice]: the attributes the code reads. *)
Record BLEDevice := { address : string; name : string }.

(** [bleak.backends.scanner.AdvertisementData]: the attributes the code
    reads.  [manufacturer_data] is a dict company code -> bytes that the
    code iterates with [.items()]. *)
Record AdvertisementData := {
  rssi : option Z;
  manufacturer_data : list (Z * list Byte.byte)
}.

(** ** bleak_worker.py *)

Module BleakWorker.

(** An exception raised by an awaited call: [bleak.exc.BleakError], or any
    other [Exception] (among them [asyncio.TimeoutError]).  [str] is
    Python's [str(e)]. *)
Inductive exn :=
| BleakError (msg : string)
| OtherException (msg : string).

Definition str (e : exn) : string :=
  match e with BleakError msg => msg | OtherException msg => msg end.

Inductive result (A : Type) : Type :=
| Returns (a : A)
| Raises (e : exn).
Arguments Returns {A} a.
Arguments Raises {A} e.

(** A [BleakClient(address)] or [BleakClient(address, timeout=seconds)]
    object; [client_id] is the identity of the Python object. *)
Record BleakClient := {
  client_id : nat;
  client_address : string;
  client_timeout : option Q
}.

(** The [(command, args)] tuples the producer methods put on the queue. *)
Inductive command :=
| scan (scan_time : option Q)
| connect (addr : string) (timeout : option Z)
| disconnect (addr : string)
| check_connection (addr : string)
| read (addr char_uuid : string)
| write (addr char_uuid : string) (value : list Byte.byte) (response : bool)
| start_notify (addr char_uuid : string)
| stop_notify (addr char_uuid : string).

(** The pyqtSignals of the class, as emitted values. *)
Inductive signal :=
| devices_updated (devices : list BLEDevice)
| advertisement_received (device : BLEDevice) (advertisement_data : AdvertisementData)
| connection_updated (connected : bool) (addr : string) (client : option BleakClient)
| services_updated (addr : string) (services : list string)
| characteristic_read (addr char_uuid : string) (value : list Byte.byte)
| characteristic_written (addr char_uuid : string) (success : bool)
| notification_received (addr char_uuid : string) (data : list Byte.byte)
| error_occurred (message : string)
| connection_status_checked (addr : string) (is_connected : bool).

(** The coroutines of the BLE stack the loop awaits. *)
Inductive awaited_call :=
| scanner_start
| asyncio_sleep (seconds : Q)
| scanner_stop
| client_connect (c : BleakClient)
| client_disconnect (c : BleakClient)
| read_gatt_char (c : BleakClient) (char_uuid : string)
| write_gatt_char (c : BleakClient) (char_uuid : string)
    (value : list Byte.byte) (response : bool)
| client_start_notify (c : BleakClient) (char_uuid : string)
| client_stop_notify (c : BleakClient) (char_uuid : string).

(** What the BLE stack does during one dispatch: the outcome of every
    coroutine the command may await, the value of the [is_connected]
    property (reading it may raise), the advertisements detected while a
    scan sleeps, and the service UUIDs of a connected client. *)
Record adapter := {
  outcome : awaited_call -> result unit;
  connect_returns : BleakClient -> bool;
  read_returns : BleakClient -> string -> list Byte.byte;
  is_connected : BleakClient -> result bool;
  detected : list (BLEDevice * AdvertisementData);
  services : BleakClient -> list string
}.

(** The fields of [self] the loop uses.  [constructed] counts the
    [BleakClient] objects built so far and gives each its identity. *)
Record worker := {
  command_queue : list command;
  clients : gmap string BleakClient;
  notification_handlers : gmap string (list (string * bool));
  constructed : nat
}.

(** The worker together with what an observer sees: the signals emitted
    and the coroutines awaited so far, oldest first. *)
Record world := {
  self : worker;
  emitted : list signal;
  awaited : list awaited_call
}.

Definition set_self (f : worker -> worker) (w : world) : world :=
  {| self := f (self w); emitted := emitted w; awaited := awaited w |}.

Definition set_command_queue (q : list command) (s : worker) : worker :=
  {| command_queue := q; clients := clients s;
     notification_handlers := notification_handlers s;
     constructed := constructed s |}.

Definition set_clients (c : gmap string BleakClient) (s : worker) : worker :=
  {| command_queue := command_queue s; clients := c;
     notification_handlers := notification_handlers s;
     constructed := constructed s |}.

Definition set_notification_handlers
    (h : gmap string (list (string * bool))) (s : worker) : worker :=
  {| command_queue := command_queue s; clients := clients s;
     notification_handlers := h; constructed := constructed s |}.

Definition set_constructed (n : nat) (s : worker) : worker :=
  {| command_queue := command_queue s; clients := clients s;
     notification_handlers := notification_handlers s; constructed := n |}.

(** *** Python dicts in insertion order *)

Fixpoint dict_set {V} (k : string) (v : V) (d : list (string * V)) : list (string * V) :=
  match d with
  | [] => [(k, v)]
  | (k', v') :: d' =>
      if String.eqb k' k then (k', v) :: d' else (k', v') :: dict_set k v d'
  end.

Fixpoint dict_del {V} (k : string) (d : list (string * V)) : list (string * V) :=
  match d with
  | [] => []
  | (k', v') :: d' => if String.eqb k' k then d' else (k', v') :: dict_del k d'
  end.

Definition dict_keys {V} (d : list (string * V)) : list string := map fst d.

Definition dict_mem {V} (k : string) (d : list (string * V)) : bool :=
  existsb (String.eqb k) (dict_keys d).

(** *** The body of the loop as a computation over [world] *)

Definition M (A : Type) : Type := world -> result A * world.

Definition ret {A} (a : A) : M A := fun w => (Returns a, w).

Definition bind {A B} (m : M A) (k : A -> M B) : M B :=
  fun w =>
    match m w with
    | (Returns a, w') => k a w'
    | (Raises e, w') => (Raises e, w')
    end.

Notation "x <- c1 ;; c2" := (bind c1 (fun x => c2))
  (at level 100, c1 at next level, right associativity).
Notation "c1 ;; c2" := (bind c1 (fun _ => c2))
  (at level 100, right associativity).

(** [raise e] *)
Definition raise {A} (e : exn) : M A := fun w => (Raises e, w).

(** [try: m except Exception as e: h e] *)
Definition try_except {A} (m : M A) (h : exn -> M A) : M A :=
  fun w =>
    match m w with
    | (Returns a, w') => (Returns a, w')
    | (Raises e, w') => h e w'
    end.

(** [self.<signal>.emit(...)] *)
Definition emit (s : signal) : M unit :=
  fun w => (Returns tt,
            {| self := self w; emitted := emitted w ++ [s]; awaited := awaited w |}).

(** [await <call>]: the call is made, then returns or raises as the
    adapter decides. *)
Definition await (hw : adapter) (c : awaited_call) : M unit :=
  fun w => (outcome hw c,
            {| self := self w; emitted := emitted w; awaited := awaited w ++ [c] |}).

(** Reading a property of a client: no coroutine is awaited. *)
Definition property {A} (r : result A) : M A := fun w => (r, w).

Definition get_self : M worker := fun w => (Returns (self w), w).

Definition update (f : worker -> worker) : M unit :=
  fun w => (Returns tt, set_self f w).

(** [for x in xs: body x] *)
Fixpoint for_each {A} (xs : list A) (body : A -> M unit) : M unit :=
  match xs with
  | [] => ret tt
  | x :: xs' => body x ;; for_each xs' body
  end.

(** [scan_time / 1000.0 if scan_time > 100 else scan_time] *)
Definition scan_time_seconds (scan_time : Q) : Q :=
  if Qlt_le_dec 100 scan_time then (scan_time / 1000)%Q else scan_time.

(** [BleakClient(address, timeout=timeout / 1000.0)] when [timeout] is
    truthy (neither [None] nor 0), [BleakClient(address)] otherwise. *)
Definition new_client (addr : string) (timeout : option Z) : M BleakClient :=
  s <- get_self ;;
  update (set_constructed (S (constructed s))) ;;
  ret {| client_id := constructed s;
         client_address := addr;
         client_timeout :=
           match timeout with
           | Some t => if Z.eqb t 0 then None else Some (inject_Z t / 1000)%Q
           | None => None
           end |}.

(** [address in self.clients and self.clients[address].is_connected],
    giving the client when the test passes. *)
Definition connected_client (hw : adapter) (addr : string) : M (option BleakClient) :=
  s <- get_self ;;
  match clients s !! addr with
  | None => ret None
  | Some c =>
      b <- property (is_connected hw c) ;;
      ret (if b then Some c else None)
  end.

(** The [try:] body of [run_ble_loop]: one branch per command. *)
Definition dispatch (hw : adapter) (cmd : command) : M unit :=
  match cmd with
  | scan None =>
      (* [None > 100] *)
      raise (OtherException
        "'>' not supported between instances of 'NoneType' and 'int'")
  | scan (Some scan_time) =>
      await hw scanner_start ;;
      (* detection_callback runs for every advertisement while the loop
         sleeps *)
      for_each (detected hw)
        (fun da => emit (advertisement_received (fst da) (snd da))) ;;
      await hw (asyncio_sleep (scan_time_seconds scan_time)) ;;
      await hw scanner_stop
  | connect addr timeout =>
      s <- get_self ;;
      match clients s !! addr with
      | Some old => await hw (client_disconnect old)
      | None => ret tt
      end ;;
      client <- new_client addr timeout ;;
      await hw (client_connect client) ;;
      if connect_returns hw client then
        update (fun s => set_clients (<[addr := client]> (clients s)) s) ;;
        update (fun s =>
          set_notification_handlers (<[addr := []]> (notification_handlers s)) s) ;;
        emit (connection_updated true addr (Some client)) ;;
        emit (services_updated addr (services hw client))
      else
        emit (connection_updated false addr None)
  | disconnect addr =>
      oc <- connected_client hw addr ;;
      match oc with
      | None => ret tt
      | Some c =>
          s <- get_self ;;
          match notification_handlers s !! addr with
          | Some handlers =>
              for_each (dict_keys handlers)
                (fun char_uuid => await hw (client_stop_notify c char_uuid)) ;;
              update (fun s =>
                set_notification_handlers
                  (<[addr := []]> (notification_handlers s)) s)
          | None => ret tt
          end ;;
          await hw (client_disconnect c) ;;
          emit (connection_updated false addr None) ;;
          update (fun s => set_clients (delete addr (clients s)) s) ;;
          update (fun s =>
            set_notification_handlers (delete addr (notification_handlers s)) s)
      end
  | check_connection addr =>
      s <- get_self ;;
      emit (connection_status_checked addr
              match clients s !! addr with
              | Some c =>
                  match is_connected hw c with
                  | Returns b => b
                  | Raises _ => false
                  end
              | None => false
              end)
  | read addr char_uuid =>
      oc <- connected_client hw addr ;;
      match oc with
      | None => ret tt
      | Some c =>
          try_except
            (await hw (read_gatt_char c char_uuid) ;;
             emit (characteristic_read addr char_uuid (read_returns hw c char_uuid)))
            (fun e =>
               emit (error_occurred
                 ("Failed to read characteristic " +:+ char_uuid +:+
                  " on device " +:+ addr +:+ ": " +:+ str e)))
      end
  | write addr char_uuid value response =>
      oc <- connected_client hw addr ;;
      match oc with
      | None => ret tt
      | Some c =>
          try_except
            (await hw (write_gatt_char c char_uuid value response) ;;
             emit (characteristic_written addr char_uuid true))
            (fun e =>
               emit (error_occurred
                 ("Failed to write to characteristic " +:+ char_uuid +:+
                  " on device " +:+ addr +:+ ": " +:+ str e)) ;;
               emit (characteristic_written addr char_uuid false))
      end
  | start_notify addr char_uuid =>
      oc <- connected_client hw addr ;;
      match oc with
      | None => ret tt
      | Some c =>
          (* the second argument of the call is the lambda [handler]
             below, which the stack calls back from then on *)
          await hw (client_start_notify c char_uuid) ;;
          update (fun s =>
            set_notification_handlers
              (<[addr := dict_set char_uuid true
                           (default [] (notification_handlers s !! addr))]>
                 (notification_handlers s)) s)
      end
  | stop_notify addr char_uuid =>
      oc <- connected_client hw addr ;;
      match oc with
      | None => ret tt
      | Some c =>
          s <- get_self ;;
          match notification_handlers s !! addr with
          | Some handlers =>
              if dict_mem char_uuid handlers then
                await hw (client_stop_notify c char_uuid) ;;
                update (fun s =>
                  set_notification_handlers
                    (<[addr := dict_del char_uuid handlers]>
                       (notification_handlers s)) s)
              else ret tt
          | None => ret tt
          end
      end
  end.

(** The two [except] clauses around the body: the error signal, and for a
    [connect] command the connection signal. *)
Definition on_exception (cmd : command) (e : exn) : M unit :=
  emit (error_occurred
          match e with
          | BleakError msg => "BLE Error: " +:+ msg
          | OtherException msg => "Error: " +:+ msg
          end) ;;
  match cmd with
  | connect addr _ => emit (connection_updated false addr None)
  | _ => ret tt
  end.

(** [try: <body> except BleakError ... except Exception ...] for the
    command just taken from the queue. *)
Definition handle (hw : adapter) (cmd : command) : world -> world :=
  fun w => snd (try_except (dispatch hw cmd) (on_exception cmd) w).

(** One turn of [while True]: [command_queue.get()] takes the oldest
    command (and waits, leaving everything as it is, while the queue is
    empty), then the command is handled. *)
Definition run_ble_loop_turn (hw : adapter) (w : world) : world :=
  match command_queue (self w) with
  | [] => w
  | cmd :: rest => handle hw cmd (set_self (set_command_queue rest) w)
  end.

(** [command_queue.put(...)], as every producer method calls it. *)
Definition put (cmd : command) (w : world) : world :=
  set_self (fun s => set_command_queue (command_queue s ++ [cmd]) s) w.

Definition scan_devices (scan_time : option Q) : world -> world :=
  put (scan scan_time).
Definition connect_device (addr : string) (timeout : option Z) : world -> world :=
  put (connect addr timeout).
Definition disconnect_device (addr : string) : world -> world :=
  put (disconnect addr).
Definition read_characteristic (addr char_uuid : string) : world -> world :=
  put (read addr char_uuid).
Definition write_characteristic (addr char_uuid : string)
    (value : list Byte.byte) (response : bool) : world -> world :=
  put (write addr char_uuid value response).
(** The methods [start_notify] and [stop_notify]; the plain names are
    taken by the commands they put. *)
Definition start_notify_request (addr char_uuid : string) : world -> world :=
  put (start_notify addr char_uuid).
Definition stop_notify_request (addr char_uuid : string) : world -> world :=
  put (stop_notify addr char_uuid).
Definition check_connection_status (addr : string) : world -> world :=
  put (check_connection addr).

(** The worker's thread and the callers' threads interleave: a caller
    puts a command, or the loop takes its next turn against some
    behaviour of the BLE stack.  Puts that arrive while a command is
    being handled only append to the queue, which the handling never
    reads, so they are scheduled before or after that turn. *)
Inductive action :=
| Put (cmd : command)
| Turn (hw : adapter).

Definition act (a : action) (w : world) : world :=
  match a with
  | Put cmd => put cmd w
  | Turn hw => run_ble_loop_turn hw w
  end.

Definition run (schedule : list action) (w : world) : world :=
  fold_left (fun w a => act a w) schedule w.

(** The commands a schedule puts, in order. *)
Definition puts (schedule : list action) : list command :=
  flat_map (fun a => match a with Put cmd => [cmd] | Turn _ => [] end) schedule.

(** *** The notification path *)

(** [notification_handler(address, characteristic, data)];
    [characteristic] stands for [str(characteristic)]. *)
Definition notification_handler (addr characteristic : string)
    (data : list Byte.byte) : M unit :=
  emit (notification_received addr characteristic data).

(** The local variable [address] of [run_ble_loop] once the branch of a
    command has run: every branch but the scan's binds it to the
    command's address, as its first statement. *)
Definition address_after (cmd : command) (address_before : option string)
    : option string :=
  match cmd with
  | scan _ => address_before
  | connect addr _ | disconnect addr | check_connection addr
  | read addr _ | write addr _ _ _
  | start_notify addr _ | stop_notify addr _ => Some addr
  end.

(** The event loop of the worker's thread: the worker [run_ble_loop]
    runs on, the local variable [address] of [run_ble_loop] ([None]
    while it is unbound), and the tasks that notification callbacks have
    created and that have not run yet, each with the arguments of its
    [notification_handler] call. *)
Record event_loop := {
  at_loop : world;
  loop_address : option string;
  tasks : list (string * string * list Byte.byte)
}.

(** [handler = lambda sender, data: asyncio.create_task(
    self.notification_handler(address, sender, data))].  When the stack
    calls the lambda, it reads [address] as the variable is at that
    moment, not as it was when [start_notify] made the lambda, and the
    task is created.  While [address] is unbound no branch has run, so
    there is no lambda to call. *)
Definition handler (sender : string) (data : list Byte.byte) (l : event_loop)
    : event_loop :=
  match loop_address l with
  | Some addr =>
      {| at_loop := at_loop l; loop_address := loop_address l;
         tasks := tasks l ++ [(addr, sender, data)] |}
  | None => l
  end.

(** What happens on the worker's thread and around it: a caller puts a
    command or the loop takes a turn; the stack calls a notification
    handler back; the oldest pending task runs.  Which callbacks arrive,
    and when, is for the stack to decide.  Callbacks and tasks run while
    the loop awaits.  One that runs during an await of a command is
    placed after that command's turn: the branch has bound [address]
    before its first await, and the task's signal then follows the
    signals of the command instead of falling among them. *)
Inductive occurrence :=
| Acts (a : action)
| Callback (sender : string) (data : list Byte.byte)
| Task_runs.

Definition occur (o : occurrence) (l : event_loop) : event_loop :=
  match o with
  | Acts a =>
      {| at_loop := act a (at_loop l);
         loop_address :=
           match a, command_queue (self (at_loop l)) with
           | Turn _, cmd :: _ => address_after cmd (loop_address l)
           | _, _ => loop_address l
           end;
         tasks := tasks l |}
  | Callback sender data => handler sender data l
  | Task_runs =>
      match tasks l with
      | [] => l
      | (addr, characteristic, data) :: rest =>
          {| at_loop :=
               snd (notification_handler addr characteristic data (at_loop l));
             loop_address := loop_address l;
             tasks := rest |}
      end
  end.

Definition run_event_loop (happens : list occurrence) (l : event_loop)
    : event_loop :=
  fold_left (fun l o => occur o l) happens l.

End BleakWorker.

(** ** Python text operations used by ble_scanner.py *)

Module Text.

(** [c.lower()] for one ASCII character: 'A'..'Z' move to 'a'..'z'. *)
Definition lower_char (c : ascii) : ascii :=
  let n := nat_of_ascii c in
  if (65 <=? n)%nat && (n <=? 90)%nat then ascii_of_nat (n + 32) else c.

(** [s.lower()] *)
Fixpoint lower (s : string) : string :=
  match s with
  | EmptyString => EmptyString
  | String c s' => String (lower_char c) (lower s')
  end.

(** [c.isspace()] below code point 128: tab, line feed, vertical tab,
    form feed, carriage return, the four separators 0x1c..0x1f, space. *)
Definition isspace (c : ascii) : bool :=
  let n := nat_of_ascii c in
  ((9 <=? n)%nat && (n <=? 13)%nat) || ((28 <=? n)%nat && (n <=? 32)%nat).

Fixpoint lstrip (s : string) : string :=
  match s with
  | EmptyString => EmptyString
  | String c s' => if isspace c then lstrip s' else s
  end.

Fixpoint rstrip (s : string) : string :=
  match s with
  | EmptyString => EmptyString
  | String c s' =>
      match rstrip s' with
      | EmptyString => if isspace c then EmptyString else String c EmptyString
      | t => String c t
      end
  end.

(** [s.strip()] *)
Definition strip (s : string) : string := rstrip (lstrip s).

(** [s.replace(" ", "")] *)
Fixpoint remove_spaces (s : string) : string :=
  match s with
  | EmptyString => EmptyString
  | String c s' =>
      if Ascii.eqb c " "%char then remove_spaces s' else String c (remove_spaces s')
  end.

(** [hay.startswith(needle)] *)
Fixpoint startswith (needle hay : string) : bool :=
  match needle, hay with
  | EmptyString, _ => true
  | String _ _, EmptyString => false
  | String a needle', String b hay' => Ascii.eqb a b && startswith needle' hay'
  end.

(** [needle in hay] *)
Fixpoint contains (needle hay : string) : bool :=
  startswith needle hay ||
  match hay with
  | EmptyString => false
  | String _ hay' => contains needle hay'
  end.

Definition hex_digit (n : N) : ascii :=
  match n with
  | 0%N => "0" | 1%N => "1" | 2%N => "2" | 3%N => "3"
  | 4%N => "4" | 5%N => "5" | 6%N => "6" | 7%N => "7"
  | 8%N => "8" | 9%N => "9" | 10%N => "a" | 11%N => "b"
  | 12%N => "c" | 13%N => "d" | 14%N => "e" | _ => "f"
  end%char.

(** [f'{b:02x}'] *)
Definition hex02 (b : Byte.byte) : string :=
  let n := Byte.to_N b in
  String (hex_digit (n / 16)) (String (hex_digit (n mod 16)) EmptyString).

(** [''.join(f'{b:02x}' for b in data)] *)
Definition hex_of_bytes (data : list Byte.byte) : string :=
  fold_right (fun b acc => hex02 b +:+ acc) EmptyString data.

End Text.

(** ** ble_scanner.py *)

Module BLEScanner.

(** One row of the [device_list] table: the device stored under
    [Qt.UserRole] in the MAC cell and the contents of the four columns.
    [None] in the last two columns is the text "N/A", [Some p] in the
    period column is the text "p ms". *)
Record row := {
  item_device : BLEDevice;
  mac_cell : string;
  name_cell : string;
  rssi_cell : option Z;
  period_cell : option Z
}.

(** The attributes of the window the scan path reads and writes.
    [all_devices] is [None] while the attribute does not exist
    ([hasattr(self, 'all_devices')] is false).  A row of [device_list]
    is [None] when its items have been removed by [QTableWidget.clear()].
    [rssi_filter] is the content of the RSSI box after [int(...)]: [None]
    when the box is empty or [int] raises [ValueError]. *)
Record window := {
  ble_worker : BleakWorker.world;
  scanning : bool;
  scan_time : Z;
  all_devices : option (list BLEDevice);
  device_advertisements : gmap string AdvertisementData;
  adv_timestamps : gmap string (list Z);
  adv_periods : gmap string Z;
  device_list : list (option row);
  mac_filter : string;
  rssi_filter : option Z;
  adv_filter : string
}.

Definition set_all_devices (v : option (list BLEDevice)) (w : window) : window :=
  {| ble_worker := ble_worker w; scanning := scanning w; scan_time := scan_time w;
     all_devices := v;
     device_advertisements := device_advertisements w;
     adv_timestamps := adv_timestamps w; adv_periods := adv_periods w;
     device_list := device_list w;
     mac_filter := mac_filter w; rssi_filter := rssi_filter w;
     adv_filter := adv_filter w |}.

Definition set_device_advertisements (v : gmap string AdvertisementData)
    (w : window) : window :=
  {| ble_worker := ble_worker w; scanning := scanning w; scan_time := scan_time w;
     all_devices := all_devices w;
     device_advertisements := v;
     adv_timestamps := adv_timestamps w; adv_periods := adv_periods w;
     device_list := device_list w;
     mac_filter := mac_filter w; rssi_filter := rssi_filter w;
     adv_filter := adv_filter w |}.

Definition set_adv_timestamps (v : gmap string (list Z)) (w : window) : window :=
  {| ble_worker := ble_worker w; scanning := scanning w; scan_time := scan_time w;
     all_devices := all_devices w;
     device_advertisements := device_advertisements w;
     adv_timestamps := v; adv_periods := adv_periods w;
     device_list := device_list w;
     mac_filter := mac_filter w; rssi_filter := rssi_filter w;
     adv_filter := adv_filter w |}.

Definition set_adv_periods (v : gmap string Z) (w : window) : window :=
  {| ble_worker := ble_worker w; scanning := scanning w; scan_time := scan_time w;
     all_devices := all_devices w;
     device_advertisements := device_advertisements w;
     adv_timestamps := adv_timestamps w; adv_periods := v;
     device_list := device_list w;
     mac_filter := mac_filter w; rssi_filter := rssi_filter w;
     adv_filter := adv_filter w |}.

Definition set_device_list (v : list (option row)) (w : window) : window :=
  {| ble_worker := ble_worker w; scanning := scanning w; scan_time := scan_time w;
     all_devices := all_devices w;
     device_advertisements := device_advertisements w;
     adv_timestamps := adv_timestamps w; adv_periods := adv_periods w;
     device_list := v;
     mac_filter := mac_filter w; rssi_filter := rssi_filter w;
     adv_filter := adv_filter w |}.

(** [start_scan]: the table's items are removed (its rows stay), the
    timestamps and periods are replaced by empty dicts, and a scan
    command is put on the worker's queue.  The auto-stop timer is left
    out. *)
Definition start_scan (w : window) : window :=
  {| ble_worker :=
       BleakWorker.scan_devices (Some (inject_Z (scan_time w))) (ble_worker w);
     scanning := true; scan_time := scan_time w;
     all_devices := all_devices w;
     device_advertisements := device_advertisements w;
     adv_timestamps := ∅; adv_periods := ∅;
     device_list := map (fun _ => None) (device_list w);
     mac_filter := mac_filter w; rssi_filter := rssi_filter w;
     adv_filter := adv_filter w |}.

Definition stop_scan (w : window) : window :=
  {| ble_worker := ble_worker w; scanning := false; scan_time := scan_time w;
     all_devices := all_devices w;
     device_advertisements := device_advertisements w;
     adv_timestamps := adv_timestamps w; adv_periods := adv_periods w;
     device_list := device_list w;
     mac_filter := mac_filter w; rssi_filter := rssi_filter w;
     adv_filter := adv_filter w |}.

(** [device_rssi]: [None], or the [rssi] of the stored advertisement. *)
Definition device_rssi (w : window) (addr : string) : option Z :=
  match device_advertisements w !! addr with
  | Some adv => rssi adv
  | None => None
  end.

(** [mfg_hex]: the hex of every manufacturer-data value, in dict order. *)
Definition mfg_hex (w : window) (addr : string) : string :=
  match device_advertisements w !! addr with
  | Some adv =>
      fold_left (fun acc cd => acc +:+ Text.hex_of_bytes (snd cd))
        (manufacturer_data adv) EmptyString
  | None => EmptyString
  end.

(** The three [continue] tests of the loop of [apply_filters], in the
    order of the code; [true] when the device reaches [insertRow]. *)
Definition passes (w : window) (device : BLEDevice) : bool :=
  let mac := Text.lower (mac_filter w) in
  let adv := Text.remove_spaces (Text.lower (Text.strip (adv_filter w))) in
  if negb (String.eqb mac EmptyString)
     && negb (Text.contains mac (Text.lower (address device)))
  then false
  else if match rssi_filter w with
          | Some wanted =>
              match device_rssi w (address device) with
              | None => true
              | Some r => Z.ltb r wanted
              end
          | None => false
          end
  then false
  else if negb (String.eqb adv EmptyString)
          && negb (Text.contains adv (mfg_hex w (address device)))
  then false
  else true.

Definition make_row (w : window) (device : BLEDevice) : row :=
  {| item_device := device;
     mac_cell := address device;
     name_cell := name device;
     rssi_cell := device_rssi w (address device);
     period_cell := adv_periods w !! address device |}.

(** [apply_filters]: nothing without [all_devices]; otherwise the table
    is emptied ([setRowCount(0)]) and one row is appended for every
    device that passes, in the order of [all_devices]. *)
Definition apply_filters (w : window) : window :=
  match all_devices w with
  | None => w
  | Some devices =>
      set_device_list
        (fold_left
           (fun rows device =>
              if passes w device then rows ++ [Some (make_row w device)] else rows)
           devices [])
        w
  end.

(** [update_device_in_list]: the first row whose item holds a device
    with this address gets its name, RSSI and period cells rewritten. *)
Fixpoint update_rows (w : window) (addr : string) (rows : list (option row))
    : list (option row) :=
  match rows with
  | [] => []
  | None :: rows' => None :: update_rows w addr rows'
  | Some r :: rows' =>
      if String.eqb (address (item_device r)) addr then
        Some {| item_device := item_device r;
                mac_cell := mac_cell r;
                name_cell := name (item_device r);
                rssi_cell := device_rssi w addr;
                period_cell := adv_periods w !! addr |} :: rows'
      else Some r :: update_rows w addr rows'
  end.

Definition update_device_in_list (addr : string) (w : window) : window :=
  set_device_list (update_rows w addr (device_list w)) w.

(** [[timestamps[i] - timestamps[i-1] for i in range(1, len(timestamps))]] *)
Definition periods (timestamps : list Z) : list Z :=
  map (fun i => (nth i timestamps 0 - nth (i - 1) timestamps 0)%Z)
      (seq 1 (length timestamps - 1)).

(** [min(xs)]: [None] stands for the [ValueError] on an empty list. *)
Definition python_min (xs : list Z) : option Z :=
  match xs with
  | [] => None
  | x :: xs' =>
      Some (fold_left (fun best y => if Z.ltb y best then y else best) xs' x)
  end.

(** [process_advertisement(device, advertisement_data)];
    [current_time] is [QDateTime.currentDateTime().toMSecsSinceEpoch()].
    The refresh of the advertisement text panel at the end is left out. *)
Definition process_advertisement (device : BLEDevice)
    (advertisement_data : AdvertisementData) (current_time : Z)
    (w : window) : window :=
  if negb (scanning w) then w
  else
    let devices := default [] (all_devices w) in
    let w := set_all_devices (Some devices) w in
    let device_found :=
      existsb (fun existing => String.eqb (address existing) (address device))
              devices in
    let w :=
      if device_found then w
      else apply_filters (set_all_devices (Some (devices ++ [device])) w) in
    let addr := address device in
    let w :=
      set_device_advertisements
        (<[addr := advertisement_data]> (device_advertisements w)) w in
    let timestamps := default [] (adv_timestamps w !! addr) ++ [current_time] in
    let w := set_adv_timestamps (<[addr := timestamps]> (adv_timestamps w)) w in
    let w :=
      if (2 <=? length timestamps)%nat then
        match python_min (periods timestamps) with
        | Some min_period =>
            set_adv_periods (<[addr := min_period]> (adv_periods w)) w
        | None => w
        end
      else w in
    apply_filters (update_device_in_list addr w).

(** A scan session as the window sees it: the advertisements the worker
    forwards, each with the clock reading at its arrival. *)
Definition ingest (observations : list (BLEDevice * AdvertisementData * Z))
    (w : window) : window :=
  fold_left
    (fun w o => process_advertisement (fst (fst o)) (snd (fst o)) (snd o) w)
    observations w.

(** The devices shown in the table, top to bottom. *)
Definition shown (w : window) : list BLEDevice :=
  omap (fun r => item_device <$> r) (device_list w).

End BLEScanner.

(** ** device_tab.py *)

Module DeviceTab.

(** bleak's [BleakGATTCharacteristic]: the attributes the code reads. *)
Record characteristic := { uuid : string; properties : list string }.

(** The attributes of a [DeviceTab] and the state of its widgets:
    whether the service tree, the write box and the three buttons are
    enabled, the label of the notify button and the text of the write
    box. *)
Record tab := {
  device : BLEDevice;
  tab_address : string;
  tab_name : string;
  connected : bool;
  current_characteristic : option characteristic;
  notification_active : list (string * bool);
  service_tree_enabled : bool;
  write_input_enabled : bool;
  write_input : string;
  read_button_enabled : bool;
  write_button_enabled : bool;
  notify_button_enabled : bool;
  notify_button_text : string
}.

(** [x in properties] *)
Definition has (x : string) (props : list string) : bool :=
  existsb (String.eqb x) props.

(** [set_connected_state(connected)] *)
Definition set_connected_state (c : bool) (t : tab) : tab :=
  let selected :=
    match current_characteristic t with Some _ => true | None => false end in
  {| device := device t; tab_address := tab_address t; tab_name := tab_name t;
     connected := c;
     current_characteristic := current_characteristic t;
     notification_active := notification_active t;
     service_tree_enabled := c;
     write_input_enabled := c;
     write_input := write_input t;
     read_button_enabled := c && selected;
     write_button_enabled := c && selected;
     notify_button_enabled := c && selected;
     notify_button_text := notify_button_text t |}.

(** [DeviceTab(device)]: the widgets are created, the buttons disabled
    and labelled, then [set_connected_state(False)] runs. *)
Definition init (d : BLEDevice) : tab :=
  set_connected_state false
    {| device := d; tab_address := address d; tab_name := name d;
       connected := false;
       current_characteristic := None;
       notification_active := [];
       service_tree_enabled := true;
       write_input_enabled := true;
       write_input := EmptyString;
       read_button_enabled := false;
       write_button_enabled := false;
       notify_button_enabled := false;
       notify_button_text := "Subscribe" |}.

(** [characteristic_selected(item)]; [char_data] is
    [item.data(0, Qt.UserRole)], [None] for the item of a service. *)
Definition characteristic_selected (char_data : option characteristic) (t : tab)
    : tab :=
  match char_data with
  | None => t
  | Some ch =>
      let props := properties ch in
      let can_notify := has "notify" props || has "indicate" props in
      {| device := device t; tab_address := tab_address t; tab_name := tab_name t;
         connected := connected t;
         current_characteristic := Some ch;
         notification_active := notification_active t;
         service_tree_enabled := service_tree_enabled t;
         write_input_enabled := write_input_enabled t;
         write_input := write_input t;
         read_button_enabled := connected t && has "read" props;
         write_button_enabled :=
           connected t && (has "write" props || has "write-without-response" props);
         notify_button_enabled := connected t && can_notify;
         notify_button_text :=
           if BleakWorker.dict_mem (uuid ch) (notification_active t)
           then "Unsubscribe" else "Subscribe" |}
  end.

(** The user types into the write box. *)
Definition set_write_input (text : string) (t : tab) : tab :=
  {| device := device t; tab_address := tab_address t; tab_name := tab_name t;
     connected := connected t;
     current_characteristic := current_characteristic t;
     notification_active := notification_active t;
     service_tree_enabled := service_tree_enabled t;
     write_input_enabled := write_input_enabled t;
     write_input := text;
     read_button_enabled := read_button_enabled t;
     write_button_enabled := write_button_enabled t;
     notify_button_enabled := notify_button_enabled t;
     notify_button_text := notify_button_text t |}.

(** The two assignments [toggle_notifications] of the main window makes
    on a tab: the subscription flags and the label of the notify
    button. *)
Definition set_notification (flags : list (string * bool)) (label : string)
    (t : tab) : tab :=
  {| device := device t; tab_address := tab_address t; tab_name := tab_name t;
     connected := connected t;
     current_characteristic := current_characteristic t;
     notification_active := flags;
     service_tree_enabled := service_tree_enabled t;
     write_input_enabled := write_input_enabled t;
     write_input := write_input t;
     read_button_enabled := read_button_enabled t;
     write_button_enabled := write_button_enabled t;
     notify_button_enabled := notify_button_enabled t;
     notify_button_text := label |}.

End DeviceTab.

(** ** Hex text: how bytes are shown and how the write box is read *)

Module HexText.

Definition hex_digit_upper (n : N) : ascii :=
  match n with
  | 0%N => "0" | 1%N => "1" | 2%N => "2" | 3%N => "3"
  | 4%N => "4" | 5%N => "5" | 6%N => "6" | 7%N => "7"
  | 8%N => "8" | 9%N => "9" | 10%N => "A" | 11%N => "B"
  | 12%N => "C" | 13%N => "D" | 14%N => "E" | _ => "F"
  end%char.

(** [f"{b:02X}"] *)
Definition hex02X (b : Byte.byte) : string :=
  let n := Byte.to_N b in
  String (hex_digit_upper (n / 16)) (String (hex_digit_upper (n mod 16)) EmptyString).

(** [sep.join(parts)] *)
Fixpoint join (sep : string) (parts : list string) : string :=
  match parts with
  | [] => EmptyString
  | [x] => x
  | x :: parts' => x +:+ sep +:+ join sep parts'
  end.

(** [" ".join([f"{b:02X}" for b in value])], the form in which the tab
    and the status bar show bytes. *)
Definition shown_hex (value : list Byte.byte) : string :=
  join " " (map hex02X value).

Fixpoint string_of_rev (rev_chars : list ascii) (acc : string) : string :=
  match rev_chars with
  | [] => acc
  | c :: rest => string_of_rev rest (String c acc)
  end.

(** [s.split()]: the maximal runs of non-whitespace characters.
    [token] holds the characters of the run being read, last first. *)
Fixpoint split_from (s : string) (token : list ascii) : list string :=
  match s with
  | EmptyString =>
      match token with
      | [] => []
      | _ => [string_of_rev token EmptyString]
      end
  | String c s' =>
      if Text.isspace c then
        match token with
        | [] => split_from s' []
        | _ => string_of_rev token EmptyString :: split_from s' []
        end
      else split_from s' (c :: token)
  end.

Definition split (s : string) : list string := split_from s [].

(** The value of a hexadecimal digit. *)
Definition digit_value (c : ascii) : option Z :=
  let n := Z.of_nat (nat_of_ascii c) in
  if (48 <=? n)%Z && (n <=? 57)%Z then Some (n - 48)%Z
  else if (97 <=? n)%Z && (n <=? 102)%Z then Some (n - 87)%Z
  else if (65 <=? n)%Z && (n <=? 70)%Z then Some (n - 55)%Z
  else None.

(** The digits of an integer literal: at least one digit, and single
    underscores only between digits.  [after_digit] tells whether the
    previous character was a digit. *)
Fixpoint digits (s : string) (acc : Z) (after_digit : bool) : option Z :=
  match s with
  | EmptyString => if after_digit then Some acc else None
  | String c s' =>
      if Ascii.eqb c "_" then
        if after_digit then digits s' acc false else None
      else
        match digit_value c with
        | Some d => digits s' (16 * acc + d)%Z true
        | None => None
        end
  end.

(** After the sign: an optional "0x" or "0X", after which one underscore
    may stand, then the digits. *)
Definition unsigned (s : string) : option Z :=
  match s with
  | String "0" (String x s') =>
      if Ascii.eqb x "x" || Ascii.eqb x "X" then
        match s' with
        | String "_" s'' => digits s'' 0 false
        | _ => digits s' 0 false
        end
      else digits s 0 false
  | _ => digits s 0 false
  end.

(** [int(s, 16)]; [None] stands for [ValueError]. *)
Definition int16 (s : string) : option Z :=
  match Text.strip s with
  | String "+" s' => unsigned s'
  | String "-" s' => Z.opp <$> unsigned s'
  | s' => unsigned s'
  end.

(** [bytearray(values)]: every value must be in [range(256)]; [None]
    stands for [ValueError]. *)
Fixpoint bytearray (values : list Z) : option (list Byte.byte) :=
  match values with
  | [] => Some []
  | v :: values' =>
      if (0 <=? v)%Z && (v <? 256)%Z then
        match Byte.of_N (Z.to_N v), bytearray values' with
        | Some b, Some bs => Some (b :: bs)
        | _, _ => None
        end
      else None
  end.

(** [[int(h, 16) for h in hex_values]]: the first [ValueError] ends the
    comprehension. *)
Fixpoint ints (hex_values : list string) : option (list Z) :=
  match hex_values with
  | [] => Some []
  | h :: hex_values' =>
      match int16 h, ints hex_values' with
      | Some v, Some vs => Some (v :: vs)
      | _, _ => None
      end
  end.

(** [bytearray([int(h, 16) for h in hex_text.split()])] *)
Definition parse (hex_text : string) : option (list Byte.byte) :=
  match ints (split hex_text) with
  | Some values => bytearray values
  | None => None
  end.

End HexText.

(** ** ble_scanner.py: the device tabs *)

Module Tabs.

Import BleakWorker.

(** The attributes of the window the tab path reads and writes.
    [device_tabs] holds the pages of the [QTabWidget], in tab order;
    [device_tabs_map] and [connected_devices] are dicts the code
    iterates over.  [single_shots] counts the pending
    [QTimer.singleShot(2000, ...)] calls of [check_connection_status].
    The status bar, the message boxes and the current tab index are
    left out. *)
Record session := {
  ble_worker : world;
  connected_devices : list (string * option BleakClient);
  device_tabs : list DeviceTab.tab;
  device_tabs_map : list (string * nat);
  current_device : option BLEDevice;
  connection_timeout : Z;
  single_shots : nat
}.

(** What a slot does: it returns, or it raises [AttributeError] because
    [device_tabs.widget(index)] gave [None]; the state is the one reached
    when it ended. *)
Inductive outcome :=
| returns (s : session)
| raises_attribute_error (s : session).

Definition state (o : outcome) : session :=
  match o with returns s => s | raises_attribute_error s => s end.

Definition set_ble_worker (v : world) (s : session) : session :=
  {| ble_worker := v; connected_devices := connected_devices s;
     device_tabs := device_tabs s; device_tabs_map := device_tabs_map s;
     current_device := current_device s;
     connection_timeout := connection_timeout s;
     single_shots := single_shots s |}.

Definition set_connected_devices (v : list (string * option BleakClient))
    (s : session) : session :=
  {| ble_worker := ble_worker s; connected_devices := v;
     device_tabs := device_tabs s; device_tabs_map := device_tabs_map s;
     current_device := current_device s;
     connection_timeout := connection_timeout s;
     single_shots := single_shots s |}.

Definition set_device_tabs (v : list DeviceTab.tab) (s : session) : session :=
  {| ble_worker := ble_worker s; connected_devices := connected_devices s;
     device_tabs := v; device_tabs_map := device_tabs_map s;
     current_device := current_device s;
     connection_timeout := connection_timeout s;
     single_shots := single_shots s |}.

Definition set_device_tabs_map (v : list (string * nat)) (s : session) : session :=
  {| ble_worker := ble_worker s; connected_devices := connected_devices s;
     device_tabs := device_tabs s; device_tabs_map := v;
     current_device := current_device s;
     connection_timeout := connection_timeout s;
     single_shots := single_shots s |}.

Definition set_current_device (v : option BLEDevice) (s : session) : session :=
  {| ble_worker := ble_worker s; connected_devices := connected_devices s;
     device_tabs := device_tabs s; device_tabs_map := device_tabs_map s;
     current_device := v;
     connection_timeout := connection_timeout s;
     single_shots := single_shots s |}.

Definition set_single_shots (v : nat) (s : session) : session :=
  {| ble_worker := ble_worker s; connected_devices := connected_devices s;
     device_tabs := device_tabs s; device_tabs_map := device_tabs_map s;
     current_device := current_device s;
     connection_timeout := connection_timeout s;
     single_shots := v |}.

(** [d[k]] for a key that may be missing *)
Fixpoint dict_get {V} (k : string) (d : list (string * V)) : option V :=
  match d with
  | [] => None
  | (k', v) :: d' => if String.eqb k' k then Some v else dict_get k d'
  end.

(** Python's truth value of a string. *)
Definition truthy (s : string) : bool := negb (String.eqb s EmptyString).

(** [device_selected], as far as the tabs are concerned: the device of
    the selected table row becomes the current device. *)
Definition device_selected (d : BLEDevice) (s : session) : session :=
  set_current_device (Some d) s.

(** [connect_to_device]: an address that has a tab is reconnected when
    it is not among the connected devices; an address without a tab gets
    a new tab after the existing ones and a connect command. *)
Definition connect_to_device (s : session) : session :=
  match current_device s with
  | None => s
  | Some d =>
      let addr := address d in
      if dict_mem addr (device_tabs_map s) then
        if negb (dict_mem addr (connected_devices s)) then
          set_ble_worker
            (connect_device addr (Some (connection_timeout s)) (ble_worker s)) s
        else s
      else
        let tab_index := length (device_tabs s) in
        set_ble_worker
          (connect_device addr (Some (connection_timeout s)) (ble_worker s))
          (set_device_tabs_map (dict_set addr tab_index (device_tabs_map s))
             (set_device_tabs (device_tabs s ++ [DeviceTab.init d]) s))
  end.

(** The first address of the map whose index is [index]. *)
Fixpoint address_of_index (index : nat) (m : list (string * nat)) : option string :=
  match m with
  | [] => None
  | (addr, idx) :: m' =>
      if Nat.eqb idx index then Some addr else address_of_index index m'
  end.

(** [close_device_tab(index)] *)
Definition close_device_tab (index : nat) (s : session) : session :=
  match address_of_index index (device_tabs_map s) with
  | None => s
  | Some addr =>
      if truthy addr then
        let s :=
          if dict_mem addr (connected_devices s)
          then set_ble_worker (disconnect_device addr (ble_worker s)) s
          else s in
        let remaining := dict_del addr (device_tabs_map s) in
        let shifted :=
          map (fun entry =>
                 (fst entry,
                  if (index <? snd entry)%nat then (snd entry - 1)%nat
                  else snd entry))
              remaining in
        set_device_tabs (delete index (device_tabs s))
          (set_device_tabs_map shifted s)
      else s
  end.

(** [check_connection_status(address=None)]: one [check_connection]
    command for the address if it is among the connected devices, or,
    without an address, one for every connected device; then the next
    check is scheduled. *)
Definition check_connection_status (addr : option string) (s : session) : session :=
  let s :=
    match addr with
    | Some a =>
        if truthy a then
          if dict_mem a (connected_devices s)
          then set_ble_worker
                 (BleakWorker.check_connection_status a (ble_worker s)) s
          else s
        else
          set_ble_worker
            (fold_left (fun w a => BleakWorker.check_connection_status a w)
               (dict_keys (connected_devices s)) (ble_worker s)) s
    | None =>
        set_ble_worker
          (fold_left (fun w a => BleakWorker.check_connection_status a w)
             (dict_keys (connected_devices s)) (ble_worker s)) s
    end in
  set_single_shots (S (single_shots s)) s.

(** A pending single shot fires: [check_connection_status()] runs. *)
Definition single_shot_fires (s : session) : session :=
  match single_shots s with
  | O => s
  | S n => check_connection_status None (set_single_shots n s)
  end.

(** [update_connection_status(connected, address, client)] *)
Definition update_connection_status (is_on : bool) (addr : string)
    (client : option BleakClient) (s : session) : outcome :=
  match dict_get addr (device_tabs_map s) with
  | None => returns s
  | Some tab_index =>
      if is_on then
        let s := set_connected_devices
                   (dict_set addr client (connected_devices s)) s in
        match device_tabs s !! tab_index with
        | None => raises_attribute_error s
        | Some t =>
            returns
              (check_connection_status (Some addr)
                 (set_device_tabs
                    (<[tab_index := DeviceTab.set_connected_state true t]>
                       (device_tabs s)) s))
        end
      else
        let s := set_connected_devices
                   (dict_del addr (connected_devices s)) s in
        match device_tabs s !! tab_index with
        | None => raises_attribute_error s
        | Some t =>
            returns
              (set_device_tabs
                 (<[tab_index := DeviceTab.set_connected_state false t]>
                    (device_tabs s)) s)
        end
  end.

(** [handle_connection_check(address, is_connected)] *)
Definition handle_connection_check (addr : string) (is_on : bool) (s : session)
    : outcome :=
  match dict_get addr (device_tabs_map s) with
  | None => returns s
  | Some tab_index =>
      if is_on then returns s
      else
        match device_tabs s !! tab_index with
        | None => raises_attribute_error s
        | Some t =>
            if DeviceTab.connected t then
              returns
                (set_device_tabs
                   (<[tab_index := DeviceTab.set_connected_state false t]>
                      (device_tabs s))
                   (set_connected_devices
                      (dict_del addr (connected_devices s)) s))
            else returns s
        end
  end.

(** [toggle_notifications(address)] *)
Definition toggle_notifications (addr : string) (s : session) : outcome :=
  match dict_get addr (device_tabs_map s) with
  | None => returns s
  | Some tab_index =>
      match device_tabs s !! tab_index with
      | None => raises_attribute_error s
      | Some t =>
          match DeviceTab.current_characteristic t with
          | None => returns s
          | Some ch =>
              let char_uuid := DeviceTab.uuid ch in
              if dict_mem char_uuid (DeviceTab.notification_active t) then
                returns
                  (set_device_tabs
                     (<[tab_index :=
                          DeviceTab.set_notification
                            (dict_del char_uuid (DeviceTab.notification_active t))
                            "Subscribe" t]> (device_tabs s))
                     (set_ble_worker
                        (stop_notify_request addr char_uuid (ble_worker s)) s))
              else
                returns
                  (set_device_tabs
                     (<[tab_index :=
                          DeviceTab.set_notification
                            (dict_set char_uuid true (DeviceTab.notification_active t))
                            "Unsubscribe" t]> (device_tabs s))
                     (set_ble_worker
                        (start_notify_request addr char_uuid (ble_worker s)) s))
          end
      end
  end.

(** [write_characteristic(address)]: the write box is read as hex; an
    empty box or text that is not hex only brings up a warning. *)
Definition write_characteristic (addr : string) (s : session) : outcome :=
  match dict_get addr (device_tabs_map s) with
  | None => returns s
  | Some tab_index =>
      match device_tabs s !! tab_index with
      | None => raises_attribute_error s
      | Some t =>
          match DeviceTab.current_characteristic t with
          | None => returns s
          | Some ch =>
              let hex_text := Text.strip (DeviceTab.write_input t) in
              if String.eqb hex_text EmptyString then returns s
              else
                match HexText.parse hex_text with
                | None => returns s
                | Some data =>
                    returns
                      (set_ble_worker
                         (BleakWorker.write_characteristic addr (DeviceTab.uuid ch)
                            data
                            (DeviceTab.has "write" (DeviceTab.properties ch))
                            (ble_worker s)) s)
                end
          end
      end
  end.

(** The worker's signals reach the slots they are connected to in
    [__init__]; the slots of the other signals do not touch the
    attributes of [session]. *)
Definition deliver (sig : signal) (s : session) : outcome :=
  match sig with
  | connection_updated is_on addr client =>
      update_connection_status is_on addr client s
  | connection_status_checked addr is_on => handle_connection_check addr is_on s
  | _ => returns s
  end.

(** What the user and the event loop can make the window do to the tabs:
    each event runs the slot it is connected to.  Whether a button is
    enabled is not looked at; the slots do not look at it either. *)
Inductive event :=
| select_device (d : BLEDevice)
| press_connect
| close_tab (index : nat)
| select_characteristic (index : nat) (char_data : option DeviceTab.characteristic)
| type_hex (index : nat) (text : string)
| press_write (addr : string)
| press_notify (addr : string)
| timer
| signal_arrives (sig : signal).

(** Selecting a characteristic or typing in the tab at [index]. *)
Definition in_tab (index : nat) (f : DeviceTab.tab → DeviceTab.tab) (s : session)
    : session :=
  match device_tabs s !! index with
  | None => s
  | Some t => set_device_tabs (<[index := f t]> (device_tabs s)) s
  end.

Definition handle_event (e : event) (s : session) : outcome :=
  match e with
  | select_device d => returns (device_selected d s)
  | press_connect => returns (connect_to_device s)
  | close_tab index => returns (close_device_tab index s)
  | select_characteristic index char_data =>
      returns (in_tab index (DeviceTab.characteristic_selected char_data) s)
  | type_hex index text => returns (in_tab index (DeviceTab.set_write_input text) s)
  | press_write addr => write_characteristic addr s
  | press_notify addr => toggle_notifications addr s
  | timer => returns (single_shot_fires s)
  | signal_arrives sig => deliver sig s
  end.

(** A run of events; a slot that raises does not stop the event loop. *)
Definition handle_events (events : list event) (s : session) : session :=
  fold_left (fun s e => state (handle_event e s)) events s.

End Tabs.

(** * Vocabulary of the properties

    Definitions used only to state and exercise the theorems: concrete
    workers, windows and BLE stacks, and the notions the claims are
    worded in. *)

Import BleakWorker.
Import BLEScanner.

(** ** Workers and BLE stacks *)

(** A BLE stack on which every call returns, every client is connected
    and [connect()] returns [True]. *)
Definition obliging : adapter :=
  {| outcome := fun _ => Returns tt;
     connect_returns := fun _ => true;
     read_returns := fun _ _ => [];
     is_connected := fun _ => Returns true;
     detected := [];
     services := fun _ => [] |}.

(** The worker right after [__init__]. *)
Definition fresh : world :=
  {| self := {| command_queue := []; clients := ∅;
                notification_handlers := ∅; constructed := 0 |};
     emitted := []; awaited := [] |}.

Definition client0 : BleakClient :=
  {| client_id := 0; client_address := "AA:BB"; client_timeout := None |}.

(** The worker after [connect("AA:BB")] succeeded and a subscription to
    characteristic "2a37" was started. *)
Definition subscribed : world :=
  {| self := {| command_queue := [];
                clients := {[ "AA:BB" := client0 ]};
                notification_handlers := {[ "AA:BB" := [("2a37", true)] ]};
                constructed := 1 |};
     emitted := []; awaited := [] |}.

(** The address a GATT command (read, write, start or stop notify) is
    aimed at. *)
Definition gatt_address (cmd : command) : option string :=
  match cmd with
  | read a _ | write a _ _ _ | start_notify a _ | stop_notify a _ => Some a
  | _ => None
  end.

(** The subscription dict of an address, empty when it has none. *)
Definition subscriptions (w : world) (addr : string) : list (string * bool) :=
  default [] (notification_handlers (self w) !! addr).

(** The signals and calls a turn added to what was there before. *)
Definition new_signals (before after : world) : list signal :=
  drop (length (emitted before)) (emitted after).

Definition new_calls (before after : world) : list awaited_call :=
  drop (length (awaited before)) (awaited after).

Definition is_connection_updated (s : signal) : bool :=
  match s with connection_updated _ _ _ => true | _ => false end.

(** The client object a [connect] command constructs in world [w]. *)
Definition client_to_build (addr : string) (timeout : option Z) (w : world)
    : BleakClient :=
  {| client_id := constructed (self w);
     client_address := addr;
     client_timeout :=
       match timeout with
       | Some t => if Z.eqb t 0 then None else Some (inject_Z t / 1000)%Q
       | None => None
       end |}.

(** The three ways a [connect] command fails: disconnecting the previous
    client raises; the adapter's [connect()] raises (a timeout is one
    such exception); [connect()] returns [False]. *)
Definition connect_fails (hw : adapter) (addr : string) (timeout : option Z)
    (w : world) : Prop :=
  (∃ old e, clients (self w) !! addr = Some old
            ∧ outcome hw (client_disconnect old) = Raises e)
  ∨ (∃ e, outcome hw (client_connect (client_to_build addr timeout w)) = Raises e)
  ∨ connect_returns hw (client_to_build addr timeout w) = false.

(** A BLE stack on which [stop_notify] raises and everything else
    returns. *)
Definition unsubscribe_fails : adapter :=
  {| outcome := fun call =>
       match call with
       | client_stop_notify _ _ => Raises (BleakError "Not connected")
       | _ => Returns tt
       end;
     connect_returns := fun _ => true;
     read_returns := fun _ _ => [];
     is_connected := fun _ => Returns true;
     detected := [];
     services := fun _ => [] |}.

(** The calls awaited before the adapter's [connect()]: the disconnect
    of the previous client, when there is one. *)
Definition previous_disconnect (addr : string) (w : world) : list awaited_call :=
  match clients (self w) !! addr with
  | Some old => [client_disconnect old]
  | None => []
  end.

Definition previous_disconnect_returns (hw : adapter) (addr : string) (w : world)
    : Prop :=
  ∀ old, clients (self w) !! addr = Some old →
         outcome hw (client_disconnect old) = Returns tt.

(** A BLE stack on which [connect()] returns [False]. *)
Definition refuses : adapter :=
  {| outcome := fun _ => Returns tt;
     connect_returns := fun _ => false;
     read_returns := fun _ _ => [];
     is_connected := fun _ => Returns false;
     detected := [];
     services := fun _ => [] |}.

(** A BLE stack on which a client's [disconnect] raises and everything
    else returns. *)
Definition disconnect_fails : adapter :=
  {| outcome := fun call =>
       match call with
       | client_disconnect _ => Raises (BleakError "Device not found")
       | _ => Returns tt
       end;
     connect_returns := fun _ => true;
     read_returns := fun _ _ => [];
     is_connected := fun _ => Returns true;
     detected := [];
     services := fun _ => [] |}.

(** A computation of the loop body never touches the command queue and
    only adds signals after those already emitted. *)
Definition orderly {A} (m : M A) : Prop :=
  ∀ w, command_queue (self (m w).2) = command_queue (self w)
       ∧ emitted w `prefix_of` emitted (m w).2.

(** ** Runs of the event loop *)

(** The commands the callers put during a run, in the order of the
    puts. *)
Definition put_commands (happens : list occurrence) : list command :=
  flat_map (fun o => match o with Acts (Put cmd) => [cmd] | _ => [] end) happens.

(** The BLE stacks of the turns of a run that find a command waiting,
    in the order of the turns; [queued] is the number of commands
    waiting when the run starts. *)
Fixpoint served (happens : list occurrence) (queued : nat) : list adapter :=
  match happens with
  | [] => []
  | Acts (Put _) :: happens' => served happens' (S queued)
  | Acts (Turn hw) :: happens' =>
      match queued with
      | O => served happens' O
      | S n => hw :: served happens' n
      end
  | _ :: happens' => served happens' queued
  end.

(** What the claim asks of a run that starts with [queue] waiting: the
    turns that find a command get the commands in the order they were
    put, the first such turn the first command, and so on. *)
Definition jobs (happens : list occurrence) (queue : list command)
    : list (adapter * command) :=
  combine (served happens (length queue)) (queue ++ put_commands happens).

(** Handling one command after the other, each to completion on the
    state its predecessor left. *)
Definition one_by_one (jobs : list (adapter * command)) (w : world) : world :=
  fold_left (fun w job => handle (fst job) (snd job) w) jobs w.

(** The signals each command emits when they are handled one by one. *)
Fixpoint results (jobs : list (adapter * command)) (w : world)
    : list (command * list signal) :=
  match jobs with
  | [] => []
  | job :: jobs' =>
      (snd job, new_signals w (handle (fst job) (snd job) w))
      :: results jobs' (handle (fst job) (snd job) w)
  end.

Definition is_notification (s : signal) : bool :=
  match s with notification_received _ _ _ => true | _ => false end.

(** The signals of commands among the signals emitted: all but the
    notifications, which come from tasks. *)
Definition of_commands (signals : list signal) : list signal :=
  List.filter (fun s => negb (is_notification s)) signals.

(** A world with another queue and with more signals and calls before
    its own. *)
Definition shift (q : list command) (es : list signal) (cs : list awaited_call)
    (w : world) : world :=
  {| self := set_command_queue q (self w);
     emitted := es ++ emitted w;
     awaited := cs ++ awaited w |}.

(** A computation that neither reads nor changes the queue and only
    adds to the signals and calls. *)
Definition uniform {A} (m : M A) : Prop :=
  ∀ q es cs w, m (shift q es cs w) = ((m w).1, shift q es cs (m w).2).

(** The tables of a world, without its queue and without what has been
    observed so far. *)
Definition bare (w : world) : world :=
  {| self := set_command_queue [] (self w); emitted := []; awaited := [] |}.

(** Two worlds with the same tables, the same calls awaited and the
    same signals of commands. *)
Definition alike (w v : world) : Prop :=
  bare w = bare v
  ∧ awaited w = awaited v
  ∧ of_commands (emitted w) = of_commands (emitted v).

(** The address a command is aimed at; a scan has none. *)
Definition command_address (cmd : command) : option string :=
  match cmd with
  | scan _ => None
  | connect a _ | disconnect a | check_connection a => Some a
  | read a _ | write a _ _ _ | start_notify a _ | stop_notify a _ => Some a
  end.

(** The event loop of [subscribed] while a status check for another
    device, "CC:DD", waits in the queue; the command handled last was the
    [start_notify] for "AA:BB". *)
Definition check_pending : event_loop :=
  {| at_loop := check_connection_status "CC:DD" subscribed;
     loop_address := Some "AA:BB";
     tasks := [] |}.

(** ** Text *)

(** [needle] occurs in [hay]. *)
Definition substring (needle hay : string) : Prop :=
  ∃ pre post, hay = pre +:+ needle +:+ post.

(** Two characters that are equal, or the upper and lower case of one
    ASCII letter. *)
Definition same_letter (a b : ascii) : Prop :=
  let na := nat_of_ascii a in
  let nb := nat_of_ascii b in
  na = nb
  ∨ ((65 ≤ na ≤ 90)%nat ∧ nb = (na + 32)%nat)
  ∨ ((65 ≤ nb ≤ 90)%nat ∧ na = (nb + 32)%nat).

Inductive equal_ignoring_case : string → string → Prop :=
| eic_empty : equal_ignoring_case EmptyString EmptyString
| eic_letter a b s t :
    same_letter a b → equal_ignoring_case s t →
    equal_ignoring_case (String a s) (String b t).

(** [hay] contains [needle] as a case-insensitive substring. *)
Definition contains_ignoring_case (needle hay : string) : Prop :=
  ∃ pre mid post, hay = pre +:+ mid +:+ post ∧ equal_ignoring_case mid needle.

(** Every whitespace character removed, wherever it stands. *)
Fixpoint remove_whitespace (s : string) : string :=
  match s with
  | EmptyString => EmptyString
  | String c s' =>
      if Text.isspace c then remove_whitespace s' else String c (remove_whitespace s')
  end.

(** ** The device query *)

(** The hex of every manufacturer-data value of an advertisement,
    concatenated. *)
Definition manufacturer_hex (adv : AdvertisementData) : string :=
  fold_right (fun cd acc => Text.hex_of_bytes (snd cd) +:+ acc) EmptyString
    (manufacturer_data adv).

(** The manufacturer hex of the last advertisement stored for a device;
    empty when none is stored. *)
Definition last_hex (w : window) (d : BLEDevice) : string :=
  match device_advertisements w !! address d with
  | Some adv => manufacturer_hex adv
  | None => EmptyString
  end.

(** The three conditions of the device query. *)
Definition mac_matches (w : window) (d : BLEDevice) : Prop :=
  contains_ignoring_case (mac_filter w) (address d).

Definition rssi_matches (w : window) (d : BLEDevice) : Prop :=
  ∀ wanted, rssi_filter w = Some wanted →
    ∃ adv r, device_advertisements w !! address d = Some adv
             ∧ rssi adv = Some r ∧ (wanted ≤ r)%Z.

(** The advertisement filter as the code reads it: surrounding
    whitespace and every space character dropped, case ignored. *)
Definition adv_matches (w : window) (d : BLEDevice) : Prop :=
  contains_ignoring_case
    (Text.remove_spaces (Text.strip (adv_filter w))) (last_hex w d).

(** The advertisement filter as the claim words it: every whitespace
    character dropped, case ignored. *)
Definition adv_matches_ignoring_whitespace (w : window) (d : BLEDevice) : Prop :=
  contains_ignoring_case (remove_whitespace (adv_filter w)) (last_hex w d).

(** ** Windows and observations *)

(** The window right after [__init__]. *)
Definition blank : window :=
  {| ble_worker := fresh; scanning := false; scan_time := 30000;
     all_devices := None; device_advertisements := ∅;
     adv_timestamps := ∅; adv_periods := ∅; device_list := [];
     mac_filter := EmptyString; rssi_filter := None;
     adv_filter := EmptyString |}.

Definition sensor : BLEDevice := {| address := "AA:BB"; name := "Sensor" |}.
Definition beacon : BLEDevice := {| address := "CC:DD"; name := "Beacon" |}.

Definition strong : AdvertisementData :=
  {| rssi := Some (-50)%Z; manufacturer_data := [(76%Z, [Byte.x01])] |}.
Definition weak : AdvertisementData :=
  {| rssi := Some (-70)%Z; manufacturer_data := [] |}.

(** Two known devices, last seen at -50 and -70 dBm, and the RSSI filter
    set to -60. *)
Definition filtered_by_rssi : window :=
  {| ble_worker := fresh; scanning := false; scan_time := 30000;
     all_devices := Some [sensor; beacon];
     device_advertisements := <["AA:BB" := strong]> (<["CC:DD" := weak]> ∅);
     adv_timestamps := ∅; adv_periods := ∅; device_list := [];
     mac_filter := EmptyString; rssi_filter := Some (-60)%Z;
     adv_filter := EmptyString |}.

(** One known device with manufacturer data 0x01, and the advertisement
    filter holding "0", a tab and "1". *)
Definition filtered_by_tabbed_hex : window :=
  {| ble_worker := fresh; scanning := false; scan_time := 30000;
     all_devices := Some [sensor];
     device_advertisements := <["AA:BB" := strong]> ∅;
     adv_timestamps := ∅; adv_periods := ∅; device_list := [];
     mac_filter := EmptyString; rssi_filter := None;
     adv_filter := String "0" (String "009" (String "1" EmptyString)) |}.

(** The arrival times of the observations of one address, in order. *)
Definition times_of (addr : string)
    (observations : list (BLEDevice * AdvertisementData * Z)) : list Z :=
  map snd
    (List.filter (fun o => String.eqb (address (fst (fst o))) addr) observations).

(** t1 < t2 < ... < tn *)
Definition strictly_increasing (ts : list Z) : Prop :=
  ∀ i a b, ts !! i = Some a → ts !! S i = Some b → (a < b)%Z.

(** [m] is the least difference of two consecutive timestamps of [ts]. *)
Definition is_min_gap (ts : list Z) (m : Z) : Prop :=
  (∃ i a b, ts !! i = Some a ∧ ts !! S i = Some b ∧ m = (b - a)%Z)
  ∧ ∀ i a b, ts !! i = Some a → ts !! S i = Some b → (m ≤ b - a)%Z.

(** What the window knows about one address while a scan runs: the
    timestamps stored for it are [ts], and from the second timestamp on
    the stored period is the minimum of [periods ts]. *)
Definition tracks (w : window) (addr : string) (ts : list Z) : Prop :=
  scanning w = true
  ∧ default [] (adv_timestamps w !! addr) = ts
  ∧ ((2 ≤ length ts)%nat → adv_periods w !! addr = python_min (periods ts)).

(** Advertisements of "AA:BB" at 0, 100 and 250 ms, with one of another
    device in between. *)
Definition three_sightings : list (BLEDevice * AdvertisementData * Z) :=
  [(sensor, strong, 0%Z); (beacon, weak, 50%Z);
   (sensor, strong, 100%Z); (sensor, strong, 250%Z)].

(** ** Further notions about the worker *)

(** A part of the worker a computation leaves as it found it. *)
Definition keeps {A B} (f : worker → B) (m : M A) : Prop :=
  ∀ w, f (self (m w).2) = f (self w).

(** A computation only adds signals that satisfy [P]. *)
Definition says {A} (P : signal → Prop) (m : M A) : Prop :=
  ∀ w, ∃ l, emitted (m w).2 = emitted w ++ l ∧ Forall P l.

(** The signals a command may give rise to: an error signal, or a signal
    of the command's own kind that carries the command's address (and
    characteristic). *)
Definition answers (cmd : command) (s : signal) : bool :=
  match s with
  | error_occurred _ => true
  | advertisement_received _ _ =>
      match cmd with scan _ => true | _ => false end
  | connection_updated connected a client =>
      match cmd with
      | connect a' _ => String.eqb a' a
      | disconnect a' =>
          String.eqb a' a && negb connected
          && match client with None => true | Some _ => false end
      | _ => false
      end
  | services_updated a _ =>
      match cmd with connect a' _ => String.eqb a' a | _ => false end
  | characteristic_read a u _ =>
      match cmd with
      | read a' u' => String.eqb a' a && String.eqb u' u
      | _ => false
      end
  | characteristic_written a u _ =>
      match cmd with
      | write a' u' _ _ => String.eqb a' a && String.eqb u' u
      | _ => false
      end
  | connection_status_checked a _ =>
      match cmd with check_connection a' => String.eqb a' a | _ => false end
  | devices_updated _ => false
  | notification_received _ _ _ => false
  end.

(** Commands that may change the client table, and commands that may
    change the subscription table. *)
Definition changes_clients (cmd : command) : bool :=
  match cmd with connect _ _ | disconnect _ => true | _ => false end.

Definition changes_subscriptions (cmd : command) : bool :=
  match cmd with
  | connect _ _ | disconnect _ | start_notify _ _ | stop_notify _ _ => true
  | _ => false
  end.

(** Every address with a subscription dict has a client entry. *)
Definition subscriptions_have_clients (s : worker) : Prop :=
  ∀ a, is_Some (notification_handlers s !! a) → is_Some (clients s !! a).

(** The message of the error signal of a failed read or write. *)
Definition read_failure (addr char_uuid : string) (e : exn) : string :=
  "Failed to read characteristic " +:+ char_uuid +:+
  " on device " +:+ addr +:+ ": " +:+ str e.

Definition write_failure (addr char_uuid : string) (e : exn) : string :=
  "Failed to write to characteristic " +:+ char_uuid +:+
  " on device " +:+ addr +:+ ": " +:+ str e.

(** A BLE stack that detects two advertisements during a scan. *)
Definition crowded : adapter :=
  {| outcome := fun _ => Returns tt;
     connect_returns := fun _ => true;
     read_returns := fun _ _ => [];
     is_connected := fun _ => Returns true;
     detected := [(sensor, strong); (beacon, weak)];
     services := fun _ => ["180d"] |}.

(** The worker with a connected client for "AA:BB" and no
    subscription. *)
Definition connected_only : world :=
  {| self := {| command_queue := [];
                clients := {[ "AA:BB" := client0 ]};
                notification_handlers := {[ "AA:BB" := [] ]};
                constructed := 1 |};
     emitted := []; awaited := [] |}.

(** ** Further notions about the scanner window *)

(** The known devices; none while the attribute does not exist. *)
Definition known (w : window) : list BLEDevice := default [] (all_devices w).

(** The advertisement data of the last observation of an address. *)
Definition last_advertisement (addr : string)
    (observations : list (BLEDevice * AdvertisementData * Z))
    : option AdvertisementData :=
  last (map (fun o => snd (fst o))
          (List.filter (fun o => String.eqb (address (fst (fst o))) addr)
             observations)).

(** The window has recorded exactly the timestamps [ts] for an address
    since the scan started: no entry while there is none, no period
    before the second. *)
Definition records (w : window) (addr : string) (ts : list Z) : Prop :=
  scanning w = true
  ∧ adv_timestamps w !! addr = match ts with [] => None | _ => Some ts end
  ∧ adv_periods w !! addr
    = if (2 <=? length ts)%nat then python_min (periods ts) else None.

(** The table the filters call for: one row per known device that
    passes, in the order of the device list, with the device's last RSSI
    and its stored period. *)
Definition table_of (w : window) : list (option row) :=
  map (fun d => Some (make_row w d)) (List.filter (passes w) (known w)).

(** ** Notions about the device tabs *)

(** The map from addresses to tab indices and the pages of the tab
    widget agree: no address occurs twice in the map, and the map sends
    an address to an index exactly when the page at that index is the
    tab of that address. *)
Definition tabs_agree (s : Tabs.session) : Prop :=
  NoDup (dict_keys (Tabs.device_tabs_map s))
  ∧ ∀ a i, (a, i) ∈ Tabs.device_tabs_map s
           ↔ DeviceTab.tab_address <$> (Tabs.device_tabs s !! i) = Some a.

(** No event of the run makes its slot raise. *)
Fixpoint never_raises (events : list Tabs.event) (s : Tabs.session) : Prop :=
  match events with
  | [] => True
  | e :: events' =>
      (∃ s', Tabs.handle_event e s = Tabs.returns s')
      ∧ never_raises events' (Tabs.state (Tabs.handle_event e s))
  end.

(** The window right after [__init__], as far as the tabs go. *)
Definition no_tabs : Tabs.session :=
  {| Tabs.ble_worker := fresh; Tabs.connected_devices := [];
     Tabs.device_tabs := []; Tabs.device_tabs_map := [];
     Tabs.current_device := None; Tabs.connection_timeout := 10000;
     Tabs.single_shots := 0 |}.

(** A heart-rate characteristic that can be read and notified. *)
Definition heart_rate : DeviceTab.characteristic :=
  {| DeviceTab.uuid := "2a37"; DeviceTab.properties := ["read"; "notify"] |}.

(** A characteristic that can only be written. *)
Definition control_point : DeviceTab.characteristic :=
  {| DeviceTab.uuid := "2a39"; DeviceTab.properties := ["write"] |}.

(** The loop takes a turn and every signal it emits reaches its slot. *)
Definition worker_turn (hw : adapter) (s : Tabs.session) : Tabs.session :=
  let w := run_ble_loop_turn hw (Tabs.ble_worker s) in
  Tabs.handle_events
    (map Tabs.signal_arrives (new_signals (Tabs.ble_worker s) w))
    (Tabs.set_ble_worker w s).

(** The window after the user has opened a tab for the sensor and one
    for the beacon, before the worker has taken a turn. *)
Definition two_tabs : Tabs.session :=
  Tabs.handle_events
    [Tabs.select_device sensor; Tabs.press_connect;
     Tabs.select_device beacon; Tabs.press_connect]
    no_tabs.

(** The two tabs after the worker has reported the connection of the
    sensor. *)
Definition sensor_connected : Tabs.session :=
  Tabs.handle_events
    [Tabs.signal_arrives (connection_updated true "AA:BB" (Some client0))]
    two_tabs.

(** The subscription flags of a tab form a dict, and the label of the
    notify button tells whether the selected characteristic has a
    flag. *)
Definition label_in_sync (t : DeviceTab.tab) : Prop :=
  NoDup (dict_keys (DeviceTab.notification_active t))
  ∧ ∀ ch, DeviceTab.current_characteristic t = Some ch →
          DeviceTab.notify_button_text t
          = if dict_mem (DeviceTab.uuid ch) (DeviceTab.notification_active t)
            then "Unsubscribe" else "Subscribe".

(** A button of the tab is enabled only while the tab is marked
    connected and a characteristic is selected. *)
Definition buttons_guarded (t : DeviceTab.tab) : Prop :=
  DeviceTab.read_button_enabled t || DeviceTab.write_button_enabled t
  || DeviceTab.notify_button_enabled t = true →
  DeviceTab.connected t = true
  ∧ is_Some (DeviceTab.current_characteristic t).

(** The device of every tab marked connected is among the window's
    connected devices. *)
Definition connected_tabs_listed (s : Tabs.session) : Prop :=
  ∀ j t, Tabs.device_tabs s !! j = Some t →
         DeviceTab.connected t = true →
         dict_mem (DeviceTab.tab_address t) (Tabs.connected_devices s) = true.

(** A tab that can be used is the tab of a connected device: its buttons
    are guarded, and its connected mark is backed by the window's
    connected devices. *)
Definition usable_tabs_are_connected (s : Tabs.session) : Prop :=
  Forall buttons_guarded (Tabs.device_tabs s) ∧ connected_tabs_listed s.

(** The user has selected the write-only characteristic on the tab of
    the connected sensor. *)
Definition control_point_selected : Tabs.session :=
  Tabs.handle_events
    [Tabs.select_characteristic 0 (Some control_point)] sensor_connected.

(** A status check has then found the sensor disconnected. *)
Definition sensor_lost : Tabs.session :=
  Tabs.handle_events
    [Tabs.signal_arrives (connection_status_checked "AA:BB" false)]
    control_point_selected.

(** * Properties of the worker loop *)

Lemma world_eta (w : world) :
  {| self := self w; emitted := emitted w; awaited := awaited w |} = w.
Proof. by destruct w. Qed.

Lemma new_signals_app (w w' : world) (l : list signal) :
  emitted w' = emitted w ++ l → new_signals w w' = l.
Proof. unfold new_signals. intros ->. by rewrite drop_app_length. Qed.

Lemma new_calls_app (w w' : world) (l : list awaited_call) :
  awaited w' = awaited w ++ l → new_calls w w' = l.
Proof. unfold new_calls. intros ->. by rewrite drop_app_length. Qed.

(** [connected_client] reads and changes nothing. *)
Lemma connected_client_absent hw addr w :
  clients (self w) !! addr = None →
  connected_client hw addr w = (Returns None, w).
Proof.
  intros H. unfold connected_client, bind, get_self. by rewrite H.
Qed.

Lemma connected_client_present hw addr c w :
  clients (self w) !! addr = Some c →
  connected_client hw addr w =
    match is_connected hw c with
    | Returns b => (Returns (if b then Some c else None), w)
    | Raises e => (Raises e, w)
    end.
Proof.
  intros H. unfold connected_client, bind, get_self, property, ret.
  rewrite H. by destruct (is_connected hw c).
Qed.

(** C10.  A [check_connection] command emits exactly one
    [connection_status_checked] signal and nothing else, awaits nothing
    and leaves the worker as it was (the command taken off the queue
    apart); the flag is [False] when the address has no client or when
    reading [is_connected] raises, so no error signal is emitted for
    it. *)
Theorem check_connection_reports_once hw addr w :
  (∃ b, handle hw (check_connection addr) w =
          {| self := self w;
             emitted := emitted w ++ [connection_status_checked addr b];
             awaited := awaited w |})
  ∧ ((clients (self w) !! addr = None
      ∨ ∃ c e, clients (self w) !! addr = Some c ∧ is_connected hw c = Raises e) →
     handle hw (check_connection addr) w =
       {| self := self w;
          emitted := emitted w ++ [connection_status_checked addr false];
          awaited := awaited w |}).
Proof.
  unfold handle, try_except, dispatch, bind, get_self, emit. cbn.
  split; [eauto |].
  intros [-> | (c & e & -> & ->)]; reflexivity.
Qed.

Lemma check_connection_reports_once_witness :
  handle obliging (check_connection "AA:BB") fresh =
    {| self := self fresh;
       emitted := emitted fresh ++ [connection_status_checked "AA:BB" false];
       awaited := awaited fresh |}.
Proof.
  apply (proj2 (check_connection_reports_once obliging "AA:BB" fresh)).
  left. reflexivity.
Defined.

Lemma bind_returns {A B} (m : M A) (k : A → M B) w a w' :
  m w = (Returns a, w') → bind m k w = k a w'.
Proof. unfold bind. by intros ->. Qed.

Lemma bind_raises {A B} (m : M A) (k : A → M B) w e w' :
  m w = (Raises e, w') → bind m k w = (Raises e, w').
Proof. unfold bind. by intros ->. Qed.

(** A loop that only emits one signal per element returns, having
    emitted them in order. *)
Lemma for_each_emit {A} (l : list A) (f : A → signal) (v : world) :
  for_each l (fun x => emit (f x)) v =
    (Returns tt,
     {| self := self v; emitted := emitted v ++ map f l; awaited := awaited v |}).
Proof.
  revert v. induction l as [| x l IH]; intros v.
  - cbn. unfold ret. by rewrite app_nil_r, world_eta.
  - cbn [for_each map]. erewrite bind_returns; [| reflexivity].
    rewrite IH. cbn. by rewrite <- app_assoc.
Qed.

Lemma scan_time_seconds_cases (d : Q) :
  ((100 < d)%Q → scan_time_seconds d = (d / 1000)%Q)
  ∧ ((d <= 100)%Q → scan_time_seconds d = d).
Proof.
  unfold scan_time_seconds.
  destruct (Qlt_le_dec 100 d) as [Hlt | Hle]; split; intros H; try done;
    exfalso; eapply Qlt_not_le; eauto.
Qed.

(** C9.  A [scan] command with a numeric duration [d] lasts [d / 1000]
    seconds when [d > 100] and [d] seconds when [d <= 100]: the scanner
    is started, the loop sleeps exactly that long, and the scanner is
    stopped right after the sleep; nothing else is awaited.  (When
    starting the scanner raises there is no scan; when the sleep raises
    the scanner is not stopped.) *)
Theorem scan_duration_threshold hw (d : Q) w :
  ∃ seconds,
    ((100 < d)%Q → seconds = (d / 1000)%Q)
    ∧ ((d <= 100)%Q → seconds = d)
    ∧ new_calls w (handle hw (scan (Some d)) w)
      = scanner_start ::
        match outcome hw scanner_start with
        | Returns _ =>
            asyncio_sleep seconds ::
            match outcome hw (asyncio_sleep seconds) with
            | Returns _ => [scanner_stop]
            | Raises _ => []
            end
        | Raises _ => []
        end.
Proof.
  exists (scan_time_seconds d).
  destruct (scan_time_seconds_cases d) as [Hms Hs].
  split; [done |]. split; [done |].
  apply new_calls_app.
  unfold handle, try_except, dispatch.
  destruct (outcome hw scanner_start) as [[] | e] eqn:Hstart.
  - erewrite bind_returns; [| unfold await; rewrite Hstart; reflexivity].
    erewrite bind_returns; [| apply for_each_emit].
    unfold bind, await. cbn.
    destruct (outcome hw (asyncio_sleep (scan_time_seconds d))) as [[] | e].
    + destruct (outcome hw scanner_stop) as [[] | e]; cbn;
        by rewrite <- !app_assoc.
    + cbn. by rewrite <- !app_assoc.
  - erewrite bind_raises; [| unfold await; rewrite Hstart; reflexivity].
    reflexivity.
Qed.

(** A scan of 30000 (milliseconds) on a stack where every call returns:
    start, thirty seconds of sleep, stop. *)
Lemma scan_duration_threshold_witness :
  new_calls fresh (handle obliging (scan (Some 30000%Q)) fresh)
  = [scanner_start; asyncio_sleep (30000 / 1000)%Q; scanner_stop].
Proof.
  destruct (scan_duration_threshold obliging 30000%Q fresh)
    as (seconds & Hms & _ & Hcalls).
  rewrite Hcalls, (Hms eq_refl). reflexivity.
Defined.

(** C4 (as amended).  A read, write, start-notify or stop-notify command
    aimed at an address that has no client, or whose client says it is
    not connected, is skipped without a trace: no signal (so no error
    signal either), no awaited call, no change of the worker. *)
Theorem gatt_command_without_connection_is_skipped hw cmd addr w :
  gatt_address cmd = Some addr →
  (clients (self w) !! addr = None
   ∨ ∃ c, clients (self w) !! addr = Some c ∧ is_connected hw c = Returns false) →
  handle hw cmd w = w.
Proof.
  intros Hcmd Hnc.
  assert (Hcc : connected_client hw addr w = (Returns None, w)).
  { destruct Hnc as [H | (c & H & Hc)].
    - by apply connected_client_absent.
    - by rewrite (connected_client_present _ _ _ _ H), Hc. }
  destruct cmd; inversion Hcmd; subst;
    unfold handle, try_except, dispatch;
    (erewrite bind_returns by exact Hcc); reflexivity.
Qed.

Lemma gatt_command_without_connection_is_skipped_witness :
  handle obliging (read "AA:BB" "2a37") fresh = fresh.
Proof.
  apply (gatt_command_without_connection_is_skipped
           obliging (read "AA:BB" "2a37") "AA:BB" fresh).
  - reflexivity.
  - left. reflexivity.
Defined.

(** C4 as stated fails: a read for an address without a client emits no
    signal at all, so there is no error signal reporting it. *)
Lemma read_without_client_reports_nothing :
  clients (self fresh) !! "AA:BB" = None
  ∧ new_signals fresh (handle obliging (read "AA:BB" "2a37") fresh) = []
  ∧ ¬ (∃ msg, error_occurred msg
               ∈ new_signals fresh (handle obliging (read "AA:BB" "2a37") fresh)).
Proof.
  split; [reflexivity |]. split; [reflexivity |].
  intros (msg & H). vm_compute in H. by apply elem_of_nil in H.
Qed.

(** A loop that only awaits one call per element: it returns when all
    calls return, and stops at the first call that raises. *)
Lemma for_each_await_all {A} hw (l : list A) (f : A → awaited_call) (v : world) :
  (∀ x, x ∈ l → outcome hw (f x) = Returns tt) →
  for_each l (fun x => await hw (f x)) v =
    (Returns tt,
     {| self := self v; emitted := emitted v; awaited := awaited v ++ map f l |}).
Proof.
  revert v. induction l as [| x l IH]; intros v Hall.
  - cbn. unfold ret. by rewrite app_nil_r, world_eta.
  - cbn [for_each map]. erewrite bind_returns.
    2:{ unfold await. rewrite (Hall x) by left. reflexivity. }
    rewrite IH by (intros y Hy; apply Hall; by right).
    cbn. by rewrite <- app_assoc.
Qed.

Lemma for_each_await_raises {A} hw (l : list A) (f : A → awaited_call) (v : world) :
  (∃ x e, x ∈ l ∧ outcome hw (f x) = Raises e) →
  ∃ e pre x post,
    l = pre ++ x :: post
    ∧ for_each l (fun x => await hw (f x)) v =
        (Raises e,
         {| self := self v; emitted := emitted v;
            awaited := awaited v ++ map f (pre ++ [x]) |}).
Proof.
  revert v. induction l as [| y l IH]; intros v (x & e & Hx & He).
  - by apply elem_of_nil in Hx.
  - destruct (outcome hw (f y)) as [[] | e'] eqn:Hy.
    + assert (Hl : ∃ x e, x ∈ l ∧ outcome hw (f x) = Raises e).
      { apply elem_of_cons in Hx as [-> | Hx]; [congruence | eauto]. }
      destruct (IH {| self := self v; emitted := emitted v;
                      awaited := awaited v ++ [f y] |} Hl)
        as (e1 & pre & x1 & post & -> & Hrun).
      exists e1, (y :: pre), x1, post. split; [done |].
      cbn [for_each]. erewrite bind_returns.
      2:{ unfold await. rewrite Hy. reflexivity. }
      rewrite Hrun. cbn. by rewrite <- app_assoc.
    + exists e', [], y, l. split; [done |].
      cbn [for_each]. erewrite bind_raises; [reflexivity |].
      unfold await. by rewrite Hy.
Qed.

(** C5 (as amended).  A [disconnect] command for a connected address.
    When every [stop_notify] of its subscriptions returns, the
    subscription dict of the address is empty afterwards, and when the
    adapter's [disconnect] returns as well the client and the dict are
    removed and [connection_updated(False, address)] is the only signal.
    A [stop_notify] that raises is not swallowed: the command ends with
    one error signal, [disconnect] is not awaited, and the worker (the
    client, its subscriptions) stays as it was. *)
Theorem disconnect_and_subscriptions hw addr c w :
  clients (self w) !! addr = Some c →
  is_connected hw c = Returns true →
  let w' := handle hw (disconnect addr) w in
  ((∀ u, u ∈ dict_keys (subscriptions w addr) →
         outcome hw (client_stop_notify c u) = Returns tt) →
   subscriptions w' addr = []
   ∧ (outcome hw (client_disconnect c) = Returns tt →
      clients (self w') !! addr = None
      ∧ notification_handlers (self w') !! addr = None
      ∧ new_signals w w' = [connection_updated false addr None]))
  ∧ ((∃ u e, u ∈ dict_keys (subscriptions w addr)
             ∧ outcome hw (client_stop_notify c u) = Raises e) →
     self w' = self w
     ∧ (∃ msg, new_signals w w' = [error_occurred msg])
     ∧ client_disconnect c ∉ new_calls w w').
Proof.
  intros Hc Hconn w'. subst w'.
  unfold handle, try_except, dispatch.
  erewrite bind_returns
    by (rewrite (connected_client_present _ _ _ _ Hc), Hconn; reflexivity).
  cbv beta iota.
  erewrite bind_returns by reflexivity.
  unfold subscriptions.
  destruct (notification_handlers (self w) !! addr) as [handlers |] eqn:Hh; cbn [default].
  - split.
    + intros Hall.
      erewrite bind_returns.
      2:{ erewrite bind_returns by (by apply for_each_await_all). reflexivity. }
      unfold bind, await, emit, update. cbn.
      destruct (outcome hw (client_disconnect c)) as [[] | e] eqn:Hd; cbn.
      * rewrite lookup_delete_eq. split; [done |]. intros _.
        rewrite lookup_delete_eq. split; [done |]. split; [done |].
        apply new_signals_app. done.
      * rewrite lookup_insert_eq. split; [done |]. intros [=].
    + intros Hex.
      destruct (for_each_await_raises hw (dict_keys handlers)
                  (client_stop_notify c) w Hex)
        as (e & pre & x & post & Hl & Hrun).
      erewrite bind_raises.
      2:{ erewrite bind_raises by exact Hrun. reflexivity. }
      unfold on_exception, bind, emit, ret. cbn.
      split; [done |]. split.
      * eexists. by apply new_signals_app.
      * erewrite new_calls_app by reflexivity.
        intros Hin. apply list_elem_of_fmap in Hin as (u & Hu & _). discriminate.
  - split.
    + intros _. unfold bind, await, emit, update, ret. cbn.
      destruct (outcome hw (client_disconnect c)) as [[] | e] eqn:Hd; cbn.
      * rewrite lookup_delete_eq. split; [done |]. intros _.
        rewrite lookup_delete_eq. split; [done |]. split; [done |].
        apply new_signals_app. done.
      * rewrite Hh. split; [done |]. intros [=].
    + intros (u & e & Hu & _). by apply elem_of_nil in Hu.
Qed.

Lemma disconnect_and_subscriptions_witness :
  subscriptions (handle obliging (disconnect "AA:BB") subscribed) "AA:BB" = [].
Proof.
  apply (proj1 (disconnect_and_subscriptions obliging "AA:BB" client0 subscribed
                  eq_refl eq_refl)).
  intros u _. reflexivity.
Defined.

(** C5 as stated fails: with one subscription whose [stop_notify]
    raises, the disconnect command leaves the subscription in place,
    never awaits the adapter's [disconnect] and keeps the client. *)
Lemma failing_stop_notify_blocks_disconnect :
  clients (self subscribed) !! "AA:BB" = Some client0
  ∧ is_connected unsubscribe_fails client0 = Returns true
  ∧ subscriptions (handle unsubscribe_fails (disconnect "AA:BB") subscribed) "AA:BB"
      = [("2a37", true)]
  ∧ clients (self (handle unsubscribe_fails (disconnect "AA:BB") subscribed)) !! "AA:BB"
      = Some client0
  ∧ awaited (handle unsubscribe_fails (disconnect "AA:BB") subscribed)
      = [client_stop_notify client0 "2a37"]
  ∧ emitted (handle unsubscribe_fails (disconnect "AA:BB") subscribed)
      = [error_occurred "BLE Error: Not connected"].
Proof. repeat split; vm_compute; reflexivity. Qed.

(** What a [connect] command does, case by case. *)
Lemma connect_previous_disconnect_raises hw addr timeout old e w :
  clients (self w) !! addr = Some old →
  outcome hw (client_disconnect old) = Raises e →
  handle hw (connect addr timeout) w =
    {| self := self w;
       emitted := emitted w ++
         [error_occurred match e with
                         | BleakError msg => "BLE Error: " +:+ msg
                         | OtherException msg => "Error: " +:+ msg
                         end;
          connection_updated false addr None];
       awaited := awaited w ++ [client_disconnect old] |}.
Proof.
  intros Hold Hd.
  unfold handle, try_except, dispatch.
  erewrite bind_returns by reflexivity. rewrite Hold.
  erewrite bind_raises by (unfold await; rewrite Hd; reflexivity).
  unfold on_exception, bind, emit. cbn. by rewrite <- app_assoc.
Qed.

Lemma connect_reaches_adapter hw addr timeout w :
  previous_disconnect_returns hw addr w →
  handle hw (connect addr timeout) w =
    let client := client_to_build addr timeout w in
    let calls := awaited w ++ previous_disconnect addr w ++ [client_connect client] in
    match outcome hw (client_connect client) with
    | Raises e =>
        {| self := set_constructed (S (constructed (self w))) (self w);
           emitted := emitted w ++
             [error_occurred match e with
                             | BleakError msg => "BLE Error: " +:+ msg
                             | OtherException msg => "Error: " +:+ msg
                             end;
              connection_updated false addr None];
           awaited := calls |}
    | Returns _ =>
        if connect_returns hw client then
          {| self :=
               set_notification_handlers
                 (<[addr := []]> (notification_handlers (self w)))
                 (set_clients (<[addr := client]> (clients (self w)))
                    (set_constructed (S (constructed (self w))) (self w)));
             emitted := emitted w ++
               [connection_updated true addr (Some client);
                services_updated addr (services hw client)];
             awaited := calls |}
        else
          {| self := set_constructed (S (constructed (self w))) (self w);
             emitted := emitted w ++ [connection_updated false addr None];
             awaited := calls |}
    end.
Proof.
  intros Hprev.
  unfold handle, try_except, dispatch, previous_disconnect, client_to_build.
  erewrite bind_returns by reflexivity.
  destruct (clients (self w) !! addr) as [old |] eqn:Hold.
  - erewrite bind_returns
      by (unfold await; rewrite (Hprev old Hold); reflexivity).
    unfold new_client, get_self, update, bind, await, emit, ret. cbn.
    destruct (outcome hw (client_connect _)) as [[] | e]; cbn.
    + destruct (connect_returns hw _); cbn; by rewrite <- ?app_assoc.
    + by rewrite <- ?app_assoc.
  - unfold new_client, get_self, update, bind, await, emit, ret. cbn.
    destruct (outcome hw (client_connect _)) as [[] | e]; cbn.
    + destruct (connect_returns hw _); cbn;
        by rewrite <- ?app_assoc, ?world_eta.
    + by rewrite <- ?app_assoc.
Qed.

(** C6 (as amended).  A [connect] command that fails, in any of the
    three ways, leaves the client table and the subscription table
    exactly as they were (no handle of the failed attempt is stored; a
    handle stored earlier for the address stays), and emits exactly one
    connection signal, [connection_updated(False, address, None)]. *)
Theorem failed_connect_keeps_tables_and_signals_once hw addr timeout w :
  connect_fails hw addr timeout w →
  clients (self (handle hw (connect addr timeout) w)) = clients (self w)
  ∧ notification_handlers (self (handle hw (connect addr timeout) w))
      = notification_handlers (self w)
  ∧ List.filter is_connection_updated
      (new_signals w (handle hw (connect addr timeout) w))
      = [connection_updated false addr None].
Proof.
  intros Hfail.
  assert (Hprev : (∃ old e, clients (self w) !! addr = Some old
                            ∧ outcome hw (client_disconnect old) = Raises e)
                  ∨ previous_disconnect_returns hw addr w).
  { unfold previous_disconnect_returns.
    destruct (clients (self w) !! addr) as [old |]; [| right; by intros ? [=]].
    destruct (outcome hw (client_disconnect old)) as [[] | e] eqn:Hd.
    - right. by intros ? [= <-].
    - left. eauto. }
  destruct Hprev as [(old & e & Hold & Hd) | Hprev].
  - rewrite (connect_previous_disconnect_raises _ _ _ _ _ _ Hold Hd). cbn.
    split; [done |]. split; [done |].
    by erewrite new_signals_app by reflexivity.
  - rewrite (connect_reaches_adapter _ _ _ _ Hprev). cbv zeta.
    destruct Hfail as [(old & e & Hold & Hd) | [(e & He) | Hret]].
    + rewrite (Hprev old Hold) in Hd. discriminate.
    + rewrite He. cbn. split; [done |]. split; [done |].
      by erewrite new_signals_app by reflexivity.
    + rewrite Hret.
      destruct (outcome hw (client_connect _)) as [[] | e]; cbn;
        (split; [done |]); (split; [done |]);
        by erewrite new_signals_app by reflexivity.
Qed.

Lemma failed_connect_keeps_tables_and_signals_once_witness :
  clients (self (handle refuses (connect "AA:BB" (Some 5000%Z)) fresh))
    = clients (self fresh)
  ∧ notification_handlers (self (handle refuses (connect "AA:BB" (Some 5000%Z)) fresh))
      = notification_handlers (self fresh)
  ∧ List.filter is_connection_updated
      (new_signals fresh (handle refuses (connect "AA:BB" (Some 5000%Z)) fresh))
      = [connection_updated false "AA:BB" None].
Proof.
  apply (failed_connect_keeps_tables_and_signals_once
           refuses "AA:BB" (Some 5000%Z) fresh).
  right. right. reflexivity.
Defined.

(** C6 as stated fails: when the address already had a client, a failed
    reconnect keeps that client's handle in the table. *)
Lemma failed_reconnect_retains_previous_handle :
  connect_fails refuses "AA:BB" None subscribed
  ∧ clients (self (handle refuses (connect "AA:BB" None) subscribed)) !! "AA:BB"
      = Some client0.
Proof.
  split.
  - right. right. reflexivity.
  - vm_compute. reflexivity.
Qed.

(** C7 (as amended).  A [connect] command for an address that already
    has a client awaits that client's [disconnect] first.  When it
    returns, the adapter's [connect()] of a new client is awaited next.
    When it raises, the failure is not ignored: no [connect()] is
    awaited, the worker stays as it was, and the command ends with an
    error signal and [connection_updated(False, address, None)]. *)
Theorem reconnect_disconnects_previous_client_first hw addr timeout old w :
  clients (self w) !! addr = Some old →
  (outcome hw (client_disconnect old) = Returns tt →
   new_calls w (handle hw (connect addr timeout) w)
     = [client_disconnect old; client_connect (client_to_build addr timeout w)])
  ∧ (∀ e, outcome hw (client_disconnect old) = Raises e →
          new_calls w (handle hw (connect addr timeout) w) = [client_disconnect old]
          ∧ self (handle hw (connect addr timeout) w) = self w
          ∧ ∃ msg, new_signals w (handle hw (connect addr timeout) w)
                   = [error_occurred msg; connection_updated false addr None]).
Proof.
  intros Hold. split.
  - intros Hd.
    assert (Hprev : previous_disconnect_returns hw addr w).
    { intros old' Hold'. congruence. }
    rewrite (connect_reaches_adapter _ _ _ _ Hprev). cbv zeta.
    unfold previous_disconnect. rewrite Hold.
    destruct (outcome hw (client_connect _)) as [[] | e];
      [destruct (connect_returns hw _) |]; by apply new_calls_app.
  - intros e Hd.
    rewrite (connect_previous_disconnect_raises _ _ _ _ _ _ Hold Hd). cbn.
    split; [by apply new_calls_app |]. split; [done |].
    eexists. by apply new_signals_app.
Qed.

Lemma reconnect_disconnects_previous_client_first_witness :
  new_calls subscribed (handle obliging (connect "AA:BB" None) subscribed)
    = [client_disconnect client0;
       client_connect (client_to_build "AA:BB" None subscribed)].
Proof.
  apply (proj1 (reconnect_disconnects_previous_client_first
                  obliging "AA:BB" None client0 subscribed eq_refl)).
  reflexivity.
Defined.

(** C7 as stated fails: when disconnecting the previous client raises,
    the command ends there and the adapter's [connect()] is never
    awaited. *)
Lemma failing_previous_disconnect_prevents_connect :
  clients (self subscribed) !! "AA:BB" = Some client0
  ∧ outcome disconnect_fails (client_disconnect client0)
      = Raises (BleakError "Device not found")
  ∧ awaited (handle disconnect_fails (connect "AA:BB" None) subscribed)
      = [client_disconnect client0]
  ∧ ¬ (∃ c, client_connect c
            ∈ awaited (handle disconnect_fails (connect "AA:BB" None) subscribed)).
Proof.
  split; [reflexivity |]. split; [reflexivity |]. split; [reflexivity |].
  intros (c & H). vm_compute in H.
  apply list_elem_of_singleton in H. discriminate.
Qed.

(** *** Order of handling *)

Lemma orderly_ret {A} (a : A) : orderly (ret a).
Proof. by intros w. Qed.

Lemma orderly_raise {A} (e : exn) : orderly (@raise A e).
Proof. by intros w. Qed.

Lemma orderly_property {A} (r : result A) : orderly (property r).
Proof. by intros w. Qed.

Lemma orderly_get_self : orderly get_self.
Proof. by intros w. Qed.

Lemma orderly_emit (s : signal) : orderly (emit s).
Proof. intros w. split; [done |]. by apply prefix_app_r. Qed.

Lemma orderly_await hw (c : awaited_call) : orderly (await hw c).
Proof. by intros w. Qed.

Lemma orderly_update (f : worker → worker) :
  (∀ s, command_queue (f s) = command_queue s) → orderly (update f).
Proof. intros Hf w. split; [apply Hf | done]. Qed.

Lemma orderly_bind {A B} (m : M A) (k : A → M B) :
  orderly m → (∀ a, orderly (k a)) → orderly (bind m k).
Proof.
  intros Hm Hk w. unfold bind.
  destruct (Hm w) as [Hq Hp]. destruct (m w) as [[a | e] w1]; [| done].
  destruct (Hk a w1) as [Hq' Hp']. cbn in *.
  split; [congruence | by etrans].
Qed.

Lemma orderly_try_except {A} (m : M A) (h : exn → M A) :
  orderly m → (∀ e, orderly (h e)) → orderly (try_except m h).
Proof.
  intros Hm Hh w. unfold try_except.
  destruct (Hm w) as [Hq Hp]. destruct (m w) as [[a | e] w1]; [done |].
  destruct (Hh e w1) as [Hq' Hp']. cbn in *.
  split; [congruence | by etrans].
Qed.

Lemma orderly_for_each {A} (l : list A) (body : A → M unit) :
  (∀ x, orderly (body x)) → orderly (for_each l body).
Proof.
  intros Hbody. induction l as [| x l IH]; cbn.
  - apply orderly_ret.
  - apply orderly_bind; [apply Hbody | by intros _].
Qed.

Ltac orderly_step :=
  first
    [ apply orderly_ret | apply orderly_raise | apply orderly_property
    | apply orderly_get_self | apply orderly_emit | apply orderly_await
    | apply orderly_update; by intros []
    | apply orderly_for_each; intros
    | apply orderly_try_except; [| intros]
    | apply orderly_bind; [| intros]
    | match goal with
      | |- orderly (match ?x with _ => _ end) => destruct x
      end ].

Lemma orderly_dispatch hw cmd : orderly (dispatch hw cmd).
Proof.
  destruct cmd; unfold dispatch, new_client, connected_client;
    repeat orderly_step.
Qed.

Lemma orderly_on_exception cmd e : orderly (on_exception cmd e).
Proof. unfold on_exception. repeat orderly_step. Qed.

Lemma handle_orderly hw cmd w :
  command_queue (self (handle hw cmd w)) = command_queue (self w)
  ∧ emitted w `prefix_of` emitted (handle hw cmd w).
Proof.
  apply (orderly_try_except (dispatch hw cmd) (on_exception cmd)).
  - apply orderly_dispatch.
  - apply orderly_on_exception.
Qed.

Lemma handle_emitted hw cmd w :
  emitted (handle hw cmd w) = emitted w ++ new_signals w (handle hw cmd w).
Proof.
  destruct (handle_orderly hw cmd w) as [_ [l Hl]].
  by rewrite (new_signals_app _ _ _ Hl).
Qed.

(** * Properties of the text operations *)

Example lower_example : Text.lower "Aa:Bb-09" = "aa:bb-09".
Proof. reflexivity. Qed.

Example adv_filter_example :
  Text.remove_spaces (Text.lower (Text.strip "  4C 00 0a  ")) = "4c000a".
Proof. reflexivity. Qed.

Example contains_example :
  Text.contains "a:b" "aa:bb" = true ∧ Text.contains "ab" "aa:bb" = false.
Proof. split; reflexivity. Qed.

Example hex_of_bytes_example :
  Text.hex_of_bytes [Byte.x4c; Byte.x00; Byte.x0a] = "4c000a".
Proof. reflexivity. Qed.

Lemma append_String (c : ascii) (s t : string) :
  String c s +:+ t = String c (s +:+ t).
Proof. reflexivity. Qed.

Lemma append_empty_r (s : string) : s +:+ EmptyString = s.
Proof. induction s as [| c s IH]; [done |]. by rewrite append_String, IH. Qed.

Lemma append_assoc (a b c : string) : (a +:+ b) +:+ c = a +:+ (b +:+ c).
Proof. induction a as [| x a IH]; [done |]. by rewrite !append_String, IH. Qed.

Lemma startswith_spec (needle hay : string) :
  Text.startswith needle hay = true ↔ ∃ post, hay = needle +:+ post.
Proof.
  revert hay. induction needle as [| a needle IH]; intros hay.
  - cbn. split; [intros _; by exists hay | done].
  - destruct hay as [| b hay]; cbn [Text.startswith].
    + split; [done |]. intros [post H]. rewrite append_String in H. discriminate.
    + rewrite andb_true_iff, Ascii.eqb_eq, IH. split.
      * intros [-> [post ->]]. by exists post.
      * intros [post H]. rewrite append_String in H. injection H as -> ->.
        split; [done | by exists post].
Qed.

Lemma contains_spec (needle hay : string) :
  Text.contains needle hay = true ↔ substring needle hay.
Proof.
  unfold substring. induction hay as [| c hay IH].
  - cbn [Text.contains]. rewrite orb_false_r, startswith_spec. split.
    + intros [post H]. by exists EmptyString, post.
    + intros [[| ? ?] [post H]]; [by exists post |].
      rewrite append_String in H. discriminate.
  - cbn [Text.contains]. rewrite orb_true_iff, startswith_spec, IH. split.
    + intros [[post H] | (pre & post & ->)].
      * by exists EmptyString, post.
      * by exists (String c pre), post.
    + intros [[| c' pre] [post H]].
      * left. by exists post.
      * right. rewrite append_String in H. injection H as -> ->.
        by exists pre, post.
Qed.

Lemma contains_empty (hay : string) : Text.contains EmptyString hay = true.
Proof. by destruct hay. Qed.

Lemma lower_append (a b : string) :
  Text.lower (a +:+ b) = Text.lower a +:+ Text.lower b.
Proof.
  induction a as [| x a IH]; [done |].
  rewrite append_String. cbn [Text.lower]. by rewrite IH, append_String.
Qed.

Lemma lower_split (hay x y : string) :
  Text.lower hay = x +:+ y →
  ∃ a b, hay = a +:+ b ∧ Text.lower a = x ∧ Text.lower b = y.
Proof.
  revert hay. induction x as [| c x IH]; intros hay H.
  - by exists EmptyString, hay.
  - destruct hay as [| d hay]; rewrite append_String in H; [discriminate |].
    cbn in H. injection H as Hc H.
    destruct (IH hay H) as (a & b & -> & <- & <-).
    exists (String d a), b. cbn [Text.lower]. by rewrite Hc.
Qed.

Lemma nat_of_lower_char (c : ascii) :
  nat_of_ascii (Text.lower_char c) =
    if (65 <=? nat_of_ascii c)%nat && (nat_of_ascii c <=? 90)%nat
    then (nat_of_ascii c + 32)%nat else nat_of_ascii c.
Proof.
  unfold Text.lower_char.
  destruct ((65 <=? nat_of_ascii c)%nat && (nat_of_ascii c <=? 90)%nat) eqn:H;
    [| done].
  apply andb_true_iff in H as [H1 H2].
  apply Nat.leb_le in H1, H2. apply nat_ascii_embedding. lia.
Qed.

Lemma nat_of_ascii_inj (a b : ascii) : nat_of_ascii a = nat_of_ascii b → a = b.
Proof.
  intros H. rewrite <- (ascii_nat_embedding a), <- (ascii_nat_embedding b).
  by rewrite H.
Qed.

Lemma lower_char_eq (a b : ascii) :
  Text.lower_char a = Text.lower_char b ↔ same_letter a b.
Proof.
  unfold same_letter. cbv zeta. split.
  - intros H. apply (f_equal nat_of_ascii) in H.
    rewrite !nat_of_lower_char in H.
    destruct (65 <=? nat_of_ascii a)%nat eqn:A1;
      destruct (nat_of_ascii a <=? 90)%nat eqn:A2;
      destruct (65 <=? nat_of_ascii b)%nat eqn:B1;
      destruct (nat_of_ascii b <=? 90)%nat eqn:B2;
      cbn in H;
      rewrite ?Nat.leb_le, ?Nat.leb_gt in *; lia.
  - intros H. apply nat_of_ascii_inj. rewrite !nat_of_lower_char.
    destruct (65 <=? nat_of_ascii a)%nat eqn:A1;
      destruct (nat_of_ascii a <=? 90)%nat eqn:A2;
      destruct (65 <=? nat_of_ascii b)%nat eqn:B1;
      destruct (nat_of_ascii b <=? 90)%nat eqn:B2;
      cbn;
      rewrite ?Nat.leb_le, ?Nat.leb_gt in *; lia.
Qed.

Lemma lower_eq (s t : string) :
  Text.lower s = Text.lower t ↔ equal_ignoring_case s t.
Proof.
  split.
  - revert t. induction s as [| a s IH]; intros [| b t] H; try discriminate.
    + constructor.
    + cbn in H. injection H as Hc H. constructor; [by apply lower_char_eq | auto].
  - induction 1 as [| a b s t Hab _ IH]; [done |].
    cbn. f_equal; [by apply lower_char_eq | done].
Qed.

(** [needle.lower() in hay.lower()] is containment up to case. *)
Lemma contains_lower_spec (needle hay : string) :
  Text.contains (Text.lower needle) (Text.lower hay) = true
  ↔ contains_ignoring_case needle hay.
Proof.
  rewrite contains_spec. unfold substring, contains_ignoring_case. split.
  - intros (pre' & post' & H).
    apply lower_split in H as (pre & rest & -> & _ & H).
    apply lower_split in H as (mid & post & -> & H & _).
    exists pre, mid, post. split; [done | by apply lower_eq].
  - intros (pre & mid & post & -> & H). apply lower_eq in H.
    exists (Text.lower pre), (Text.lower post).
    by rewrite !lower_append, H.
Qed.

Lemma lower_char_space (c : ascii) :
  Ascii.eqb (Text.lower_char c) " " = Ascii.eqb c " ".
Proof.
  destruct (Ascii.eqb_spec c " ") as [-> | Hne]; [done |].
  apply Ascii.eqb_neq. intros H. apply Hne.
  apply nat_of_ascii_inj. apply (f_equal nat_of_ascii) in H.
  rewrite nat_of_lower_char in H. change (nat_of_ascii " ") with 32%nat in *.
  destruct (65 <=? nat_of_ascii c)%nat eqn:A1;
    destruct (nat_of_ascii c <=? 90)%nat eqn:A2; cbn in H;
    rewrite ?Nat.leb_le, ?Nat.leb_gt in *; lia.
Qed.

Lemma remove_spaces_lower (s : string) :
  Text.remove_spaces (Text.lower s) = Text.lower (Text.remove_spaces s).
Proof.
  induction s as [| c s IH]; [done |].
  cbn. rewrite lower_char_space. destruct (Ascii.eqb c " "); cbn; congruence.
Qed.

Lemma lower_hex02 (b : Byte.byte) : Text.lower (Text.hex02 b) = Text.hex02 b.
Proof. destruct b; reflexivity. Qed.

Lemma lower_hex_of_bytes (data : list Byte.byte) :
  Text.lower (Text.hex_of_bytes data) = Text.hex_of_bytes data.
Proof.
  induction data as [| b data IH]; [done |].
  cbn [Text.hex_of_bytes fold_right].
  rewrite lower_append, lower_hex02. f_equal. exact IH.
Qed.

(** * Properties of the scanner window *)

Lemma fold_left_append {A} (f : A → string) (l : list A) (init : string) :
  fold_left (fun acc x => acc +:+ f x) l init
  = init +:+ fold_right (fun x acc => f x +:+ acc) EmptyString l.
Proof.
  revert init. induction l as [| x l IH]; intros init; cbn [fold_left fold_right].
  - by rewrite append_empty_r.
  - by rewrite IH, append_assoc.
Qed.

Lemma mfg_hex_last_hex (w : window) (d : BLEDevice) :
  mfg_hex w (address d) = last_hex w d.
Proof.
  unfold mfg_hex, last_hex, manufacturer_hex.
  destruct (device_advertisements w !! address d) as [adv |]; [| done].
  by rewrite (fold_left_append (fun cd => Text.hex_of_bytes (snd cd))).
Qed.

Lemma lower_last_hex (w : window) (d : BLEDevice) :
  Text.lower (last_hex w d) = last_hex w d.
Proof.
  unfold last_hex, manufacturer_hex.
  destruct (device_advertisements w !! address d) as [adv |]; [| done].
  induction (manufacturer_data adv) as [| cd l IH]; [done |].
  cbn [fold_right]. by rewrite lower_append, lower_hex_of_bytes, IH.
Qed.

Lemma guarded_contains (s hay : string) :
  negb (String.eqb s EmptyString) && negb (Text.contains s hay)
  = negb (Text.contains s hay).
Proof.
  destruct (String.eqb_spec s EmptyString) as [-> | _]; [| done].
  by rewrite contains_empty.
Qed.

Lemma mac_test (w : window) (d : BLEDevice) :
  Text.contains (Text.lower (mac_filter w)) (Text.lower (address d)) = true
  ↔ mac_matches w d.
Proof. apply contains_lower_spec. Qed.

Lemma rssi_test (w : window) (d : BLEDevice) :
  match rssi_filter w with
  | Some wanted =>
      match device_rssi w (address d) with
      | None => true
      | Some r => Z.ltb r wanted
      end
  | None => false
  end = false
  ↔ rssi_matches w d.
Proof.
  unfold rssi_matches, device_rssi.
  destruct (rssi_filter w) as [wanted |]; [| split; [by intros _ ? [=] | done]].
  destruct (device_advertisements w !! address d) as [adv |].
  - destruct (rssi adv) as [r |] eqn:Hr.
    + rewrite Z.ltb_ge. split.
      * intros H ? [= <-]. by exists adv, r.
      * intros H. destruct (H wanted eq_refl) as (? & r' & [= <-] & Hr' & ?).
        congruence.
    + split; [done |]. intros H.
      destruct (H wanted eq_refl) as (? & r' & [= <-] & Hr' & _). congruence.
  - split; [done |]. intros H. destruct (H wanted eq_refl) as (? & ? & [=] & _).
Qed.

Lemma adv_test (w : window) (d : BLEDevice) :
  Text.contains
    (Text.remove_spaces (Text.lower (Text.strip (adv_filter w))))
    (mfg_hex w (address d)) = true
  ↔ adv_matches w d.
Proof.
  unfold adv_matches.
  rewrite remove_spaces_lower, mfg_hex_last_hex, <- (lower_last_hex w d) at 1.
  apply contains_lower_spec.
Qed.

Lemma passes_spec (w : window) (d : BLEDevice) :
  passes w d = true ↔ mac_matches w d ∧ rssi_matches w d ∧ adv_matches w d.
Proof.
  rewrite <- mac_test, <- rssi_test, <- adv_test.
  unfold passes. cbv zeta. rewrite !guarded_contains.
  destruct (Text.contains (Text.lower (mac_filter w)) _); cbn;
    [| intuition congruence].
  destruct (match rssi_filter w with Some _ => _ | None => _ end); cbn;
    [intuition congruence |].
  destruct (Text.contains _ (mfg_hex w (address d))); cbn; intuition congruence.
Qed.

Lemma apply_filters_rows (w : window) (devices : list BLEDevice)
    (rows : list (option row)) :
  fold_left
    (fun rows device =>
       if passes w device then rows ++ [Some (make_row w device)] else rows)
    devices rows
  = rows ++ map (fun d => Some (make_row w d)) (List.filter (passes w) devices).
Proof.
  revert rows. induction devices as [| d devices IH]; intros rows.
  - cbn. by rewrite app_nil_r.
  - cbn [fold_left List.filter]. rewrite IH.
    destruct (passes w d); [| done]. cbn [map]. by rewrite <- app_assoc.
Qed.

Lemma shown_rows (w : window) (l : list BLEDevice) :
  omap (fun r : option row => item_device <$> r)
       (map (fun d => Some (make_row w d)) l) = l.
Proof. induction l as [| d l IH]; [done |]. cbn. by rewrite IH. Qed.

Lemma apply_filters_shown (w : window) (devices : list BLEDevice) :
  all_devices w = Some devices →
  shown (apply_filters w) = List.filter (passes w) devices.
Proof.
  intros H. unfold apply_filters, shown. rewrite H. cbn.
  rewrite apply_filters_rows. apply shown_rows.
Qed.

(** C8 (as amended).  The table built by [apply_filters] shows, in the
    order of the device list, exactly the devices that meet all three
    conditions: the address contains the MAC filter up to case (an empty
    filter matches every address); when an RSSI filter is set, a last
    advertisement with a known RSSI at least the filter is stored; the
    manufacturer hex of the last advertisement contains, up to case, the
    advertisement filter with its surrounding whitespace and all its
    space characters dropped. *)
Theorem device_query_matches_filters (w : window) (devices : list BLEDevice) :
  all_devices w = Some devices →
  shown (apply_filters w) = List.filter (passes w) devices
  ∧ ∀ d, passes w d = true
         ↔ mac_matches w d ∧ rssi_matches w d ∧ adv_matches w d.
Proof.
  intros H. split; [by apply apply_filters_shown | apply passes_spec].
Qed.

Lemma device_query_matches_filters_witness :
  shown (apply_filters filtered_by_rssi) = [sensor].
Proof.
  exact (eq_trans
           (proj1 (device_query_matches_filters
                     filtered_by_rssi [sensor; beacon] eq_refl))
           eq_refl).
Defined.

(** C8 as stated fails: an advertisement filter with a tab inside is
    compared with the tab still in it, so a device whose manufacturer hex
    contains the filter once whitespace is ignored is not shown. *)
Lemma tab_in_filter_hides_matching_device :
  all_devices filtered_by_tabbed_hex = Some [sensor]
  ∧ mac_matches filtered_by_tabbed_hex sensor
  ∧ rssi_matches filtered_by_tabbed_hex sensor
  ∧ adv_matches_ignoring_whitespace filtered_by_tabbed_hex sensor
  ∧ shown (apply_filters filtered_by_tabbed_hex) = [].
Proof.
  split; [reflexivity |]. split.
  { exists EmptyString, EmptyString, "AA:BB". split; [reflexivity | constructor]. }
  split.
  { intros wanted [=]. }
  split.
  { exists EmptyString, "01", EmptyString. split; [reflexivity |].
    apply lower_eq. reflexivity. }
  vm_compute. reflexivity.
Qed.

(** *** Starting a scan *)

Lemma start_scan_resets_history (w : window) :
  adv_timestamps (start_scan w) = ∅
  ∧ adv_periods (start_scan w) = ∅
  ∧ shown (start_scan w) = [].
Proof.
  split; [done |]. split; [done |].
  unfold shown, start_scan. cbn.
  induction (device_list w) as [| r l IH]; [done | exact IH].
Qed.

Lemma start_scan_keeps_devices (w : window) :
  all_devices (start_scan w) = all_devices w
  ∧ device_advertisements (start_scan w) = device_advertisements w.
Proof. done. Qed.

(** C3.  The code at the input where it departs from the claim: a first
    scan sees one device and is stopped; starting a second scan leaves
    that device in the list of known devices, and the first
    advertisement of the second scan, from another device, puts both
    devices in the table. *)
Theorem start_scan_keeps_known_devices :
  all_devices
    (start_scan (stop_scan (process_advertisement sensor strong 0
                              (start_scan blank))))
    = Some [sensor]
  ∧ shown
      (process_advertisement beacon weak 5
         (start_scan (stop_scan (process_advertisement sensor strong 0
                                   (start_scan blank)))))
    = [sensor; beacon].
Proof. split; vm_compute; reflexivity. Qed.

(** *** The advertising period *)

Lemma fold_min_spec (xs : list Z) (x : Z) :
  let m := fold_left (fun best y => if Z.ltb y best then y else best) xs x in
  (m = x ∨ m ∈ xs) ∧ (m ≤ x)%Z ∧ ∀ y, y ∈ xs → (m ≤ y)%Z.
Proof.
  revert x. induction xs as [| y xs IH]; intros x; cbn.
  - split; [by left |]. split; [lia |]. intros y Hy. by apply elem_of_nil in Hy.
  - destruct (IH (if Z.ltb y x then y else x)) as (Hin & Hle & Hall).
    destruct (Z.ltb_spec y x) as [Hlt | Hge].
    + split; [right; destruct Hin as [-> | ?]; [by left | by right] |].
      split; [lia |]. intros z [-> | Hz]%elem_of_cons; [done | auto].
    + split; [destruct Hin as [-> | ?]; [by left | right; by right] |].
      split; [done |]. intros z [-> | Hz]%elem_of_cons; [lia | auto].
Qed.

Lemma python_min_spec (xs : list Z) (m : Z) :
  python_min xs = Some m → m ∈ xs ∧ ∀ y, y ∈ xs → (m ≤ y)%Z.
Proof.
  destruct xs as [| x xs]; [done |]. intros [= <-].
  destruct (fold_min_spec xs x) as (Hin & Hle & Hall). split.
  - destruct Hin as [-> | ?]; [by left | by right].
  - intros y [-> | Hy]%elem_of_cons; [done | auto].
Qed.

Lemma periods_length (ts : list Z) : length (periods ts) = (length ts - 1)%nat.
Proof. unfold periods. by rewrite length_map, length_seq. Qed.

Lemma periods_spec (ts : list Z) (x : Z) :
  x ∈ periods ts
  ↔ ∃ i a b, ts !! i = Some a ∧ ts !! S i = Some b ∧ x = (b - a)%Z.
Proof.
  unfold periods. rewrite list_elem_of_fmap. split.
  - intros (k & -> & Hk). apply elem_of_seq in Hk.
    destruct k as [| i]; [lia |].
    assert (Hi : (S i < length ts)%nat) by lia.
    destruct (lookup_lt_is_Some_2 ts (S i) Hi) as [b Hb].
    destruct (lookup_lt_is_Some_2 ts i ltac:(lia)) as [a Ha].
    exists i, a, b. split; [done |]. split; [done |].
    rewrite !nth_lookup. replace (S i - 1)%nat with i by lia.
    by rewrite Ha, Hb.
  - intros (i & a & b & Ha & Hb & ->). exists (S i). split.
    + rewrite !nth_lookup. replace (S i - 1)%nat with i by lia.
      by rewrite Ha, Hb.
    + apply elem_of_seq. apply lookup_lt_Some in Hb. lia.
Qed.

Lemma python_min_periods (ts : list Z) :
  (2 ≤ length ts)%nat → ∃ m, python_min (periods ts) = Some m ∧ is_min_gap ts m.
Proof.
  intros Hlen.
  destruct (python_min (periods ts)) as [m |] eqn:Hmin.
  - exists m. split; [done |].
    apply python_min_spec in Hmin as [Hin Hall]. split.
    + by apply periods_spec.
    + intros i a b Ha Hb. apply Hall. apply periods_spec. by exists i, a, b.
  - pose proof (periods_length ts) as Hl.
    destruct (periods ts); [cbn in Hl; lia | discriminate].
Qed.

Lemma apply_filters_frame (w : window) :
  scanning (apply_filters w) = scanning w
  ∧ adv_timestamps (apply_filters w) = adv_timestamps w
  ∧ adv_periods (apply_filters w) = adv_periods w.
Proof. unfold apply_filters. by destruct (all_devices w). Qed.

(** What one advertisement does to the timestamps and periods. *)
Lemma process_advertisement_history device adv t (w : window) :
  scanning w = true →
  let addr := address device in
  let ts := default [] (adv_timestamps w !! addr) ++ [t] in
  let w' := process_advertisement device adv t w in
  scanning w' = true
  ∧ adv_timestamps w' = <[addr := ts]> (adv_timestamps w)
  ∧ adv_periods w' =
      if (2 <=? length ts)%nat then
        match python_min (periods ts) with
        | Some min_period => <[addr := min_period]> (adv_periods w)
        | None => adv_periods w
        end
      else adv_periods w.
Proof.
  intros Hscan addr ts w'. subst w'.
  unfold process_advertisement. rewrite Hscan. cbn [negb]. cbv zeta.
  destruct (apply_filters_frame
              (set_all_devices (Some (default [] (all_devices w) ++ [device]))
                 (set_all_devices (Some (default [] (all_devices w))) w)))
    as (Hs & Ht & Hp).
  match goal with
  | |- context [apply_filters (update_device_in_list ?a ?x)] =>
      destruct (apply_filters_frame (update_device_in_list a x)) as (-> & -> & ->)
  end.
  destruct (existsb _ (default [] (all_devices w)));
    cbn -[Nat.leb python_min periods];
    rewrite ?Hs, ?Ht, ?Hp; cbn -[Nat.leb python_min periods];
    fold addr; fold ts;
    destruct (2 <=? length ts)%nat; try done;
    destruct (python_min (periods ts)); done.
Qed.

Lemma tracks_start_scan (w : window) (addr : string) :
  tracks (start_scan w) addr [].
Proof.
  split; [done |]. split; [done |]. cbn. lia.
Qed.

Lemma tracks_process_advertisement device adv t (w : window) addr ts :
  tracks w addr ts →
  tracks (process_advertisement device adv t w) addr
    (if String.eqb (address device) addr then ts ++ [t] else ts).
Proof.
  intros (Hscan & Hts & Hper).
  destruct (process_advertisement_history device adv t w Hscan)
    as (Hscan' & Hts' & Hper').
  split; [done |].
  destruct (String.eqb_spec (address device) addr) as [<- | Hne].
  - rewrite Hts in Hts', Hper'. rewrite Hts', Hper', lookup_insert_eq.
    split; [done |]. intros Hlen.
    apply Nat.leb_le in Hlen as Hleb. rewrite Hleb.
    destruct (python_min_periods _ Hlen) as (m & Hm & _).
    rewrite Hm. by rewrite lookup_insert_eq.
  - rewrite Hts', lookup_insert_ne by done. split; [done |].
    intros Hlen. rewrite <- (Hper Hlen), Hper'.
    destruct (2 <=? _)%nat; [| done].
    destruct (python_min (periods (_ ++ [t]))); [| done].
    by rewrite lookup_insert_ne.
Qed.

Lemma tracks_ingest observations (w : window) addr ts :
  tracks w addr ts →
  tracks (ingest observations w) addr (ts ++ times_of addr observations).
Proof.
  revert w ts. induction observations as [| o observations IH]; intros w ts H.
  - cbn. by rewrite app_nil_r.
  - apply (tracks_process_advertisement (fst (fst o)) (snd (fst o)) (snd o)) in H.
    apply IH in H. unfold ingest. cbn [fold_left]. fold (ingest observations).
    unfold times_of. cbn [List.filter].
    destruct (String.eqb (address (fst (fst o))) addr); [| exact H].
    cbn [map]. by rewrite <- app_assoc in H.
Qed.

(** C2.  During one scan, after the observations of an address with
    timestamps t1 < ... < tn (n >= 2) have been ingested, interleaved in
    any way with observations of other addresses, the period stored for
    the address is the least difference of two consecutive
    timestamps. *)
Theorem stored_period_is_min_gap (w : window)
    (observations : list (BLEDevice * AdvertisementData * Z))
    (addr : string) (ts : list Z) :
  times_of addr observations = ts →
  (2 ≤ length ts)%nat →
  strictly_increasing ts →
  ∃ m, adv_periods (ingest observations (start_scan w)) !! addr = Some m
       ∧ is_min_gap ts m.
Proof.
  intros Hts Hlen _.
  destruct (tracks_ingest observations _ addr [] (tracks_start_scan w addr))
    as (_ & _ & Hper).
  cbn [app] in Hper. rewrite Hts in Hper.
  destruct (python_min_periods ts Hlen) as (m & Hm & Hgap).
  exists m. split; [| done]. by rewrite (Hper Hlen).
Qed.

Lemma stored_period_is_min_gap_witness :
  ∃ m, adv_periods (ingest three_sightings (start_scan blank)) !! "AA:BB" = Some m
       ∧ is_min_gap [0; 100; 250]%Z m.
Proof.
  apply (stored_period_is_min_gap blank three_sightings "AA:BB" [0; 100; 250]%Z).
  - reflexivity.
  - cbn. lia.
  - intros i a b Ha Hb.
    destruct i as [| [| [| i]]]; cbn in Ha, Hb; simplify_eq; lia.
Defined.

Example period_of_three_sightings :
  adv_periods (ingest three_sightings (start_scan blank)) !! "AA:BB" = Some 100%Z.
Proof. vm_compute. reflexivity. Qed.

(** * Further properties of the worker loop *)

Lemma connected_client_connected hw addr c w :
  clients (self w) !! addr = Some c →
  is_connected hw c = Returns true →
  connected_client hw addr w = (Returns (Some c), w).
Proof.
  intros Hc Hconn. by rewrite (connected_client_present _ _ _ _ Hc), Hconn.
Qed.

(** X1.  A [connect] command whose previous disconnect (if any) and
    [connect()] return, with [connect()] giving [True]: the new client
    replaces whatever the table held for the address, the address gets
    an empty subscription dict (subscriptions recorded earlier are
    dropped), and the command emits [connection_updated(True, ...)] with
    the new client followed by [services_updated], and nothing else. *)
Theorem successful_connect_registers_client hw addr timeout w :
  previous_disconnect_returns hw addr w →
  outcome hw (client_connect (client_to_build addr timeout w)) = Returns tt →
  connect_returns hw (client_to_build addr timeout w) = true →
  clients (self (handle hw (connect addr timeout) w)) !! addr
    = Some (client_to_build addr timeout w)
  ∧ subscriptions (handle hw (connect addr timeout) w) addr = []
  ∧ new_signals w (handle hw (connect addr timeout) w)
    = [connection_updated true addr (Some (client_to_build addr timeout w));
       services_updated addr (services hw (client_to_build addr timeout w))]
  ∧ ∀ other, other ≠ addr →
      clients (self (handle hw (connect addr timeout) w)) !! other
        = clients (self w) !! other
      ∧ subscriptions (handle hw (connect addr timeout) w) other
        = subscriptions w other.
Proof.
  intros Hprev Hconn Hret.
  rewrite (connect_reaches_adapter _ _ _ _ Hprev). cbv zeta.
  rewrite Hconn, Hret. unfold subscriptions. cbn.
  rewrite !lookup_insert_eq. split; [done |]. split; [done |].
  split; [by apply new_signals_app |].
  intros other Hne. by rewrite !lookup_insert_ne.
Qed.

Lemma successful_connect_registers_client_witness :
  clients (self (handle crowded (connect "AA:BB" (Some 5000%Z)) subscribed)) !! "AA:BB"
    = Some (client_to_build "AA:BB" (Some 5000%Z) subscribed)
  ∧ subscriptions (handle crowded (connect "AA:BB" (Some 5000%Z)) subscribed) "AA:BB"
    = [].
Proof.
  destruct (successful_connect_registers_client
              crowded "AA:BB" (Some 5000%Z) subscribed)
    as (H1 & H2 & _).
  - intros old _. reflexivity.
  - reflexivity.
  - reflexivity.
  - exact (conj H1 H2).
Defined.

(** X2.  A [read] command for a connected address awaits
    [read_gatt_char] once, leaves the worker as it was, and emits
    exactly one signal: [characteristic_read] with the value read when
    the call returns, and otherwise the error signal of the read itself
    ("Failed to read characteristic ..."), not that of the loop. *)
Theorem read_reports_exactly_once hw addr char_uuid c w :
  clients (self w) !! addr = Some c →
  is_connected hw c = Returns true →
  handle hw (read addr char_uuid) w =
    {| self := self w;
       emitted := emitted w ++
         [match outcome hw (read_gatt_char c char_uuid) with
          | Returns _ =>
              characteristic_read addr char_uuid (read_returns hw c char_uuid)
          | Raises e => error_occurred (read_failure addr char_uuid e)
          end];
       awaited := awaited w ++ [read_gatt_char c char_uuid] |}.
Proof.
  intros Hc Hconn. unfold handle, try_except at 1, dispatch.
  erewrite bind_returns by (by apply connected_client_connected).
  unfold try_except, bind, await, emit, read_failure. cbn.
  by destruct (outcome hw (read_gatt_char c char_uuid)) as [[] | e].
Qed.

Lemma read_reports_exactly_once_witness :
  handle obliging (read "AA:BB" "2a37") subscribed =
    {| self := self subscribed;
       emitted := emitted subscribed ++ [characteristic_read "AA:BB" "2a37" []];
       awaited := awaited subscribed ++ [read_gatt_char client0 "2a37"] |}.
Proof.
  exact (read_reports_exactly_once obliging "AA:BB" "2a37" client0 subscribed
           eq_refl eq_refl).
Defined.

(** X3.  A [write] command for a connected address awaits
    [write_gatt_char] once with the value and response flag of the
    command, leaves the worker as it was, and always ends with exactly
    one [characteristic_written] whose flag tells whether the call
    returned; a failure is announced first by the error signal of the
    write itself. *)
Theorem write_reports_success_flag hw addr char_uuid value response c w :
  clients (self w) !! addr = Some c →
  is_connected hw c = Returns true →
  handle hw (write addr char_uuid value response) w =
    {| self := self w;
       emitted := emitted w ++
         match outcome hw (write_gatt_char c char_uuid value response) with
         | Returns _ => [characteristic_written addr char_uuid true]
         | Raises e =>
             [error_occurred (write_failure addr char_uuid e);
              characteristic_written addr char_uuid false]
         end;
       awaited := awaited w ++ [write_gatt_char c char_uuid value response] |}.
Proof.
  intros Hc Hconn. unfold handle, try_except at 1, dispatch.
  erewrite bind_returns by (by apply connected_client_connected).
  unfold try_except, bind, await, emit, write_failure. cbn.
  destruct (outcome hw (write_gatt_char c char_uuid value response)) as [[] | e];
    cbn; by rewrite <- ?app_assoc.
Qed.

Lemma write_reports_success_flag_witness :
  handle obliging (write "AA:BB" "2a37" [Byte.x01] true) subscribed =
    {| self := self subscribed;
       emitted := emitted subscribed ++ [characteristic_written "AA:BB" "2a37" true];
       awaited := awaited subscribed
                  ++ [write_gatt_char client0 "2a37" [Byte.x01] true] |}.
Proof.
  exact (write_reports_success_flag obliging "AA:BB" "2a37" [Byte.x01] true
           client0 subscribed eq_refl eq_refl).
Defined.

(** *** Subscriptions *)

Lemma dict_mem_set {V} (k : string) (v : V) (d : list (string * V)) :
  dict_mem k (dict_set k v d) = true.
Proof.
  unfold dict_mem, dict_keys. induction d as [| [k' v'] d IH]; cbn.
  - by rewrite String.eqb_refl.
  - destruct (String.eqb_spec k' k) as [-> | Hne]; cbn.
    + by rewrite String.eqb_refl.
    + rewrite IH. by rewrite orb_true_r.
Qed.

Lemma dict_del_set {V} (k : string) (v : V) (d : list (string * V)) :
  dict_mem k d = false → dict_del k (dict_set k v d) = d.
Proof.
  unfold dict_mem, dict_keys. induction d as [| [k' v'] d IH]; cbn.
  - by rewrite String.eqb_refl.
  - rewrite orb_false_iff. intros [Hk Hd].
    rewrite String.eqb_sym in Hk. rewrite Hk. cbn. rewrite Hk.
    by rewrite IH.
Qed.

Lemma dict_set_present {V} (k : string) (v : V) (d : list (string * V)) :
  dict_mem k d = true → dict_keys (dict_set k v d) = dict_keys d.
Proof.
  unfold dict_mem, dict_keys. induction d as [| [k' v'] d IH]; cbn; [done |].
  destruct (String.eqb_spec k' k) as [-> | Hne]; cbn; [done |].
  rewrite orb_true_iff. intros [Hk | Hd].
  - apply String.eqb_eq in Hk. congruence.
  - by rewrite IH.
Qed.

(** What a [start_notify] command does for a connected address. *)
Lemma start_notify_connected hw addr char_uuid c w :
  clients (self w) !! addr = Some c →
  is_connected hw c = Returns true →
  handle hw (start_notify addr char_uuid) w =
    match outcome hw (client_start_notify c char_uuid) with
    | Returns _ =>
        {| self :=
             set_notification_handlers
               (<[addr := dict_set char_uuid true (subscriptions w addr)]>
                  (notification_handlers (self w))) (self w);
           emitted := emitted w;
           awaited := awaited w ++ [client_start_notify c char_uuid] |}
    | Raises e =>
        {| self := self w;
           emitted := emitted w ++
             [error_occurred match e with
                             | BleakError msg => "BLE Error: " +:+ msg
                             | OtherException msg => "Error: " +:+ msg
                             end];
           awaited := awaited w ++ [client_start_notify c char_uuid] |}
    end.
Proof.
  intros Hc Hconn. unfold handle, try_except, dispatch.
  erewrite bind_returns by (by apply connected_client_connected).
  unfold bind, await, update, on_exception, emit, ret, subscriptions. cbn.
  by destruct (outcome hw (client_start_notify c char_uuid)) as [[] | e].
Qed.

(** What a [stop_notify] command does for a connected address with the
    characteristic among its subscriptions. *)
Lemma stop_notify_subscribed hw addr char_uuid c handlers w :
  clients (self w) !! addr = Some c →
  is_connected hw c = Returns true →
  notification_handlers (self w) !! addr = Some handlers →
  dict_mem char_uuid handlers = true →
  handle hw (stop_notify addr char_uuid) w =
    match outcome hw (client_stop_notify c char_uuid) with
    | Returns _ =>
        {| self :=
             set_notification_handlers
               (<[addr := dict_del char_uuid handlers]>
                  (notification_handlers (self w))) (self w);
           emitted := emitted w;
           awaited := awaited w ++ [client_stop_notify c char_uuid] |}
    | Raises e =>
        {| self := self w;
           emitted := emitted w ++
             [error_occurred match e with
                             | BleakError msg => "BLE Error: " +:+ msg
                             | OtherException msg => "Error: " +:+ msg
                             end];
           awaited := awaited w ++ [client_stop_notify c char_uuid] |}
    end.
Proof.
  intros Hc Hconn Hh Hmem. unfold handle, try_except, dispatch.
  erewrite bind_returns by (by apply connected_client_connected).
  cbv beta iota. erewrite bind_returns by reflexivity. rewrite Hh, Hmem.
  unfold bind, await, update, on_exception, emit, ret. cbn.
  by destruct (outcome hw (client_stop_notify c char_uuid)) as [[] | e].
Qed.

(** X4.  Subscribing then unsubscribing.  For a connected address and a
    characteristic not yet subscribed, a [start_notify] command whose
    adapter call returns records the characteristic, and a following
    [stop_notify] command whose adapter call returns brings the
    subscriptions of the address back to what they were; the client
    table is untouched and exactly the two adapter calls are awaited. *)
Theorem subscribe_then_unsubscribe_restores hw1 hw2 addr char_uuid c w :
  clients (self w) !! addr = Some c →
  is_connected hw1 c = Returns true →
  is_connected hw2 c = Returns true →
  outcome hw1 (client_start_notify c char_uuid) = Returns tt →
  outcome hw2 (client_stop_notify c char_uuid) = Returns tt →
  dict_mem char_uuid (subscriptions w addr) = false →
  dict_mem char_uuid
    (subscriptions (handle hw1 (start_notify addr char_uuid) w) addr) = true
  ∧ subscriptions
      (handle hw2 (stop_notify addr char_uuid)
         (handle hw1 (start_notify addr char_uuid) w)) addr
    = subscriptions w addr
  ∧ clients
      (self (handle hw2 (stop_notify addr char_uuid)
               (handle hw1 (start_notify addr char_uuid) w)))
    = clients (self w)
  ∧ new_calls w
      (handle hw2 (stop_notify addr char_uuid)
         (handle hw1 (start_notify addr char_uuid) w))
    = [client_start_notify c char_uuid; client_stop_notify c char_uuid].
Proof.
  intros Hc Hconn1 Hconn2 Hstart Hstop Hfresh.
  rewrite (start_notify_connected _ _ _ _ _ Hc Hconn1), Hstart.
  split.
  { unfold subscriptions at 1. cbn. rewrite lookup_insert_eq. cbn.
    apply dict_mem_set. }
  erewrite stop_notify_subscribed; [| exact Hc | exact Hconn2 | |].
  2:{ cbn. apply lookup_insert_eq. }
  2:{ apply dict_mem_set. }
  rewrite Hstop. unfold subscriptions at 1. cbn. rewrite lookup_insert_eq. cbn.
  split; [by apply dict_del_set |]. split; [done |].
  apply new_calls_app. cbn. by rewrite <- app_assoc.
Qed.

Lemma subscribe_then_unsubscribe_restores_witness :
  subscriptions
    (handle obliging (stop_notify "AA:BB" "2a19")
       (handle obliging (start_notify "AA:BB" "2a19") subscribed)) "AA:BB"
  = subscriptions subscribed "AA:BB".
Proof.
  exact (proj1 (proj2 (subscribe_then_unsubscribe_restores
                         obliging obliging "AA:BB" "2a19" client0 subscribed
                         eq_refl eq_refl eq_refl eq_refl eq_refl eq_refl))).
Defined.

(** X5.  Subscribing to a characteristic that is already subscribed
    awaits the adapter's [start_notify] again but keeps a single entry:
    the subscribed characteristics and their order do not change. *)
Theorem subscribe_twice_keeps_one_entry hw addr char_uuid c w :
  clients (self w) !! addr = Some c →
  is_connected hw c = Returns true →
  outcome hw (client_start_notify c char_uuid) = Returns tt →
  dict_mem char_uuid (subscriptions w addr) = true →
  dict_keys (subscriptions (handle hw (start_notify addr char_uuid) w) addr)
    = dict_keys (subscriptions w addr)
  ∧ new_calls w (handle hw (start_notify addr char_uuid) w)
    = [client_start_notify c char_uuid].
Proof.
  intros Hc Hconn Hstart Hmem.
  rewrite (start_notify_connected _ _ _ _ _ Hc Hconn), Hstart.
  unfold subscriptions at 1. cbn. rewrite lookup_insert_eq. cbn.
  split; [by apply dict_set_present | by apply new_calls_app].
Qed.

Lemma subscribe_twice_keeps_one_entry_witness :
  dict_keys (subscriptions (handle obliging (start_notify "AA:BB" "2a37") subscribed)
               "AA:BB")
  = dict_keys (subscriptions subscribed "AA:BB").
Proof.
  exact (proj1 (subscribe_twice_keeps_one_entry
                  obliging "AA:BB" "2a37" client0 subscribed
                  eq_refl eq_refl eq_refl eq_refl)).
Defined.

Lemma unsubscribe_skipped hw addr char_uuid w :
  dict_mem char_uuid (subscriptions w addr) = false →
  (∀ c, clients (self w) !! addr = Some c → ∃ b, is_connected hw c = Returns b) →
  handle hw (stop_notify addr char_uuid) w = w.
Proof.
  intros Hmem Hquery. unfold handle, try_except, dispatch.
  destruct (clients (self w) !! addr) as [c |] eqn:Hc.
  - destruct (Hquery c eq_refl) as [b Hb].
    erewrite bind_returns
      by (rewrite (connected_client_present _ _ _ _ Hc), Hb; reflexivity).
    destruct b; [| done]. cbv beta iota.
    erewrite bind_returns by reflexivity.
    unfold subscriptions in Hmem.
    destruct (notification_handlers (self w) !! addr) as [handlers |]; [| done].
    change (dict_mem char_uuid handlers = false) in Hmem. by rewrite Hmem.
  - by erewrite bind_returns by (by apply connected_client_absent).
Qed.

(** X6.  A [stop_notify] command for a characteristic that is not among
    the subscriptions of the address is skipped, also when the address
    is connected: nothing is awaited, nothing is emitted, nothing
    changes. *)
Theorem unsubscribe_unknown_characteristic_is_skipped hw addr char_uuid w :
  dict_mem char_uuid (subscriptions w addr) = false →
  (∀ c, clients (self w) !! addr = Some c → ∃ b, is_connected hw c = Returns b) →
  handle hw (stop_notify addr char_uuid) w = w.
Proof. apply unsubscribe_skipped. Qed.

Lemma unsubscribe_unknown_characteristic_is_skipped_witness :
  handle obliging (stop_notify "AA:BB" "2a19") subscribed = subscribed.
Proof.
  apply (unsubscribe_unknown_characteristic_is_skipped
           obliging "AA:BB" "2a19" subscribed).
  - reflexivity.
  - intros c _. by exists true.
Defined.

(** *** Disconnecting *)

(** X7.  A [disconnect] command for an address that has no client, or
    whose client says it is not connected, does nothing: no adapter
    call, no signal (no [connection_updated] either), and a stale client
    entry stays in the table. *)
Theorem disconnect_without_connection_is_skipped hw addr w :
  (clients (self w) !! addr = None
   ∨ ∃ c, clients (self w) !! addr = Some c ∧ is_connected hw c = Returns false) →
  handle hw (disconnect addr) w = w.
Proof.
  intros Hnc. unfold handle, try_except, dispatch.
  assert (Hcc : connected_client hw addr w = (Returns None, w)).
  { destruct Hnc as [H | (c & H & Hc)].
    - by apply connected_client_absent.
    - by rewrite (connected_client_present _ _ _ _ H), Hc. }
  by erewrite bind_returns by exact Hcc.
Qed.

Lemma disconnect_without_connection_is_skipped_witness :
  handle refuses (disconnect "AA:BB") subscribed = subscribed.
Proof.
  apply (disconnect_without_connection_is_skipped refuses "AA:BB" subscribed).
  right. exists client0. split; reflexivity.
Defined.

(** X8.  A [disconnect] command for a connected address on which every
    adapter call returns: [stop_notify] is awaited once for every
    subscribed characteristic, in the order they were subscribed, then
    the client's [disconnect]; the client entry and the subscription
    dict of the address are removed and those of other addresses are
    kept; only [connection_updated(False, address, None)] is emitted. *)
Theorem disconnect_unsubscribes_in_order hw addr c w :
  clients (self w) !! addr = Some c →
  is_connected hw c = Returns true →
  (∀ call, outcome hw call = Returns tt) →
  handle hw (disconnect addr) w =
    {| self :=
         set_notification_handlers (delete addr (notification_handlers (self w)))
           (set_clients (delete addr (clients (self w))) (self w));
       emitted := emitted w ++ [connection_updated false addr None];
       awaited := awaited w
                  ++ map (client_stop_notify c) (dict_keys (subscriptions w addr))
                  ++ [client_disconnect c] |}.
Proof.
  intros Hc Hconn Hall. unfold handle, try_except, dispatch.
  erewrite bind_returns by (by apply connected_client_connected).
  cbv beta iota. erewrite bind_returns by reflexivity.
  unfold subscriptions.
  destruct (notification_handlers (self w) !! addr) as [handlers |] eqn:Hh;
    cbn [default].
  - erewrite bind_returns.
    2:{ erewrite bind_returns by (apply for_each_await_all; intros; apply Hall).
        reflexivity. }
    unfold bind, await, emit, update. cbn. rewrite Hall. cbn.
    unfold set_self, set_notification_handlers, set_clients, dict_keys. cbn.
    by rewrite delete_insert_eq, <- app_assoc.
  - unfold bind, await, emit, update, ret. cbn. rewrite Hall. cbn. done.
Qed.

Lemma disconnect_unsubscribes_in_order_witness :
  awaited (handle obliging (disconnect "AA:BB") subscribed)
  = [client_stop_notify client0 "2a37"; client_disconnect client0].
Proof.
  exact (f_equal awaited
           (disconnect_unsubscribes_in_order obliging "AA:BB" client0 subscribed
              eq_refl eq_refl (fun _ => eq_refl))).
Defined.

(** *** Scanning *)

(** X9.  A scan command without a duration, as [scan_devices()] with its
    default argument puts it, never reaches the scanner: comparing
    [None] with 100 raises, and the turn that handles the command emits
    one error signal and awaits nothing. *)
Theorem scan_without_duration_never_starts hw w :
  command_queue (self w) = [] →
  run_ble_loop_turn hw (scan_devices None w) =
    {| self := self w;
       emitted := emitted w ++
         [error_occurred
            "Error: '>' not supported between instances of 'NoneType' and 'int'"];
       awaited := awaited w |}.
Proof.
  intros Hq. unfold run_ble_loop_turn, scan_devices, put. cbn. rewrite Hq. cbn.
  unfold handle, try_except, dispatch, raise, on_exception, bind, emit, ret. cbn.
  unfold set_command_queue. cbn. rewrite <- Hq. f_equal. by destruct (self w).
Qed.

Lemma scan_without_duration_never_starts_witness :
  awaited (run_ble_loop_turn obliging (scan_devices None fresh)) = [].
Proof.
  exact (f_equal awaited (scan_without_duration_never_starts obliging fresh eq_refl)).
Defined.

(** X10.  A scan whose scanner starts forwards every detected
    advertisement as one [advertisement_received] signal, in the order
    of detection, before anything else the command emits; the only other
    signal it can emit is one error signal, when the sleep or stopping
    the scanner raises.  A scan whose scanner fails to start forwards
    nothing. *)
Theorem scan_forwards_detections_in_order hw (d : Q) w :
  (outcome hw scanner_start = Returns tt →
   ∃ tail,
     new_signals w (handle hw (scan (Some d)) w)
       = map (fun da => advertisement_received (fst da) (snd da)) (detected hw)
         ++ tail
     ∧ (tail = [] ∨ ∃ msg, tail = [error_occurred msg])
     ∧ (outcome hw (asyncio_sleep (scan_time_seconds d)) = Returns tt →
        outcome hw scanner_stop = Returns tt → tail = []))
  ∧ (∀ e, outcome hw scanner_start = Raises e →
          ∃ msg, new_signals w (handle hw (scan (Some d)) w) = [error_occurred msg]).
Proof.
  split.
  - intros Hstart. unfold handle, try_except, dispatch.
    erewrite bind_returns; [| unfold await; rewrite Hstart; reflexivity].
    erewrite bind_returns; [| apply for_each_emit].
    unfold bind, await. cbn.
    destruct (outcome hw (asyncio_sleep (scan_time_seconds d))) as [[] | e].
    + destruct (outcome hw scanner_stop) as [[] | e]; cbn.
      * exists []. rewrite app_nil_r. split; [by apply new_signals_app |].
        split; [by left | done].
      * eexists. split; [apply new_signals_app; by rewrite <- app_assoc |].
        split; [right; eauto | intros _ [=]].
    + cbn. eexists. split; [apply new_signals_app; by rewrite <- app_assoc |].
      split; [right; eauto | intros [=]].
  - intros e Hstart. unfold handle, try_except, dispatch.
    erewrite bind_raises; [| unfold await; rewrite Hstart; reflexivity].
    cbn. eexists. by apply new_signals_app.
Qed.

Lemma scan_forwards_detections_in_order_witness :
  ∃ tail,
    new_signals fresh (handle crowded (scan (Some 30000%Q)) fresh)
      = map (fun da => advertisement_received (fst da) (snd da)) (detected crowded)
        ++ tail
    ∧ (tail = [] ∨ ∃ msg, tail = [error_occurred msg])
    ∧ (outcome crowded (asyncio_sleep (scan_time_seconds 30000%Q)) = Returns tt →
       outcome crowded scanner_stop = Returns tt → tail = []).
Proof.
  exact (proj1 (scan_forwards_detections_in_order crowded 30000%Q fresh) eq_refl).
Defined.

(** *** The loop as a whole *)


(** *** What a command may touch and say *)

Lemma keeps_ret {A B} (f : worker → B) (a : A) : keeps f (ret a).
Proof. by intros w. Qed.

Lemma keeps_raise {A B} (f : worker → B) (e : exn) : keeps f (@raise A e).
Proof. by intros w. Qed.

Lemma keeps_property {A B} (f : worker → B) (r : result A) : keeps f (property r).
Proof. by intros w. Qed.

Lemma keeps_get_self {B} (f : worker → B) : keeps f get_self.
Proof. by intros w. Qed.

Lemma keeps_emit {B} (f : worker → B) (s : signal) : keeps f (emit s).
Proof. by intros w. Qed.

Lemma keeps_await {B} (f : worker → B) hw (c : awaited_call) : keeps f (await hw c).
Proof. by intros w. Qed.

Lemma keeps_update {B} (f : worker → B) (g : worker → worker) :
  (∀ s, f (g s) = f s) → keeps f (update g).
Proof. intros Hg w. apply Hg. Qed.

Lemma keeps_bind {A B C} (f : worker → C) (m : M A) (k : A → M B) :
  keeps f m → (∀ a, keeps f (k a)) → keeps f (bind m k).
Proof.
  intros Hm Hk w. unfold bind. specialize (Hm w).
  destruct (m w) as [[a | e] w1]; [| done].
  specialize (Hk a w1). cbn in *. congruence.
Qed.

Lemma keeps_try_except {A C} (f : worker → C) (m : M A) (h : exn → M A) :
  keeps f m → (∀ e, keeps f (h e)) → keeps f (try_except m h).
Proof.
  intros Hm Hh w. unfold try_except. specialize (Hm w).
  destruct (m w) as [[a | e] w1]; [done |].
  specialize (Hh e w1). cbn in *. congruence.
Qed.

Lemma keeps_for_each {A C} (f : worker → C) (l : list A) (body : A → M unit) :
  (∀ x, keeps f (body x)) → keeps f (for_each l body).
Proof.
  intros Hbody. induction l as [| x l IH]; cbn.
  - apply keeps_ret.
  - apply keeps_bind; [apply Hbody | by intros _].
Qed.

Ltac keeps_step :=
  first
    [ apply keeps_ret | apply keeps_raise | apply keeps_property
    | apply keeps_get_self | apply keeps_emit | apply keeps_await
    | apply keeps_update; by intros []
    | apply keeps_for_each; intros
    | apply keeps_try_except; [| intros]
    | apply keeps_bind; [| intros]
    | match goal with
      | |- keeps _ (match ?x with _ => _ end) => destruct x
      end ].

Lemma keeps_on_exception {C} (f : worker → C) cmd e : keeps f (on_exception cmd e).
Proof. unfold on_exception. repeat keeps_step. Qed.

Lemma dispatch_keeps_clients hw cmd :
  changes_clients cmd = false →
  keeps (fun s => (clients s, constructed s)) (dispatch hw cmd).
Proof.
  destruct cmd; try discriminate; intros _;
    unfold dispatch, connected_client; repeat keeps_step.
Qed.

Lemma dispatch_keeps_worker hw cmd :
  changes_subscriptions cmd = false → keeps (fun s => s) (dispatch hw cmd).
Proof.
  destruct cmd; try discriminate; intros _;
    unfold dispatch, connected_client; repeat keeps_step.
Qed.

Lemma handle_keeps {C} (f : worker → C) hw cmd w :
  keeps f (dispatch hw cmd) → f (self (handle hw cmd w)) = f (self w).
Proof.
  intros H.
  apply (keeps_try_except f (dispatch hw cmd) (on_exception cmd) H).
  intros e. apply keeps_on_exception.
Qed.

(** X12.  Only [connect] and [disconnect] commands can change the
    client table or construct a client, and [scan], [check_connection],
    [read] and [write] commands leave the whole worker as it was,
    whatever the BLE stack does and whether or not they fail. *)
Theorem commands_touch_only_their_tables hw cmd w :
  (changes_clients cmd = false →
   clients (self (handle hw cmd w)) = clients (self w)
   ∧ constructed (self (handle hw cmd w)) = constructed (self w))
  ∧ (changes_subscriptions cmd = false → self (handle hw cmd w) = self w).
Proof.
  split; intros H.
  - pose proof (handle_keeps (fun s => (clients s, constructed s)) hw cmd w
                  (dispatch_keeps_clients hw cmd H)) as E.
    by injection E.
  - exact (handle_keeps (fun s => s) hw cmd w (dispatch_keeps_worker hw cmd H)).
Qed.

Lemma commands_touch_only_their_tables_witness :
  self (handle disconnect_fails (read "AA:BB" "2a37") subscribed) = self subscribed.
Proof.
  exact (proj2 (commands_touch_only_their_tables
                  disconnect_fails (read "AA:BB" "2a37") subscribed) eq_refl).
Defined.

Lemma says_ret {A} (P : signal → Prop) (a : A) : says P (ret a).
Proof. intros w. exists []. by rewrite app_nil_r. Qed.

Lemma says_raise {A} (P : signal → Prop) (e : exn) : says P (@raise A e).
Proof. intros w. exists []. by rewrite app_nil_r. Qed.

Lemma says_property {A} (P : signal → Prop) (r : result A) : says P (property r).
Proof. intros w. exists []. by rewrite app_nil_r. Qed.

Lemma says_get_self (P : signal → Prop) : says P get_self.
Proof. intros w. exists []. by rewrite app_nil_r. Qed.

Lemma says_await (P : signal → Prop) hw (c : awaited_call) : says P (await hw c).
Proof. intros w. exists []. by rewrite app_nil_r. Qed.

Lemma says_update (P : signal → Prop) (g : worker → worker) : says P (update g).
Proof. intros w. exists []. by rewrite app_nil_r. Qed.

Lemma says_emit (P : signal → Prop) (s : signal) : P s → says P (emit s).
Proof. intros Hs w. exists [s]. split; [done | by constructor]. Qed.

Lemma says_bind {A B} (P : signal → Prop) (m : M A) (k : A → M B) :
  says P m → (∀ a, says P (k a)) → says P (bind m k).
Proof.
  intros Hm Hk w. unfold bind. destruct (Hm w) as (l1 & E1 & F1).
  destruct (m w) as [[a | e] w1]; [| by exists l1].
  destruct (Hk a w1) as (l2 & E2 & F2). cbn in *.
  exists (l1 ++ l2). split; [by rewrite E2, E1, <- app_assoc |].
  by apply Forall_app.
Qed.

Lemma says_try_except {A} (P : signal → Prop) (m : M A) (h : exn → M A) :
  says P m → (∀ e, says P (h e)) → says P (try_except m h).
Proof.
  intros Hm Hh w. unfold try_except. destruct (Hm w) as (l1 & E1 & F1).
  destruct (m w) as [[a | e] w1]; [by exists l1 |].
  destruct (Hh e w1) as (l2 & E2 & F2). cbn in *.
  exists (l1 ++ l2). split; [by rewrite E2, E1, <- app_assoc |].
  by apply Forall_app.
Qed.

Lemma says_for_each {A} (P : signal → Prop) (l : list A) (body : A → M unit) :
  (∀ x, says P (body x)) → says P (for_each l body).
Proof.
  intros Hbody. induction l as [| x l IH]; cbn.
  - apply says_ret.
  - apply says_bind; [apply Hbody | by intros _].
Qed.

Ltac says_step :=
  first
    [ apply says_ret | apply says_raise | apply says_property
    | apply says_get_self | apply says_await | apply says_update
    | apply says_emit; cbn; rewrite ?String.eqb_refl; done
    | apply says_for_each; intros
    | apply says_try_except; [| intros]
    | apply says_bind; [| intros]
    | match goal with
      | |- says _ (match ?x with _ => _ end) => destruct x
      end ].

Lemma dispatch_says hw cmd :
  says (fun s => answers cmd s = true) (dispatch hw cmd).
Proof.
  destruct cmd; unfold dispatch, new_client, connected_client;
    repeat says_step.
Qed.

Lemma on_exception_says cmd e :
  says (fun s => answers cmd s = true) (on_exception cmd e).
Proof. unfold on_exception. destruct cmd; repeat says_step. Qed.

(** What handling a command emits answers the command. *)
Lemma handle_answers hw cmd w :
  Forall (fun s => answers cmd s = true) (new_signals w (handle hw cmd w)).
Proof.
  destruct (says_try_except _ (dispatch hw cmd) (on_exception cmd)
              (dispatch_says hw cmd) (on_exception_says cmd) w)
    as (l & E & F).
  by rewrite (new_signals_app w (handle hw cmd w) l E).
Qed.

(** *** The event loop *)

Lemma uniform_ret {A} (a : A) : uniform (ret a).
Proof. by intros q es cs w. Qed.

Lemma uniform_raise {A} (e : exn) : uniform (@raise A e).
Proof. by intros q es cs w. Qed.

Lemma uniform_property {A} (r : result A) : uniform (property r).
Proof. by intros q es cs w. Qed.

Lemma uniform_emit (s : signal) : uniform (emit s).
Proof. intros q es cs w. unfold emit, shift. cbn. by rewrite app_assoc. Qed.

Lemma uniform_await hw (c : awaited_call) : uniform (await hw c).
Proof. intros q es cs w. unfold await, shift. cbn. by rewrite app_assoc. Qed.

Lemma uniform_update (f : worker → worker) :
  (∀ q s, f (set_command_queue q s) = set_command_queue q (f s)) →
  uniform (update f).
Proof. intros Hf q es cs w. unfold update, set_self, shift. cbn. by rewrite Hf. Qed.

Lemma uniform_bind {A B} (m : M A) (k : A → M B) :
  uniform m → (∀ a, uniform (k a)) → uniform (bind m k).
Proof.
  intros Hm Hk q es cs w. unfold bind. rewrite Hm.
  destruct (m w) as [[a | e] w1]; cbn; [apply Hk | done].
Qed.

(** Reading [self] is uniform when what follows does not look at the
    queue. *)
Lemma uniform_get_self_bind {B} (k : worker → M B) :
  (∀ q s, k (set_command_queue q s) = k s) →
  (∀ s, uniform (k s)) →
  uniform (bind get_self k).
Proof.
  intros Hq Hk q es cs w. unfold bind, get_self. cbn. rewrite Hq. apply Hk.
Qed.

Lemma uniform_try_except {A} (m : M A) (h : exn → M A) :
  uniform m → (∀ e, uniform (h e)) → uniform (try_except m h).
Proof.
  intros Hm Hh q es cs w. unfold try_except. rewrite Hm.
  destruct (m w) as [[a | e] w1]; cbn; [done | apply Hh].
Qed.

Lemma uniform_for_each {A} (l : list A) (body : A → M unit) :
  (∀ x, uniform (body x)) → uniform (for_each l body).
Proof.
  intros Hbody. induction l as [| x l IH]; cbn.
  - apply uniform_ret.
  - apply uniform_bind; [apply Hbody | by intros _].
Qed.

Ltac uniform_step :=
  first
    [ apply uniform_ret | apply uniform_raise | apply uniform_property
    | apply uniform_emit | apply uniform_await
    | apply uniform_update; by intros ? []
    | apply uniform_get_self_bind; [by intros ? [] | intros]
    | apply uniform_for_each; intros
    | apply uniform_try_except; [| intros]
    | apply uniform_bind; [| intros]
    | match goal with
      | |- uniform (match ?x with _ => _ end) => destruct x
      end ].

Lemma uniform_dispatch hw cmd : uniform (dispatch hw cmd).
Proof.
  destruct cmd; unfold dispatch, new_client, connected_client;
    repeat uniform_step.
Qed.

Lemma uniform_on_exception cmd e : uniform (on_exception cmd e).
Proof. unfold on_exception. repeat uniform_step. Qed.

(** Handling a command does not depend on the queue nor on what has been
    observed before. *)
Lemma handle_shift hw cmd q es cs w :
  handle hw cmd (shift q es cs w) = shift q es cs (handle hw cmd w).
Proof.
  unfold handle.
  by rewrite (uniform_try_except _ _ (uniform_dispatch hw cmd)
                (uniform_on_exception cmd)).
Qed.

Lemma shift_bare (w : world) :
  shift (command_queue (self w)) (emitted w) (awaited w) (bare w) = w.
Proof. destruct w as [[] ? ?]. unfold shift, bare. cbn. by rewrite !app_nil_r. Qed.

Lemma of_commands_app (l1 l2 : list signal) :
  of_commands (l1 ++ l2) = of_commands l1 ++ of_commands l2.
Proof. apply List.filter_app. Qed.

Lemma alike_refl (w : world) : alike w w.
Proof. done. Qed.

Lemma alike_trans (u v w : world) : alike u v → alike v w → alike u w.
Proof. intros (? & ? & ?) (? & ? & ?). repeat split; congruence. Qed.

Lemma handle_alike hw cmd (w v : world) :
  alike w v → alike (handle hw cmd w) (handle hw cmd v).
Proof.
  intros (Hb & Ha & He).
  rewrite <- (shift_bare w), <- (shift_bare v), !handle_shift, Hb.
  repeat split; cbn.
  - by rewrite Ha.
  - by rewrite !of_commands_app, He.
Qed.

Lemma one_by_one_emitted (J : list (adapter * command)) (w : world) :
  emitted (one_by_one J w) = emitted w ++ concat (map snd (results J w)).
Proof.
  revert w. induction J as [| job J IH]; intros w; cbn.
  - by rewrite app_nil_r.
  - fold (one_by_one J (handle job.1 job.2 w)).
    rewrite IH, (handle_emitted job.1 job.2 w) at 1. by rewrite <- app_assoc.
Qed.

Lemma results_of_commands (J : list (adapter * command)) (w : world) :
  of_commands (concat (map snd (results J w))) = concat (map snd (results J w)).
Proof.
  revert w. induction J as [| job J IH]; intros w; [done |].
  cbn [results map snd concat]. rewrite of_commands_app, IH. f_equal.
  pose proof (handle_answers job.1 job.2 w) as H.
  induction H as [| s l Hs _ IHl]; [done |].
  unfold of_commands in *. cbn. rewrite IHl.
  by destruct s, job.2.
Qed.

(** A run only adds to the signals emitted. *)
Lemma run_event_loop_emitted (happens : list occurrence) (l : event_loop) :
  emitted (at_loop l) `prefix_of` emitted (at_loop (run_event_loop happens l)).
Proof.
  revert l. induction happens as [| o happens IH]; intros l; [done |].
  cbn [run_event_loop fold_left]. etrans; [| apply IH].
  destruct o as [[cmd | hw] | sender data |]; cbn.
  - done.
  - unfold run_ble_loop_turn.
    destruct (command_queue (self (at_loop l))) as [| cmd rest]; [done |].
    apply (handle_orderly hw cmd (set_self (set_command_queue rest) (at_loop l))).
  - unfold handler. by destruct (loop_address l).
  - destruct (tasks l) as [| [[a c] d] rest]; [done |]. cbn.
    by apply prefix_app_r.
Qed.

(** A run of the event loop and the one-by-one handling of its jobs
    agree, on worlds that are alike at the start. *)
Lemma run_event_loop_alike (happens : list occurrence) (l : event_loop)
    (v : world) :
  alike (at_loop l) v →
  alike (at_loop (run_event_loop happens l))
    (one_by_one (jobs happens (command_queue (self (at_loop l)))) v)
  ∧ command_queue (self (at_loop (run_event_loop happens l)))
    = drop (length (jobs happens (command_queue (self (at_loop l)))))
        (command_queue (self (at_loop l)) ++ put_commands happens).
Proof.
  revert l v. induction happens as [| o happens IH]; intros l v H.
  - unfold jobs. cbn. by rewrite app_nil_r.
  - cbn [run_event_loop fold_left]. fold (run_event_loop happens (occur o l)).
    destruct o as [[cmd | hw] | sender data |].
    + destruct (IH (occur (Acts (Put cmd)) l) v) as [IHa IHq].
      { cbn. apply (alike_trans _ (at_loop l)); [| done]. by destruct H. }
      cbn in IHa, IHq. unfold jobs in *. cbn [served put_commands flat_map].
      fold (put_commands happens).
      rewrite length_app, Nat.add_1_r, <- app_assoc in IHa, IHq. done.
    + cbn [occur act] in *. unfold run_ble_loop_turn in *.
      destruct (command_queue (self (at_loop l))) as [| cmd rest] eqn:Hq.
      * destruct (IH (occur (Acts (Turn hw)) l) v) as [IHa IHq].
        { cbn. unfold run_ble_loop_turn. by rewrite Hq. }
        cbn in IHa, IHq. unfold run_ble_loop_turn in IHa, IHq.
        rewrite Hq in IHa, IHq. cbn in IHa, IHq. rewrite Hq in IHa, IHq.
        done.
      * destruct (IH (occur (Acts (Turn hw)) l) (handle hw cmd v)) as [IHa IHq].
        { cbn. unfold run_ble_loop_turn. rewrite Hq. apply handle_alike.
          apply (alike_trans _ (at_loop l)); [| done]. by destruct H. }
        cbn in IHa, IHq. unfold run_ble_loop_turn in IHa, IHq.
        rewrite Hq in IHa, IHq.
        destruct (handle_orderly hw cmd
                    (set_self (set_command_queue rest) (at_loop l)))
          as [Hrest _].
        cbn in Hrest. rewrite Hrest in IHa, IHq.
        unfold jobs in *. cbn [served length put_commands flat_map app combine].
        fold (put_commands happens). done.
    + destruct (IH (occur (Callback sender data) l) v) as [IHa IHq].
      { cbn. unfold handler. by destruct (loop_address l). }
      assert (at_loop (occur (Callback sender data) l) = at_loop l) as Hsame
        by (cbn; unfold handler; by destruct (loop_address l)).
      rewrite Hsame in IHa, IHq. done.
    + destruct (tasks l) as [| [[a c] d] rest] eqn:Ht.
      * assert (occur Task_runs l = l) as -> by (cbn; by rewrite Ht).
        by apply IH.
      * destruct (IH (occur Task_runs l) v) as [IHa IHq].
        { cbn. rewrite Ht. cbn. destruct H as (Hb & Ha & He).
          repeat split; [done | done |]. cbn.
          by rewrite of_commands_app, app_nil_r. }
        assert (command_queue (self (at_loop (occur Task_runs l)))
                = command_queue (self (at_loop l))) as Hsame
          by (cbn; by rewrite Ht).
        rewrite Hsame in IHa, IHq. done.
Qed.

(** C1.  Whatever the interleaving of callers putting commands, turns
    of the loop, notification callbacks and their tasks, and whatever
    the BLE stack does: the run leaves the worker's tables, the calls
    awaited and the signals of commands exactly as handling the commands
    one by one does, each to completion before the next and in the order
    they were put; the commands still queued are the later ones.  So the
    signals of a command put before another are all emitted before the
    first signal of the other, and only notifications, which come from
    tasks, can fall between them. *)
Theorem commands_are_handled_in_put_order (happens : list occurrence)
    (l : event_loop) :
  command_queue (self (at_loop (run_event_loop happens l)))
  = drop (length (jobs happens (command_queue (self (at_loop l)))))
      (command_queue (self (at_loop l)) ++ put_commands happens)
  ∧ clients (self (at_loop (run_event_loop happens l)))
    = clients
        (self (one_by_one (jobs happens (command_queue (self (at_loop l))))
                 (at_loop l)))
  ∧ notification_handlers (self (at_loop (run_event_loop happens l)))
    = notification_handlers
        (self (one_by_one (jobs happens (command_queue (self (at_loop l))))
                 (at_loop l)))
  ∧ awaited (at_loop (run_event_loop happens l))
    = awaited
        (one_by_one (jobs happens (command_queue (self (at_loop l))))
           (at_loop l))
  ∧ of_commands (new_signals (at_loop l) (at_loop (run_event_loop happens l)))
    = concat
        (map snd
           (results (jobs happens (command_queue (self (at_loop l))))
              (at_loop l))).
Proof.
  destruct (run_event_loop_alike happens l (at_loop l) (alike_refl _))
    as [(Hb & Ha & He) Hq].
  split; [done |].
  split; [exact (f_equal (fun w => clients (self w)) Hb) |].
  split; [exact (f_equal (fun w => notification_handlers (self w)) Hb) |].
  split; [done |].
  destruct (run_event_loop_emitted happens l) as [new Hnew].
  rewrite (new_signals_app _ _ _ Hnew).
  rewrite Hnew, one_by_one_emitted, !of_commands_app, results_of_commands in He.
  by apply app_inv_head in He.
Qed.

(** X14.  The signals that handling a command emits carry the command's
    address, and so does a notification that arrives next, whatever
    device sent it.  When the loop takes a turn for a command, every
    signal of that turn is an error signal or a signal of the command's
    own kind with the command's address (and, for a read or a write, its
    characteristic).  A notification callback that comes after the turn
    is then reported under the address the command's branch has bound:
    the handler lambda reads the loop's variable [address] when it is
    called, so a subscription started for one device is reported under
    the address of the command dispatched last (after a scan, which
    binds nothing, under the address bound before it). *)
Theorem signals_carry_the_dispatched_address hw cmd rest sender data
    (l : event_loop) :
  command_queue (self (at_loop l)) = cmd :: rest →
  tasks l = [] →
  ∃ own,
    Forall (fun s => answers cmd s = true) own
    ∧ new_signals (at_loop l)
        (at_loop
           (run_event_loop [Acts (Turn hw); Callback sender data; Task_runs] l))
      = own ++ match command_address cmd, loop_address l with
               | Some addr, _ => [notification_received addr sender data]
               | None, Some addr => [notification_received addr sender data]
               | None, None => []
               end.
Proof.
  intros Hq Ht.
  assert (Hturn : occur (Acts (Turn hw)) l
                  = {| at_loop :=
                         handle hw cmd
                           (set_self (set_command_queue rest) (at_loop l));
                       loop_address := address_after cmd (loop_address l);
                       tasks := [] |}).
  { cbn [occur act]. unfold run_ble_loop_turn. by rewrite Hq, Ht. }
  exists (new_signals (set_self (set_command_queue rest) (at_loop l))
            (handle hw cmd (set_self (set_command_queue rest) (at_loop l)))).
  split; [apply handle_answers |].
  apply new_signals_app.
  unfold run_event_loop. cbn [fold_left]. rewrite Hturn.
  pose proof (handle_emitted hw cmd (set_self (set_command_queue rest) (at_loop l)))
    as He. cbn [emitted set_self] in He.
  cbn [occur]. unfold handler. cbn [loop_address].
  destruct cmd; cbn [address_after command_address];
    try destruct (loop_address l) as [addr |]; cbn;
    rewrite He at 1; by rewrite <- ?app_assoc, ?app_nil_r.
Qed.

(** A subscription runs on "AA:BB"; the loop handles a status check for
    "CC:DD"; the notification that "AA:BB" sends next is reported under
    "CC:DD". *)
Lemma signals_carry_the_dispatched_address_witness :
  ∃ own,
    Forall (fun s => answers (check_connection "CC:DD") s = true) own
    ∧ new_signals (at_loop check_pending)
        (at_loop
           (run_event_loop
              [Acts (Turn obliging); Callback "2a37" [Byte.x48]; Task_runs]
              check_pending))
      = own ++ [notification_received "CC:DD" "2a37" [Byte.x48]].
Proof.
  apply (signals_carry_the_dispatched_address obliging
           (check_connection "CC:DD") [] "2a37" [Byte.x48] check_pending);
    reflexivity.
Defined.

(** *** Subscriptions belong to clients *)

Lemma for_each_await_self {A} hw (l : list A) (f : A → awaited_call) (v : world) :
  self (for_each l (fun x => await hw (f x)) v).2 = self v
  ∧ emitted (for_each l (fun x => await hw (f x)) v).2 = emitted v.
Proof.
  revert v. induction l as [| x l IH]; intros v; [done |].
  cbn [for_each]. unfold bind, await.
  destruct (outcome hw (f x)) as [[] | e]; [| done].
  apply (IH {| self := self v; emitted := emitted v;
               awaited := awaited v ++ [f x] |}).
Qed.

Lemma connected_client_cases hw addr w :
  (∃ r, connected_client hw addr w = (r, w)
        ∧ ∀ c, r ≠ Returns (Some c))
  ∨ (∃ c, clients (self w) !! addr = Some c
          ∧ is_connected hw c = Returns true
          ∧ connected_client hw addr w = (Returns (Some c), w)).
Proof.
  destruct (clients (self w) !! addr) as [c |] eqn:Hc.
  - rewrite (connected_client_present _ _ _ _ Hc).
    destruct (is_connected hw c) as [[|] | e] eqn:Hconn.
    + right. by exists c.
    + left. by eexists.
    + left. by eexists.
  - left. rewrite (connected_client_absent _ _ _ Hc). by eexists.
Qed.

Lemma previous_disconnect_cases hw addr w :
  (∃ old e, clients (self w) !! addr = Some old
            ∧ outcome hw (client_disconnect old) = Raises e)
  ∨ previous_disconnect_returns hw addr w.
Proof.
  unfold previous_disconnect_returns.
  destruct (clients (self w) !! addr) as [old |]; [| right; by intros ? [=]].
  destruct (outcome hw (client_disconnect old)) as [[] | e] eqn:Hd.
  - right. by intros ? [= <-].
  - left. eauto.
Qed.

Lemma subscriptions_have_clients_insert (s : worker) addr c d :
  subscriptions_have_clients s →
  subscriptions_have_clients
    (set_notification_handlers (<[addr := d]> (notification_handlers s))
       (set_clients (<[addr := c]> (clients s)) s)).
Proof.
  intros H a. cbn. destruct (decide (addr = a)) as [-> | Hne].
  - rewrite !lookup_insert_eq. eauto.
  - rewrite !lookup_insert_ne by done. apply H.
Qed.

Lemma subscriptions_have_clients_record (s : worker) addr c d :
  clients s !! addr = Some c →
  subscriptions_have_clients s →
  subscriptions_have_clients
    (set_notification_handlers (<[addr := d]> (notification_handlers s)) s).
Proof.
  intros Hc H a. cbn. destruct (decide (addr = a)) as [-> | Hne].
  - rewrite lookup_insert_eq. eauto.
  - rewrite lookup_insert_ne by done. apply H.
Qed.

Lemma subscriptions_have_clients_delete (s : worker) addr :
  subscriptions_have_clients s →
  subscriptions_have_clients
    (set_notification_handlers (delete addr (notification_handlers s))
       (set_clients (delete addr (clients s)) s)).
Proof.
  intros H a. cbn. destruct (decide (addr = a)) as [-> | Hne].
  - rewrite !lookup_delete_eq. by intros [? [=]].
  - rewrite !lookup_delete_ne by done. apply H.
Qed.

Lemma connect_keeps_subscriptions_have_clients hw addr timeout w :
  subscriptions_have_clients (self w) →
  subscriptions_have_clients (self (handle hw (connect addr timeout) w)).
Proof.
  intros H.
  destruct (previous_disconnect_cases hw addr w) as [(old & e & Hold & Hd) | Hprev].
  - by rewrite (connect_previous_disconnect_raises _ _ _ _ _ _ Hold Hd).
  - rewrite (connect_reaches_adapter _ _ _ _ Hprev). cbv zeta.
    destruct (outcome hw (client_connect _)) as [[] | e]; [| exact H].
    destruct (connect_returns hw _); [| exact H]. cbn.
    apply (subscriptions_have_clients_insert
             (set_constructed (S (constructed (self w))) (self w))).
    exact H.
Qed.

Lemma disconnect_keeps_subscriptions_have_clients hw addr w :
  subscriptions_have_clients (self w) →
  subscriptions_have_clients (self (handle hw (disconnect addr) w)).
Proof.
  intros H. unfold handle, try_except, dispatch.
  destruct (connected_client_cases hw addr w)
    as [(r & Hr & Hnot) | (c & Hc & Hconn & Hr)].
  - destruct r as [[c |] | e].
    + by destruct (Hnot c).
    + by erewrite bind_returns by exact Hr.
    + by erewrite bind_raises by exact Hr.
  - erewrite bind_returns by exact Hr. cbv beta iota.
    erewrite bind_returns by reflexivity.
    destruct (notification_handlers (self w) !! addr) as [handlers |] eqn:Hh.
    + destruct (for_each_await_self hw (dict_keys handlers)
                  (client_stop_notify c) w) as [Hs _].
      unfold bind at 1. unfold bind at 1.
      destruct (for_each (dict_keys handlers)
                  (fun char_uuid => await hw (client_stop_notify c char_uuid)) w)
        as [[[] | e] w1]; cbn in Hs.
      * unfold bind, await, emit, update. cbn.
        destruct (outcome hw (client_disconnect c)) as [[] | e]; cbn;
          rewrite Hs.
        -- rewrite delete_insert_eq.
           by apply (subscriptions_have_clients_delete (self w)).
        -- by apply (subscriptions_have_clients_record (self w) addr c).
      * cbn. by rewrite Hs.
    + unfold bind, await, emit, update, ret. cbn.
      destruct (outcome hw (client_disconnect c)) as [[] | e]; cbn; [| exact H].
      by apply (subscriptions_have_clients_delete (self w)).
Qed.

Lemma notify_keeps_subscriptions_have_clients hw cmd w :
  (∃ addr u, cmd = start_notify addr u ∨ cmd = stop_notify addr u) →
  subscriptions_have_clients (self w) →
  subscriptions_have_clients (self (handle hw cmd w)).
Proof.
  intros (addr & u & Hcmd) H.
  destruct (connected_client_cases hw addr w)
    as [(r & Hr & Hnot) | (c & Hc & Hconn & Hr)].
  - assert (Hsame : self (handle hw cmd w) = self w); [| by rewrite Hsame].
    destruct Hcmd as [-> | ->]; unfold handle, try_except, dispatch;
      (destruct r as [[c |] | e];
       [ by destruct (Hnot c)
       | by erewrite bind_returns by exact Hr
       | by erewrite bind_raises by exact Hr ]).
  - destruct Hcmd as [-> | ->].
    + rewrite (start_notify_connected _ _ _ _ _ Hc Hconn).
      destruct (outcome hw (client_start_notify c u)) as [[] | e]; [| exact H].
      by apply (subscriptions_have_clients_record (self w) addr c).
    + destruct (notification_handlers (self w) !! addr) as [handlers |] eqn:Hh.
      * destruct (dict_mem u handlers) eqn:Hmem.
        -- rewrite (stop_notify_subscribed _ _ _ _ _ _ Hc Hconn Hh Hmem).
           destruct (outcome hw (client_stop_notify c u)) as [[] | e]; [| exact H].
           by apply (subscriptions_have_clients_record (self w) addr c).
        -- rewrite unsubscribe_skipped; [exact H | |].
           ++ unfold subscriptions. by rewrite Hh.
           ++ intros c' Hc'. exists true. congruence.
      * rewrite unsubscribe_skipped; [exact H | |].
        -- unfold subscriptions. by rewrite Hh.
        -- intros c' Hc'. exists true. congruence.
Qed.

Lemma handle_keeps_subscriptions_have_clients hw cmd w :
  subscriptions_have_clients (self w) →
  subscriptions_have_clients (self (handle hw cmd w)).
Proof.
  intros H. destruct cmd as [t | a t | a | a | a u | a u v r | a u | a u].
  - by rewrite (handle_keeps (fun s => s) hw (scan t) w
                  (dispatch_keeps_worker hw (scan t) eq_refl)).
  - by apply connect_keeps_subscriptions_have_clients.
  - by apply disconnect_keeps_subscriptions_have_clients.
  - by rewrite (handle_keeps (fun s => s) hw (check_connection a) w
                  (dispatch_keeps_worker hw (check_connection a) eq_refl)).
  - by rewrite (handle_keeps (fun s => s) hw (read a u) w
                  (dispatch_keeps_worker hw (read a u) eq_refl)).
  - by rewrite (handle_keeps (fun s => s) hw (write a u v r) w
                  (dispatch_keeps_worker hw (write a u v r) eq_refl)).
  - apply notify_keeps_subscriptions_have_clients; eauto.
  - apply notify_keeps_subscriptions_have_clients; eauto.
Qed.

(** X13.  Subscriptions belong to clients: if every address with a
    subscription dict has a client entry, this stays so after any
    interleaving of commands put and turns of the loop, whatever the BLE
    stack does; it holds for the worker as constructed, hence
    throughout its life. *)
Theorem subscriptions_always_have_clients (schedule : list action) (w : world) :
  subscriptions_have_clients (self w) →
  subscriptions_have_clients (self (run schedule w)).
Proof.
  revert w. induction schedule as [| a schedule IH]; intros w H; [exact H |].
  cbn [run fold_left]. apply IH. destruct a as [cmd | hw]; cbn [act].
  - exact H.
  - unfold run_ble_loop_turn.
    destruct (command_queue (self w)) as [| cmd rest]; [exact H |].
    by apply handle_keeps_subscriptions_have_clients.
Qed.

Lemma subscriptions_always_have_clients_witness :
  subscriptions_have_clients
    (self (run [Put (connect "AA:BB" None); Turn obliging;
                Put (start_notify "AA:BB" "2a37"); Turn obliging;
                Put (disconnect "AA:BB"); Turn disconnect_fails] fresh)).
Proof.
  apply (subscriptions_always_have_clients _ fresh).
  intros a. cbn. rewrite lookup_empty. by intros [? [=]].
Defined.

(** * Further properties of the scanner window *)

Lemma ingest_cons o observations (w : window) :
  ingest (o :: observations) w
  = ingest observations
      (process_advertisement (fst (fst o)) (snd (fst o)) (snd o) w).
Proof. reflexivity. Qed.

Lemma ingest_app l1 l2 (w : window) :
  ingest (l1 ++ l2) w = ingest l2 (ingest l1 w).
Proof. unfold ingest. by rewrite fold_left_app. Qed.

Lemma process_advertisement_not_scanning device adv t (w : window) :
  scanning w = false → process_advertisement device adv t w = w.
Proof. intros H. unfold process_advertisement. by rewrite H. Qed.

(** X15.  Once a scan is stopped the window ignores advertisements: the
    worker goes on forwarding them until its own sleep ends, and none of
    them changes the device list, the stored advertisements, the
    timestamps, the periods or the table. *)
Theorem advertisements_after_stop_are_ignored observations (w : window) :
  ingest observations (stop_scan w) = stop_scan w.
Proof.
  induction observations as [| o observations IH]; [done |].
  rewrite ingest_cons, process_advertisement_not_scanning; done.
Qed.

Lemma apply_filters_all_devices (w : window) :
  all_devices (apply_filters w) = all_devices w
  ∧ device_advertisements (apply_filters w) = device_advertisements w.
Proof.
  unfold apply_filters. destruct (all_devices w) eqn:E; [| by rewrite E]. done.
Qed.

Lemma existsb_address (device : BLEDevice) (devices : list BLEDevice) :
  existsb (fun existing => String.eqb (address existing) (address device)) devices
  = true
  ↔ address device ∈ map address devices.
Proof.
  rewrite existsb_exists, list_elem_of_fmap. split.
  - intros (x & Hx & Heq). apply String.eqb_eq in Heq.
    exists x. split; [done | by apply list_elem_of_In].
  - intros (x & Heq & Hx). exists x.
    split; [by apply list_elem_of_In | by apply String.eqb_eq].
Qed.

(** What one advertisement does to the device list and to the stored
    advertisements. *)
Lemma process_advertisement_devices device adv t (w : window) :
  scanning w = true →
  all_devices (process_advertisement device adv t w)
    = Some (if existsb (fun existing =>
                          String.eqb (address existing) (address device))
                 (known w)
            then known w else known w ++ [device])
  ∧ device_advertisements (process_advertisement device adv t w)
    = <[address device := adv]> (device_advertisements w).
Proof.
  intros Hscan. unfold process_advertisement, known.
  rewrite Hscan. cbn [negb]. cbv zeta.
  destruct (apply_filters_all_devices
              (set_all_devices (Some (default [] (all_devices w) ++ [device]))
                 (set_all_devices (Some (default [] (all_devices w))) w)))
    as (Ha & Hd).
  match goal with
  | |- context [apply_filters (update_device_in_list ?a ?x)] =>
      destruct (apply_filters_all_devices (update_device_in_list a x))
        as (-> & ->)
  end.
  destruct (existsb _ (default [] (all_devices w)));
    cbn -[Nat.leb python_min periods];
    rewrite ?Ha, ?Hd; cbn -[Nat.leb python_min periods];
    destruct (2 <=? _)%nat; try done;
    destruct (python_min _); done.
Qed.

Lemma known_after_advertisement device adv t (w : window) :
  scanning w = true →
  known (process_advertisement device adv t w)
  = if existsb (fun existing => String.eqb (address existing) (address device))
         (known w)
    then known w else known w ++ [device].
Proof.
  intros Hscan. unfold known at 1.
  by rewrite (proj1 (process_advertisement_devices device adv t w Hscan)).
Qed.

Lemma known_process_advertisement device adv t (w : window) :
  NoDup (map address (known w)) →
  NoDup (map address (known (process_advertisement device adv t w)))
  ∧ known w `prefix_of` known (process_advertisement device adv t w)
  ∧ (scanning w = true →
     address device ∈ map address (known (process_advertisement device adv t w))).
Proof.
  intros Hnd. destruct (scanning w) eqn:Hscan.
  - rewrite (known_after_advertisement device adv t w Hscan).
    destruct (existsb _ (known w)) eqn:Hex.
    + split; [done |]. split; [done |]. intros _. by apply existsb_address.
    + split.
      * rewrite map_app. apply NoDup_app. split; [done |]. split.
        -- intros x Hx [-> | []%elem_of_nil]%elem_of_cons.
           apply existsb_address in Hx. congruence.
        -- cbn. apply NoDup_singleton.
      * split; [by apply prefix_app_r |]. intros _.
        rewrite map_app. apply elem_of_app. right. cbn. by left.
  - rewrite process_advertisement_not_scanning by done.
    split; [done |]. split; [done |]. intros [=].
Qed.

(** X16.  The device list never holds two devices with the same
    address, keeps the devices it has in their order and adds a device
    at its first sighting, after those already known: if the addresses
    are distinct before a run of advertisements they are distinct after
    it, the old list is a prefix of the new one, and during a scan every
    observed address is on the list afterwards. *)
Theorem known_devices_stay_distinct observations (w : window) :
  NoDup (map address (known w)) →
  NoDup (map address (known (ingest observations w)))
  ∧ known w `prefix_of` known (ingest observations w)
  ∧ (scanning w = true →
     ∀ o, o ∈ observations →
          address (fst (fst o)) ∈ map address (known (ingest observations w))).
Proof.
  revert w. induction observations as [| o observations IH]; intros w Hnd.
  - split; [done |]. split; [done |]. intros _ o Ho. by apply elem_of_nil in Ho.
  - rewrite ingest_cons.
    destruct (known_process_advertisement (fst (fst o)) (snd (fst o)) (snd o) w Hnd)
      as (Hnd1 & Hpre1 & Hin1).
    destruct (IH _ Hnd1) as (Hnd2 & Hpre2 & Hin2).
    split; [done |]. split; [by etrans |].
    intros Hscan x [-> | Hx]%elem_of_cons.
    + destruct Hpre2 as [k ->]. rewrite map_app. apply elem_of_app. left. auto.
    + apply Hin2; [| done].
      by apply (process_advertisement_history (fst (fst o)) (snd (fst o)) (snd o) w).
Qed.

Lemma known_devices_stay_distinct_witness :
  NoDup (map address (known (ingest three_sightings (start_scan blank)))).
Proof.
  apply (known_devices_stay_distinct three_sightings (start_scan blank)).
  apply NoDup_nil_2.
Defined.

(** X17.  During a scan the window keeps, for every address, the data of
    the last advertisement seen for it: later advertisements overwrite
    earlier ones, and an address not seen keeps what was stored. *)
Theorem last_advertisement_is_stored observations (w : window) (addr : string) :
  scanning w = true →
  device_advertisements (ingest observations w) !! addr
  = match last_advertisement addr observations with
    | Some adv => Some adv
    | None => device_advertisements w !! addr
    end.
Proof.
  revert w. induction observations as [| o observations IH]; intros w Hscan.
  - done.
  - rewrite ingest_cons.
    destruct (process_advertisement_history
                (fst (fst o)) (snd (fst o)) (snd o) w Hscan) as (Hscan1 & _).
    rewrite (IH _ Hscan1).
    rewrite (proj2 (process_advertisement_devices
                      (fst (fst o)) (snd (fst o)) (snd o) w Hscan)).
    unfold last_advertisement. cbn [List.filter].
    destruct (String.eqb_spec (address (fst (fst o))) addr) as [-> | Hne].
    + cbn [map]. rewrite last_cons, lookup_insert_eq.
      by destruct (last _).
    + rewrite lookup_insert_ne by done. done.
Qed.

Lemma last_advertisement_is_stored_witness :
  device_advertisements (ingest three_sightings (start_scan blank)) !! "CC:DD"
  = Some weak.
Proof.
  exact (last_advertisement_is_stored three_sightings (start_scan blank) "CC:DD"
           eq_refl).
Defined.

(** *** Timestamps and periods, exactly *)

Lemma times_of_app addr l1 l2 :
  times_of addr (l1 ++ l2) = times_of addr l1 ++ times_of addr l2.
Proof. unfold times_of. by rewrite List.filter_app, map_app. Qed.

Lemma records_start_scan (w : window) (addr : string) :
  records (start_scan w) addr [].
Proof. split; [done |]. split; done. Qed.

Lemma snoc_not_nil {A} (l : list A) (x : A) :
  match l ++ [x] with [] => None | _ => Some (l ++ [x]) end = Some (l ++ [x]).
Proof. by destruct l. Qed.

Lemma records_process_advertisement device adv t (w : window) addr ts :
  records w addr ts →
  records (process_advertisement device adv t w) addr
    (if String.eqb (address device) addr then ts ++ [t] else ts).
Proof.
  intros (Hscan & Hts & Hper).
  destruct (process_advertisement_history device adv t w Hscan)
    as (Hscan' & Hts' & Hper').
  split; [done |].
  destruct (String.eqb_spec (address device) addr) as [<- | Hne].
  - assert (Hold : default [] (adv_timestamps w !! address device) = ts).
    { rewrite Hts. by destruct ts. }
    rewrite Hold in Hts', Hper'. rewrite Hts', Hper', lookup_insert_eq.
    split; [by rewrite snoc_not_nil |].
    destruct (2 <=? length (ts ++ [t]))%nat eqn:Hlen.
    + apply Nat.leb_le in Hlen.
      destruct (python_min_periods _ Hlen) as (m & Hm & _).
      rewrite Hm. by rewrite lookup_insert_eq.
    + rewrite Hper. destruct (2 <=? length ts)%nat eqn:Hlen'; [| done].
      apply Nat.leb_le in Hlen'. apply Nat.leb_gt in Hlen.
      rewrite length_app in Hlen. cbn in Hlen. lia.
  - rewrite Hts', lookup_insert_ne by done. split; [done |].
    rewrite <- Hper, Hper'.
    destruct (2 <=? length (_ ++ [t]))%nat; [| done].
    destruct (python_min (periods (_ ++ [t]))); [| done].
    by rewrite lookup_insert_ne.
Qed.

Lemma records_ingest observations (w : window) addr ts :
  records w addr ts →
  records (ingest observations w) addr (ts ++ times_of addr observations).
Proof.
  revert w ts. induction observations as [| o observations IH]; intros w ts H.
  - cbn. by rewrite app_nil_r.
  - apply (records_process_advertisement (fst (fst o)) (snd (fst o)) (snd o)) in H.
    apply IH in H. rewrite ingest_cons.
    unfold times_of. cbn [List.filter].
    destruct (String.eqb (address (fst (fst o))) addr); [| exact H].
    cbn [map]. by rewrite <- app_assoc in H.
Qed.

(** X18.  The timestamps stored for an address since the scan started
    are exactly the arrival times of its advertisements, in arrival
    order; an address not seen in this scan has no entry, whatever
    earlier scans stored. *)
Theorem timestamps_are_arrival_times observations (w : window) (addr : string) :
  adv_timestamps (ingest observations (start_scan w)) !! addr
  = match times_of addr observations with
    | [] => None
    | ts => Some ts
    end.
Proof.
  destruct (records_ingest observations _ addr [] (records_start_scan w addr))
    as (_ & Hts & _).
  cbn [app] in Hts. rewrite Hts. by destruct (times_of addr observations).
Qed.

(** X19.  A device seen fewer than twice since the scan started has no
    stored period (the table shows "N/A" for it), whatever period an
    earlier scan had stored. *)
Theorem single_sighting_has_no_period observations (w : window) (addr : string) :
  (length (times_of addr observations) < 2)%nat →
  adv_periods (ingest observations (start_scan w)) !! addr = None.
Proof.
  intros Hlen.
  destruct (records_ingest observations _ addr [] (records_start_scan w addr))
    as (_ & _ & Hper).
  cbn [app] in Hper. rewrite Hper.
  apply Nat.leb_gt in Hlen. by rewrite Hlen.
Qed.

Lemma single_sighting_has_no_period_witness :
  adv_periods (ingest three_sightings (start_scan blank)) !! "CC:DD" = None.
Proof.
  apply (single_sighting_has_no_period three_sightings blank "CC:DD").
  cbn. lia.
Defined.

(** X20.  During a scan the stored period of an address, once there is
    one, stays defined and never increases: each further advertisement,
    of this or of another address, leaves it or lowers it. *)
Theorem stored_period_never_increases observations o (w : window)
    (addr : string) (m : Z) :
  adv_periods (ingest observations (start_scan w)) !! addr = Some m →
  ∃ m', adv_periods (ingest (observations ++ [o]) (start_scan w)) !! addr = Some m'
        ∧ (m' ≤ m)%Z.
Proof.
  intros Hm.
  destruct (records_ingest observations _ addr [] (records_start_scan w addr))
    as (_ & _ & Hper).
  destruct (records_ingest (observations ++ [o]) _ addr []
              (records_start_scan w addr)) as (_ & _ & Hper').
  cbn [app] in Hper, Hper'. rewrite times_of_app in Hper'.
  rewrite Hper in Hm.
  destruct (2 <=? length (times_of addr observations))%nat eqn:Hlen;
    [| discriminate].
  apply Nat.leb_le in Hlen.
  assert (Hlen' : (2 ≤ length (times_of addr observations ++ times_of addr [o]))%nat).
  { rewrite length_app. lia. }
  destruct (python_min_periods _ Hlen') as (m' & Hm' & _ & Hleast).
  exists m'. split.
  - rewrite Hper'. apply Nat.leb_le in Hlen'. by rewrite Hlen'.
  - apply python_min_spec in Hm as [Hin _].
    apply periods_spec in Hin as (i & a & b & Ha & Hb & ->).
    apply (Hleast i a b); by apply lookup_app_l_Some.
Qed.

Lemma stored_period_never_increases_witness :
  ∃ m', adv_periods
          (ingest (three_sightings ++ [(sensor, strong, 300%Z)]) (start_scan blank))
          !! "AA:BB" = Some m'
        ∧ (m' ≤ 100)%Z.
Proof.
  exact (stored_period_never_increases
           three_sightings (sensor, strong, 300%Z) blank "AA:BB" 100%Z eq_refl).
Defined.

(** *** The table *)

Lemma apply_filters_table (w : window) (devices : list BLEDevice) :
  all_devices w = Some devices →
  apply_filters w = set_device_list (table_of w) w.
Proof.
  intros H. unfold apply_filters, table_of, known. rewrite H. cbn [default].
  f_equal. by rewrite apply_filters_rows.
Qed.

(** X21.  After every advertisement processed during a scan the table is
    up to date: it holds one row for each known device that passes the
    current filters, in the order of the device list, and each row
    shows the RSSI of the device's last advertisement and its stored
    period as they are after this advertisement. *)
Theorem table_is_current_after_advertisement device adv t (w : window) :
  scanning w = true →
  device_list (process_advertisement device adv t w)
  = table_of (process_advertisement device adv t w).
Proof.
  intros Hscan.
  pose proof (proj1 (process_advertisement_devices device adv t w Hscan)) as Hall.
  revert Hall. unfold process_advertisement. rewrite Hscan. cbn [negb]. cbv zeta.
  match goal with
  | |- context [apply_filters (update_device_in_list ?a ?x)] =>
      generalize (update_device_in_list a x)
  end.
  intros x Hall.
  rewrite (proj1 (apply_filters_all_devices x)) in Hall.
  by rewrite (apply_filters_table x _ Hall).
Qed.

Lemma table_is_current_after_advertisement_witness :
  device_list (process_advertisement sensor strong 0 (start_scan blank))
  = table_of (process_advertisement sensor strong 0 (start_scan blank)).
Proof.
  exact (table_is_current_after_advertisement sensor strong 0 (start_scan blank)
           eq_refl).
Defined.

(** X22.  With the MAC box empty, no RSSI filter and an advertisement
    box that is empty or holds only blanks, the table shows every known
    device, in the order of the device list, whether or not an
    advertisement or an RSSI is stored for it. *)
Theorem empty_filters_show_every_device (w : window) (devices : list BLEDevice) :
  all_devices w = Some devices →
  mac_filter w = EmptyString →
  rssi_filter w = None →
  Text.remove_spaces (Text.strip (adv_filter w)) = EmptyString →
  shown (apply_filters w) = devices.
Proof.
  intros Hall Hmac Hrssi Hadv.
  rewrite (apply_filters_shown w devices Hall).
  assert (Hpass : ∀ d, passes w d = true).
  { intros d. unfold passes. cbv zeta.
    rewrite remove_spaces_lower, Hadv, Hmac, Hrssi. reflexivity. }
  clear Hall. induction devices as [| d devices IH]; [done |].
  cbn [List.filter]. by rewrite Hpass, IH.
Qed.

Lemma empty_filters_show_every_device_witness :
  shown (apply_filters
           (process_advertisement beacon weak 5
              (process_advertisement sensor strong 0 (start_scan blank))))
  = [sensor; beacon].
Proof.
  exact (empty_filters_show_every_device
           (process_advertisement beacon weak 5
              (process_advertisement sensor strong 0 (start_scan blank)))
           [sensor; beacon] eq_refl eq_refl eq_refl eq_refl).
Defined.

(** * Properties of the device tabs *)

Lemma dict_mem_keys {V} (k : string) (d : list (string * V)) :
  dict_mem k d = true ↔ k ∈ dict_keys d.
Proof.
  unfold dict_mem. rewrite existsb_exists. split.
  - intros (x & Hx & Heq). apply String.eqb_eq in Heq as ->.
    by apply list_elem_of_In.
  - intros H. exists k. split; [by apply list_elem_of_In | apply String.eqb_refl].
Qed.

Lemma dict_set_fresh {V} (k : string) (v : V) (d : list (string * V)) :
  dict_mem k d = false → dict_set k v d = d ++ [(k, v)].
Proof.
  unfold dict_mem, dict_keys. induction d as [| [k' v'] d IH]; cbn; [done |].
  rewrite orb_false_iff. intros [Hk Hd].
  rewrite String.eqb_sym in Hk. rewrite Hk. by rewrite IH.
Qed.

Lemma dict_get_elem {V} (k : string) (v : V) (d : list (string * V)) :
  Tabs.dict_get k d = Some v → (k, v) ∈ d.
Proof.
  induction d as [| [k' v'] d IH]; cbn; [done |].
  destruct (String.eqb_spec k' k) as [-> | Hne].
  - intros [= ->]. by left.
  - intros H. right. auto.
Qed.

Lemma dict_get_none {V} (k : string) (d : list (string * V)) :
  Tabs.dict_get k d = None ↔ k ∉ dict_keys d.
Proof.
  unfold dict_keys. induction d as [| [k' v'] d IH]; cbn.
  - split; [intros _ H; by apply elem_of_nil in H | done].
  - destruct (String.eqb_spec k' k) as [-> | Hne].
    + split; [done |]. intros H. destruct H. by left.
    + rewrite IH, not_elem_of_cons. split; [intros H; split; congruence |].
      by intros [_ H].
Qed.

Lemma keys_unique {V} (d : list (string * V)) k v1 v2 :
  NoDup (dict_keys d) → (k, v1) ∈ d → (k, v2) ∈ d → v1 = v2.
Proof.
  unfold dict_keys. induction d as [| [k' v'] d IH]; cbn.
  - intros _ H. by apply elem_of_nil in H.
  - intros [Hk Hd]%NoDup_cons H1 H2.
    apply elem_of_cons in H1 as [E1 | H1]; apply elem_of_cons in H2 as [E2 | H2].
    + congruence.
    + injection E1 as <- <-. destruct Hk.
      apply list_elem_of_fmap. by exists (k, v2).
    + injection E2 as <- <-. destruct Hk.
      apply list_elem_of_fmap. by exists (k, v1).
    + auto.
Qed.

Lemma dict_get_of_elem {V} (k : string) (v : V) (d : list (string * V)) :
  NoDup (dict_keys d) → (k, v) ∈ d → Tabs.dict_get k d = Some v.
Proof.
  intros Hnd Hin. destruct (Tabs.dict_get k d) as [v' |] eqn:Hget.
  - apply dict_get_elem in Hget. f_equal. by eapply keys_unique.
  - apply dict_get_none in Hget. destruct Hget.
    apply list_elem_of_fmap. by exists (k, v).
Qed.

Lemma elem_of_dict_del {V} (k : string) (d : list (string * V)) k' v :
  NoDup (dict_keys d) →
  (k', v) ∈ dict_del k d ↔ (k', v) ∈ d ∧ k' ≠ k.
Proof.
  unfold dict_keys. induction d as [| [k0 v0] d IH]; cbn.
  - intros _. split; [intros H; by apply elem_of_nil in H | by intros [H _]].
  - intros [Hk Hd]%NoDup_cons.
    destruct (String.eqb_spec k0 k) as [-> | Hne].
    + split.
      * intros H. split; [by right |]. intros ->. destruct Hk.
        apply list_elem_of_fmap. by exists (k, v).
      * intros [H Hne]. apply elem_of_cons in H as [E | H]; [| done].
        injection E as -> ->. done.
    + rewrite !elem_of_cons, IH by done. split.
      * intros [E | [H Hne']]; [| split; [by right | done]].
        injection E as -> ->. split; [by left | done].
      * intros [[E | H] Hne']; [by left | by right].
Qed.

Lemma dict_del_keys_NoDup {V} (k : string) (d : list (string * V)) :
  NoDup (dict_keys d) → NoDup (dict_keys (dict_del k d)).
Proof.
  unfold dict_keys. induction d as [| [k0 v0] d IH]; cbn; [done |].
  intros [Hk Hd]%NoDup_cons.
  destruct (String.eqb k0 k); [done |]. cbn. apply NoDup_cons. split; [| auto].
  intros Hin. apply Hk. apply list_elem_of_fmap in Hin as ([k1 v1] & -> & Hin).
  apply list_elem_of_fmap. exists (k1, v1). split; [done |].
  clear -Hin. induction d as [| [k2 v2] d IH]; cbn in *; [done |].
  destruct (String.eqb k2 k); [by right |].
  apply elem_of_cons in Hin as [-> | Hin]; [by left | right; auto].
Qed.

Lemma address_of_index_elem index (m : list (string * nat)) a :
  Tabs.address_of_index index m = Some a → (a, index) ∈ m.
Proof.
  induction m as [| [a' i'] m IH]; cbn; [done |].
  destruct (Nat.eqb_spec i' index) as [-> | Hne].
  - intros [= ->]. by left.
  - intros H. right. auto.
Qed.

Lemma address_of_index_none index (m : list (string * nat)) :
  Tabs.address_of_index index m = None → ∀ a, (a, index) ∉ m.
Proof.
  induction m as [| [a' i'] m IH]; cbn.
  - intros _ a H. by apply elem_of_nil in H.
  - destruct (Nat.eqb_spec i' index) as [-> | Hne]; [done |].
    intros H a [[= -> ->] | Hin]%elem_of_cons; [done |]. by apply (IH H a).
Qed.

(** A page that exists is found through the map, under the agreement. *)
Lemma tabs_agree_lookup (s : Tabs.session) a i :
  tabs_agree s →
  Tabs.dict_get a (Tabs.device_tabs_map s) = Some i →
  ∃ t, Tabs.device_tabs s !! i = Some t ∧ DeviceTab.tab_address t = a.
Proof.
  intros [_ Hagree] Hget. apply dict_get_elem, Hagree in Hget.
  destruct (Tabs.device_tabs s !! i) as [t |]; [| done].
  exists t. split; [done |]. by injection Hget.
Qed.

(** Rewriting a page in place keeps the agreement when the page keeps
    its address. *)
Lemma tabs_agree_insert (s : Tabs.session) i t t' :
  tabs_agree s →
  Tabs.device_tabs s !! i = Some t →
  DeviceTab.tab_address t' = DeviceTab.tab_address t →
  tabs_agree (Tabs.set_device_tabs (<[i := t']> (Tabs.device_tabs s)) s).
Proof.
  intros [Hnd Hagree] Ht Haddr. split; [done |]. intros a j. cbn.
  rewrite Hagree. destruct (decide (i = j)) as [-> | Hne].
  - rewrite list_lookup_insert_eq by (by eapply lookup_lt_Some).
    rewrite Ht. cbn. by rewrite Haddr.
  - by rewrite list_lookup_insert_ne.
Qed.

Lemma tabs_agree_in_tab (s : Tabs.session) i f :
  (∀ t, DeviceTab.tab_address (f t) = DeviceTab.tab_address t) →
  tabs_agree s → tabs_agree (Tabs.in_tab i f s).
Proof.
  intros Hf H. unfold Tabs.in_tab.
  destruct (Tabs.device_tabs s !! i) as [t |] eqn:Ht; [| done].
  by eapply tabs_agree_insert.
Qed.

Lemma tabs_agree_connect_to_device (s : Tabs.session) :
  tabs_agree s → tabs_agree (Tabs.connect_to_device s).
Proof.
  intros [Hnd Hagree]. unfold Tabs.connect_to_device.
  destruct (Tabs.current_device s) as [d |]; [| done].
  destruct (dict_mem (address d) (Tabs.device_tabs_map s)) eqn:Hmem.
  { by destruct (negb _). }
  cbn. rewrite (dict_set_fresh _ _ _ Hmem).
  assert (Hfresh : address d ∉ dict_keys (Tabs.device_tabs_map s)).
  { intros H. apply dict_mem_keys in H. congruence. }
  split.
  - cbn. unfold dict_keys. rewrite map_app. apply NoDup_app. split; [done |].
    split; [| apply NoDup_singleton].
    intros x Hx [-> | []%elem_of_nil]%elem_of_cons. done.
  - intros a i. cbn. rewrite elem_of_app, Hagree, list_elem_of_singleton.
    destruct (decide (i = length (Tabs.device_tabs s))) as [-> | Hne].
    + rewrite lookup_app_r, Nat.sub_diag by done. cbn.
      rewrite (lookup_ge_None_2 (Tabs.device_tabs s)) by done. cbn.
      split.
      * intros [H | H]; [done |]. by injection H as ->.
      * intros [= <-]. by right.
    + destruct (decide (i < length (Tabs.device_tabs s))%nat) as [Hlt | Hge].
      * rewrite lookup_app_l by done. split; [| by left].
        intros [H | H]; [done |]. injection H as _ ->. lia.
      * rewrite lookup_app_r, (lookup_ge_None_2 (Tabs.device_tabs s)) by lia.
        destruct (i - length (Tabs.device_tabs s))%nat as [| n] eqn:Hsub; [lia |].
        cbn. split; [| done].
        intros [H | H]; [done |]. injection H as _ ->. lia.
Qed.

Lemma tabs_agree_close_device_tab (index : nat) (s : Tabs.session) :
  tabs_agree s → tabs_agree (Tabs.close_device_tab index s).
Proof.
  intros [Hnd Hagree]. unfold Tabs.close_device_tab.
  destruct (Tabs.address_of_index index (Tabs.device_tabs_map s)) as [a |] eqn:Ha;
    [| done].
  destruct (Tabs.truthy a); [| done].
  apply address_of_index_elem in Ha.
  set (s1 := if dict_mem a (Tabs.connected_devices s) then _ else s).
  assert (Hmap : Tabs.device_tabs_map s1 = Tabs.device_tabs_map s)
    by (subst s1; by destruct (dict_mem _ _)).
  assert (Htabs : Tabs.device_tabs s1 = Tabs.device_tabs s)
    by (subst s1; by destruct (dict_mem _ _)).
  cbv zeta. split; cbn -[Nat.ltb]; rewrite ?Hmap, ?Htabs.
  - unfold dict_keys. rewrite map_map. cbn.
    by apply (dict_del_keys_NoDup a (Tabs.device_tabs_map s)).
  - intros b j. rewrite list_elem_of_fmap. split.
    + intros ([b0 j0] & [= -> ->] & Hin). cbn [fst snd].
      apply elem_of_dict_del in Hin as [Hin Hne]; [| done].
      assert (j0 ≠ index).
      { intros ->. apply Hne. apply Hagree in Hin, Ha. congruence. }
      apply Hagree in Hin.
      destruct (Nat.ltb_spec index j0).
      * rewrite list_lookup_delete_ge by lia.
        by replace (S (j0 - 1)) with j0 by lia.
      * by rewrite list_lookup_delete_lt by lia.
    + intros Hb. destruct (decide (j < index)%nat) as [Hlt | Hge].
      * rewrite list_lookup_delete_lt in Hb by done. apply Hagree in Hb.
        exists (b, j). cbn [fst snd]. split.
        -- destruct (Nat.ltb_spec index j); [lia | done].
        -- apply elem_of_dict_del; [done |]. split; [done |].
           intros ->. pose proof (keys_unique _ _ _ _ Hnd Hb Ha). lia.
      * rewrite list_lookup_delete_ge in Hb by lia. apply Hagree in Hb.
        exists (b, S j). cbn [fst snd]. split.
        -- destruct (Nat.ltb_spec index (S j)); [| lia].
           by replace (S j - 1)%nat with j by lia.
        -- apply elem_of_dict_del; [done |]. split; [done |].
           intros ->. pose proof (keys_unique _ _ _ _ Hnd Hb Ha). lia.
Qed.

Lemma tabs_agree_ext (s s' : Tabs.session) :
  Tabs.device_tabs_map s' = Tabs.device_tabs_map s →
  Tabs.device_tabs s' = Tabs.device_tabs s →
  tabs_agree s → tabs_agree s'.
Proof. unfold tabs_agree. by intros -> ->. Qed.

(** Scheduling a check touches the worker's queue and the count of
    pending single shots, nothing else. *)
Lemma check_connection_status_frame addr (s : Tabs.session) :
  Tabs.device_tabs_map (Tabs.check_connection_status addr s) = Tabs.device_tabs_map s
  ∧ Tabs.device_tabs (Tabs.check_connection_status addr s) = Tabs.device_tabs s
  ∧ Tabs.connected_devices (Tabs.check_connection_status addr s)
    = Tabs.connected_devices s
  ∧ Tabs.single_shots (Tabs.check_connection_status addr s)
    = S (Tabs.single_shots s).
Proof.
  unfold Tabs.check_connection_status.
  destruct addr as [a |]; [| done].
  destruct (Tabs.truthy a); [| done].
  by destruct (dict_mem a (Tabs.connected_devices s)).
Qed.

Lemma update_connection_status_agrees is_on addr client (s : Tabs.session) :
  tabs_agree s →
  ∃ s', Tabs.update_connection_status is_on addr client s = Tabs.returns s'
        ∧ tabs_agree s'.
Proof.
  intros H. unfold Tabs.update_connection_status.
  destruct (Tabs.dict_get addr (Tabs.device_tabs_map s)) as [i |] eqn:Hget;
    [| by exists s].
  destruct (tabs_agree_lookup s addr i H Hget) as (t & Ht & Haddr).
  destruct is_on; cbn [Tabs.device_tabs Tabs.set_connected_devices]; rewrite Ht;
    eexists; (split; [reflexivity |]).
  - eapply tabs_agree_ext;
      [apply check_connection_status_frame | apply check_connection_status_frame |].
    by apply (tabs_agree_insert (Tabs.set_connected_devices _ s) i t).
  - by apply (tabs_agree_insert (Tabs.set_connected_devices _ s) i t).
Qed.

Lemma handle_connection_check_agrees addr is_on (s : Tabs.session) :
  tabs_agree s →
  ∃ s', Tabs.handle_connection_check addr is_on s = Tabs.returns s'
        ∧ tabs_agree s'.
Proof.
  intros H. unfold Tabs.handle_connection_check.
  destruct (Tabs.dict_get addr (Tabs.device_tabs_map s)) as [i |] eqn:Hget;
    [| by exists s].
  destruct is_on; [by exists s |].
  destruct (tabs_agree_lookup s addr i H Hget) as (t & Ht & Haddr). rewrite Ht.
  destruct (DeviceTab.connected t); [| by exists s].
  eexists. split; [reflexivity |].
  by apply (tabs_agree_insert (Tabs.set_connected_devices _ s) i t).
Qed.

Lemma toggle_notifications_agrees addr (s : Tabs.session) :
  tabs_agree s →
  ∃ s', Tabs.toggle_notifications addr s = Tabs.returns s' ∧ tabs_agree s'.
Proof.
  intros H. unfold Tabs.toggle_notifications.
  destruct (Tabs.dict_get addr (Tabs.device_tabs_map s)) as [i |] eqn:Hget;
    [| by exists s].
  destruct (tabs_agree_lookup s addr i H Hget) as (t & Ht & Haddr). rewrite Ht.
  destruct (DeviceTab.current_characteristic t) as [ch |]; [| by exists s].
  destruct (dict_mem _ _); eexists; (split; [reflexivity |]);
    by apply (tabs_agree_insert (Tabs.set_ble_worker _ s) i t).
Qed.

Lemma write_characteristic_agrees addr (s : Tabs.session) :
  tabs_agree s →
  ∃ s', Tabs.write_characteristic addr s = Tabs.returns s' ∧ tabs_agree s'.
Proof.
  intros H. unfold Tabs.write_characteristic.
  destruct (Tabs.dict_get addr (Tabs.device_tabs_map s)) as [i |] eqn:Hget;
    [| by exists s].
  destruct (tabs_agree_lookup s addr i H Hget) as (t & Ht & Haddr). rewrite Ht.
  destruct (DeviceTab.current_characteristic t) as [ch |]; [| by exists s].
  destruct (String.eqb _ _); [by exists s |].
  destruct (HexText.parse _); [| by exists s].
  eexists. split; [reflexivity | done].
Qed.

Lemma handle_event_agrees e (s : Tabs.session) :
  tabs_agree s →
  ∃ s', Tabs.handle_event e s = Tabs.returns s' ∧ tabs_agree s'.
Proof.
  intros H. destruct e as [d | | index | index ch | index text | a | a | | sig];
    cbn [Tabs.handle_event].
  - eexists. split; [reflexivity | done].
  - eexists. split; [reflexivity | by apply tabs_agree_connect_to_device].
  - eexists. split; [reflexivity | by apply tabs_agree_close_device_tab].
  - eexists. split; [reflexivity |]. apply tabs_agree_in_tab; [| done].
    intros t. by destruct ch.
  - eexists. split; [reflexivity |]. by apply tabs_agree_in_tab.
  - by apply write_characteristic_agrees.
  - by apply toggle_notifications_agrees.
  - eexists. split; [reflexivity |]. unfold Tabs.single_shot_fires.
    destruct (Tabs.single_shots s) as [| n]; [done |].
    eapply tabs_agree_ext;
      [apply check_connection_status_frame | apply check_connection_status_frame |].
    done.
  - destruct sig; cbn [Tabs.deliver]; try by exists s.
    + by apply update_connection_status_agrees.
    + by apply handle_connection_check_agrees.
Qed.

(** X23.  The tab index stored for an address always points at the tab
    of that address, and no slot ever finds a missing tab: if the map
    and the pages agree (as they do in a new window), they agree after
    any run of user actions, timer shots and worker signals, closing any
    tab included, and no event of the run raises. *)
Theorem tabs_always_agree (events : list Tabs.event) (s : Tabs.session) :
  tabs_agree s →
  tabs_agree (Tabs.handle_events events s) ∧ never_raises events s.
Proof.
  revert s. induction events as [| e events IH]; intros s H; [done |].
  destruct (handle_event_agrees e s H) as (s' & Hs' & H').
  cbn [Tabs.handle_events fold_left never_raises]. rewrite Hs'. cbn [Tabs.state].
  destruct (IH s' H') as [IH1 IH2]. split; [exact IH1 |]. split; [eauto | done].
Qed.

Lemma tabs_always_agree_witness :
  tabs_agree
    (Tabs.handle_events
       [Tabs.select_device sensor; Tabs.press_connect;
        Tabs.select_device beacon; Tabs.press_connect;
        Tabs.close_tab 0;
        Tabs.signal_arrives (connection_updated true "CC:DD" (Some client0))]
       no_tabs).
Proof.
  apply (tabs_always_agree _ no_tabs). split.
  - apply NoDup_nil_2.
  - intros a i. cbn. split; [intros H; by apply elem_of_nil in H | done].
Defined.

Lemma dict_get_shift {V W} (f : V → W) (k : string) (d : list (string * V)) :
  Tabs.dict_get k (map (fun entry => (fst entry, f (snd entry))) d)
  = f <$> Tabs.dict_get k d.
Proof.
  induction d as [| [k' v'] d IH]; cbn; [done |].
  by destruct (String.eqb k' k).
Qed.

Lemma dict_get_del_ne {V} (a b : string) (d : list (string * V)) :
  b ≠ a → Tabs.dict_get b (dict_del a d) = Tabs.dict_get b d.
Proof.
  intros Hne. induction d as [| [k' v'] d IH]; cbn; [done |].
  destruct (String.eqb_spec k' a) as [-> | Ha].
  - destruct (String.eqb_spec a b) as [-> | _]; done.
  - cbn. by rewrite IH.
Qed.

Lemma dict_get_del_none {V} (a b : string) (d : list (string * V)) :
  Tabs.dict_get b d = None → Tabs.dict_get b (dict_del a d) = None.
Proof.
  induction d as [| [k' v'] d IH]; cbn; [done |].
  destruct (String.eqb_spec k' b) as [-> | Hb]; [done |]. intros H.
  destruct (String.eqb k' a); [done |]. cbn.
  destruct (String.eqb_spec k' b); [done | auto].
Qed.

Lemma dict_get_del_eq {V} (a : string) (d : list (string * V)) :
  NoDup (dict_keys d) → Tabs.dict_get a (dict_del a d) = None.
Proof.
  intros Hnd. apply dict_get_none. intros Hin.
  apply list_elem_of_fmap in Hin as ([k v] & -> & Hin).
  by apply elem_of_dict_del in Hin as [_ Hne].
Qed.

Lemma dict_mem_get {V} (k : string) (d : list (string * V)) :
  dict_mem k d = true ↔ is_Some (Tabs.dict_get k d).
Proof.
  rewrite dict_mem_keys. destruct (Tabs.dict_get k d) as [v |] eqn:Hget.
  - split; [by eexists | intros _].
    apply dict_get_elem in Hget. apply list_elem_of_fmap. by exists (k, v).
  - apply dict_get_none in Hget. split; [done | by intros [? ?]].
Qed.

(** Under the agreement the address the closing loop finds for an index
    is the address of the page at that index. *)
Lemma tabs_agree_address_of_index (s : Tabs.session) index t :
  tabs_agree s →
  Tabs.device_tabs s !! index = Some t →
  Tabs.address_of_index index (Tabs.device_tabs_map s)
  = Some (DeviceTab.tab_address t).
Proof.
  intros [Hnd Hagree] Ht.
  destruct (Tabs.address_of_index _ _) as [a |] eqn:Ha.
  - apply address_of_index_elem, Hagree in Ha. rewrite Ht in Ha. cbn in Ha.
    congruence.
  - destruct (address_of_index_none _ _ Ha (DeviceTab.tab_address t)).
    apply Hagree. by rewrite Ht.
Qed.

(** What closing does when the loop finds a non-empty address. *)
Lemma close_device_tab_found index a (s : Tabs.session) :
  Tabs.address_of_index index (Tabs.device_tabs_map s) = Some a →
  Tabs.truthy a = true →
  let s' := Tabs.close_device_tab index s in
  Tabs.device_tabs s' = delete index (Tabs.device_tabs s)
  ∧ Tabs.device_tabs_map s'
    = map (fun entry =>
             (fst entry,
              if (index <? snd entry)%nat then (snd entry - 1)%nat
              else snd entry))
          (dict_del a (Tabs.device_tabs_map s))
  ∧ Tabs.connected_devices s' = Tabs.connected_devices s
  ∧ Tabs.single_shots s' = Tabs.single_shots s
  ∧ Tabs.ble_worker s'
    = if dict_mem a (Tabs.connected_devices s)
      then disconnect_device a (Tabs.ble_worker s)
      else Tabs.ble_worker s.
Proof.
  intros Ha Htruthy. unfold Tabs.close_device_tab. rewrite Ha, Htruthy.
  by destruct (dict_mem a (Tabs.connected_devices s)).
Qed.

(** X24.  Closing a tab removes that page and its address from the map
    and keeps every other device's page reachable from its address: the
    indices after the closed one move down by one together with their
    pages. *)
Theorem closing_a_tab_keeps_the_others index (s : Tabs.session) t0 :
  tabs_agree s →
  Tabs.device_tabs s !! index = Some t0 →
  Tabs.truthy (DeviceTab.tab_address t0) = true →
  let s' := Tabs.close_device_tab index s in
  Tabs.device_tabs s' = delete index (Tabs.device_tabs s)
  ∧ Tabs.dict_get (DeviceTab.tab_address t0) (Tabs.device_tabs_map s') = None
  ∧ ∀ b j t, b ≠ DeviceTab.tab_address t0 →
      Tabs.dict_get b (Tabs.device_tabs_map s) = Some j →
      Tabs.device_tabs s !! j = Some t →
      ∃ j', Tabs.dict_get b (Tabs.device_tabs_map s') = Some j'
            ∧ Tabs.device_tabs s' !! j' = Some t.
Proof.
  intros Hagree Ht0 Htruthy s'.
  pose proof (tabs_agree_address_of_index s index t0 Hagree Ht0) as Ha.
  destruct (close_device_tab_found index _ s Ha Htruthy)
    as (Htabs & Hmap & _). fold s' in Htabs, Hmap.
  destruct Hagree as [Hnd Hagree].
  split; [done |]. split.
  - rewrite Hmap.
    rewrite (dict_get_shift (fun i => if (index <? i)%nat then (i - 1)%nat else i)).
    by rewrite dict_get_del_eq.
  - intros b j t Hne Hget Ht. rewrite Hmap, Htabs.
    rewrite (dict_get_shift (fun i => if (index <? i)%nat then (i - 1)%nat else i)).
    rewrite dict_get_del_ne, Hget by done.
    cbn [fmap option_fmap option_map].
    assert (j ≠ index).
    { intros ->. apply Hne. apply dict_get_elem, Hagree in Hget.
      rewrite Ht0 in Hget. cbn in Hget. congruence. }
    eexists. split; [reflexivity |].
    destruct (Nat.ltb_spec index j).
    + rewrite list_lookup_delete_ge by lia.
      by replace (S (j - 1)) with j by lia.
    + by rewrite list_lookup_delete_lt by lia.
Qed.

Lemma tabs_agree_no_tabs : tabs_agree no_tabs.
Proof.
  split; [apply NoDup_nil_2 |].
  intros a i. cbn. split; [intros H; by apply elem_of_nil in H | done].
Qed.

Lemma tabs_agree_two_tabs : tabs_agree two_tabs.
Proof.
  apply tabs_agree_connect_to_device.
  apply (tabs_agree_ext (Tabs.connect_to_device (Tabs.device_selected sensor no_tabs)));
    [done | done |].
  apply tabs_agree_connect_to_device. apply tabs_agree_no_tabs.
Qed.

Lemma closing_a_tab_keeps_the_others_witness :
  Tabs.dict_get "AA:BB"
    (Tabs.device_tabs_map (Tabs.close_device_tab 0 two_tabs)) = None
  ∧ ∃ j', Tabs.dict_get "CC:DD"
            (Tabs.device_tabs_map (Tabs.close_device_tab 0 two_tabs)) = Some j'
          ∧ Tabs.device_tabs (Tabs.close_device_tab 0 two_tabs) !! j'
            = Some (DeviceTab.init beacon).
Proof.
  destruct (closing_a_tab_keeps_the_others 0 two_tabs (DeviceTab.init sensor))
    as (_ & Hgone & Hothers);
    [apply tabs_agree_two_tabs | reflexivity | reflexivity |].
  split; [exact Hgone |].
  apply (Hothers "CC:DD" 1%nat (DeviceTab.init beacon)); [done | reflexivity..].
Defined.

Lemma tabs_agree_sensor_connected : tabs_agree sensor_connected.
Proof.
  destruct (handle_event_agrees
              (Tabs.signal_arrives (connection_updated true "AA:BB" (Some client0)))
              two_tabs tabs_agree_two_tabs) as (s' & Hs' & H').
  unfold sensor_connected, Tabs.handle_events. cbn [fold_left]. by rewrite Hs'.
Qed.

Lemma handle_events_invariant (Q : Tabs.event → Prop) (P : Tabs.session → Prop) :
  (∀ e s, Q e → P s → P (Tabs.state (Tabs.handle_event e s))) →
  ∀ events s, Forall Q events → P s → P (Tabs.handle_events events s).
Proof.
  intros Hstep events. induction events as [| e events IH]; intros s HQ HP; [done |].
  apply Forall_cons in HQ as [He HQ]. cbn [Tabs.handle_events fold_left].
  apply IH; [done |]. by apply Hstep.
Qed.

Lemma dict_mem_set_other {V} (a k : string) (v : V) (d : list (string * V)) :
  dict_mem k d = true → dict_mem k (dict_set a v d) = true.
Proof.
  destruct (dict_mem a d) eqn:Ha.
  - unfold dict_mem at 1 2. by rewrite (dict_set_present a v d Ha).
  - rewrite (dict_set_fresh a v d Ha). unfold dict_mem, dict_keys.
    rewrite map_app, existsb_app. by intros ->.
Qed.

Lemma dict_mem_del_ne {V} (a k : string) (d : list (string * V)) :
  k ≠ a → dict_mem k d = true → dict_mem k (dict_del a d) = true.
Proof.
  intros Hne. rewrite !dict_mem_get. by rewrite dict_get_del_ne.
Qed.

(** An address that has no tab but is among the connected devices stays
    so through every slot but [connect_to_device]. *)
Lemma stale_entry_step (a : string) e (s : Tabs.session) :
  e ≠ Tabs.press_connect →
  Tabs.dict_get a (Tabs.device_tabs_map s) = None
  ∧ dict_mem a (Tabs.connected_devices s) = true →
  Tabs.dict_get a
    (Tabs.device_tabs_map (Tabs.state (Tabs.handle_event e s))) = None
  ∧ dict_mem a
      (Tabs.connected_devices (Tabs.state (Tabs.handle_event e s))) = true.
Proof.
  intros He [Hmap Hconn].
  destruct e as [d | | index | index ch | index text | b | b | | sig];
    cbn [Tabs.handle_event Tabs.state].
  - done.
  - done.
  - destruct (Tabs.address_of_index index (Tabs.device_tabs_map s)) as [a' |] eqn:Ha;
      [| unfold Tabs.close_device_tab; by rewrite Ha].
    destruct (Tabs.truthy a') eqn:Htruthy;
      [| unfold Tabs.close_device_tab; by rewrite Ha, Htruthy].
    destruct (close_device_tab_found index a' s Ha Htruthy)
      as (_ & Hmap' & Hconn' & _).
    rewrite Hmap', Hconn'. split; [| done].
    rewrite (dict_get_shift (fun i => if (index <? i)%nat then (i - 1)%nat else i)).
    by rewrite dict_get_del_none.
  - unfold Tabs.in_tab. by destruct (Tabs.device_tabs s !! index).
  - unfold Tabs.in_tab. by destruct (Tabs.device_tabs s !! index).
  - unfold Tabs.write_characteristic. by repeat case_match.
  - unfold Tabs.toggle_notifications. by repeat case_match.
  - unfold Tabs.single_shot_fires. destruct (Tabs.single_shots s) as [| n]; [done |].
    destruct (check_connection_status_frame None (Tabs.set_single_shots n s))
      as (-> & _ & -> & _). done.
  - destruct sig as [| | is_on b client | | | | | | b is_on];
      cbn [Tabs.deliver Tabs.state]; try done.
    + unfold Tabs.update_connection_status.
      destruct (Tabs.dict_get b (Tabs.device_tabs_map s)) as [i |] eqn:Hb; [| done].
      assert (a ≠ b) by congruence.
      destruct is_on; cbn [Tabs.device_tabs Tabs.set_connected_devices];
        destruct (Tabs.device_tabs s !! i) as [t |]; cbn [Tabs.state].
      * match goal with
        | |- context [Tabs.check_connection_status ?x ?y] =>
            destruct (check_connection_status_frame x y) as (-> & _ & -> & _)
        end.
        split; [done |]. cbn. by apply dict_mem_set_other.
      * split; [done |]. cbn. by apply dict_mem_set_other.
      * split; [done |]. cbn. by apply dict_mem_del_ne.
      * split; [done |]. cbn. by apply dict_mem_del_ne.
    + unfold Tabs.handle_connection_check.
      destruct (Tabs.dict_get b (Tabs.device_tabs_map s)) as [i |] eqn:Hb; [| done].
      assert (a ≠ b) by congruence.
      destruct is_on; [done |].
      destruct (Tabs.device_tabs s !! i) as [t |]; [| done].
      destruct (DeviceTab.connected t); [| done].
      split; [done |]. cbn. by apply dict_mem_del_ne.
Qed.

(** X25.  Closing the tab of a connected device queues its disconnect
    but leaves the address among the window's connected devices, and no
    later signal or timer shot removes it: the address is dropped only
    through a tab, so it stays listed until the user connects to the
    device again. *)
Theorem closed_tab_stays_among_connected index (s : Tabs.session) t0
    (events : list Tabs.event) :
  tabs_agree s →
  Tabs.device_tabs s !! index = Some t0 →
  Tabs.truthy (DeviceTab.tab_address t0) = true →
  dict_mem (DeviceTab.tab_address t0) (Tabs.connected_devices s) = true →
  Forall (fun e => e ≠ Tabs.press_connect) events →
  command_queue (self (Tabs.ble_worker (Tabs.close_device_tab index s)))
  = command_queue (self (Tabs.ble_worker s))
    ++ [disconnect (DeviceTab.tab_address t0)]
  ∧ dict_mem (DeviceTab.tab_address t0)
      (Tabs.connected_devices
         (Tabs.handle_events events (Tabs.close_device_tab index s))) = true.
Proof.
  intros Hagree Ht0 Htruthy Hconn Hevents.
  pose proof (tabs_agree_address_of_index s index t0 Hagree Ht0) as Ha.
  destruct (close_device_tab_found index _ s Ha Htruthy)
    as (_ & Hmap & Hconn' & _ & Hworker).
  split; [by rewrite Hworker, Hconn |].
  apply (handle_events_invariant (fun e => e ≠ Tabs.press_connect)
           (fun s' =>
              Tabs.dict_get (DeviceTab.tab_address t0) (Tabs.device_tabs_map s')
              = None
              ∧ dict_mem (DeviceTab.tab_address t0) (Tabs.connected_devices s')
                = true)); [| done |].
  - intros e s'. apply stale_entry_step.
  - split; [| by rewrite Hconn'].
    rewrite Hmap.
    rewrite (dict_get_shift (fun i => if (index <? i)%nat then (i - 1)%nat else i)).
    rewrite dict_get_del_eq; [done | apply Hagree].
Qed.

Lemma closed_tab_stays_among_connected_witness :
  command_queue
    (self (Tabs.ble_worker (Tabs.close_device_tab 0 sensor_connected)))
  = command_queue (self (Tabs.ble_worker sensor_connected))
    ++ [disconnect "AA:BB"]
  ∧ dict_mem "AA:BB"
      (Tabs.connected_devices
         (Tabs.handle_events
            [Tabs.timer;
             Tabs.signal_arrives (connection_updated false "AA:BB" None);
             Tabs.signal_arrives (connection_status_checked "AA:BB" false)]
            (Tabs.close_device_tab 0 sensor_connected))) = true.
Proof.
  apply (closed_tab_stays_among_connected 0 sensor_connected
           (DeviceTab.set_connected_state true (DeviceTab.init sensor))).
  - apply tabs_agree_sensor_connected.
  - reflexivity.
  - reflexivity.
  - reflexivity.
  - repeat constructor; discriminate.
Defined.

(** No slot lowers the number of pending status checks: a shot that
    fires schedules its successor. *)
Lemma single_shots_step e (s : Tabs.session) :
  (Tabs.single_shots s
   ≤ Tabs.single_shots (Tabs.state (Tabs.handle_event e s)))%nat.
Proof.
  destruct e as [d | | index | index ch | index text | b | b | | sig];
    cbn [Tabs.handle_event Tabs.state].
  - done.
  - unfold Tabs.connect_to_device. by repeat case_match.
  - unfold Tabs.close_device_tab. by repeat case_match.
  - unfold Tabs.in_tab. by case_match.
  - unfold Tabs.in_tab. by case_match.
  - unfold Tabs.write_characteristic. by repeat case_match.
  - unfold Tabs.toggle_notifications. by repeat case_match.
  - unfold Tabs.single_shot_fires. destruct (Tabs.single_shots s) as [| n] eqn:Hn.
    + lia.
    + destruct (check_connection_status_frame None (Tabs.set_single_shots n s))
        as (_ & _ & _ & ->). cbn. lia.
  - destruct sig as [| | is_on b client | | | | | | b is_on];
      cbn [Tabs.deliver Tabs.state]; try done.
    + unfold Tabs.update_connection_status.
      destruct (Tabs.dict_get b (Tabs.device_tabs_map s)) as [i |]; [| done].
      destruct is_on; cbn [Tabs.device_tabs Tabs.set_connected_devices];
        destruct (Tabs.device_tabs s !! i) as [t |]; cbn [Tabs.state]; try done.
      match goal with
      | |- context [Tabs.check_connection_status ?x ?y] =>
          destruct (check_connection_status_frame x y) as (_ & _ & _ & ->)
      end.
      cbn. lia.
    + unfold Tabs.handle_connection_check. by repeat case_match.
Qed.

(** X26.  Every connection reported for a device with a tab starts a
    chain of status checks that never ends: from then on at least one
    more check is pending than before, whatever happens later, the
    disconnection of the device and the closing of its tab included. *)
Theorem every_connection_adds_a_pending_check addr client
    (events : list Tabs.event) (s : Tabs.session) :
  tabs_agree s →
  dict_mem addr (Tabs.device_tabs_map s) = true →
  (S (Tabs.single_shots s)
   ≤ Tabs.single_shots
       (Tabs.handle_events
          (Tabs.signal_arrives (connection_updated true addr client) :: events)
          s))%nat.
Proof.
  intros Hagree Hmem. apply dict_mem_get in Hmem as [i Hget].
  destruct (tabs_agree_lookup s addr i Hagree Hget) as (t & Ht & _).
  cbn [Tabs.handle_events fold_left].
  apply (handle_events_invariant (fun _ => True)
           (fun s' => (S (Tabs.single_shots s) ≤ Tabs.single_shots s')%nat)).
  - intros e s' _ H. pose proof (single_shots_step e s'). lia.
  - by apply Forall_true.
  - cbn [Tabs.handle_event Tabs.deliver]. unfold Tabs.update_connection_status.
    rewrite Hget. cbn [Tabs.device_tabs Tabs.set_connected_devices]. rewrite Ht.
    cbn [Tabs.state].
    match goal with
    | |- context [Tabs.check_connection_status ?x ?y] =>
        destruct (check_connection_status_frame x y) as (_ & _ & _ & ->)
    end.
    done.
Qed.

Lemma every_connection_adds_a_pending_check_witness :
  (S (Tabs.single_shots two_tabs)
   ≤ Tabs.single_shots
       (Tabs.handle_events
          [Tabs.signal_arrives (connection_updated true "AA:BB" (Some client0));
           Tabs.timer;
           Tabs.signal_arrives (connection_updated false "AA:BB" None);
           Tabs.close_tab 0;
           Tabs.timer]
          two_tabs))%nat.
Proof.
  apply (every_connection_adds_a_pending_check "AA:BB" (Some client0)
           [Tabs.timer;
            Tabs.signal_arrives (connection_updated false "AA:BB" None);
            Tabs.close_tab 0;
            Tabs.timer] two_tabs).
  - apply tabs_agree_two_tabs.
  - reflexivity.
Defined.

(** A property of single tabs that the tab's own operations keep holds
    of every page after every slot. *)
Section TabInvariant.

Variable P : DeviceTab.tab → Prop.
Hypothesis P_init : ∀ d, P (DeviceTab.init d).
Hypothesis P_set_connected_state :
  ∀ c t, P t → P (DeviceTab.set_connected_state c t).
Hypothesis P_characteristic_selected :
  ∀ char_data t, P t → P (DeviceTab.characteristic_selected char_data t).
Hypothesis P_set_write_input :
  ∀ text t, P t → P (DeviceTab.set_write_input text t).
Hypothesis P_unsubscribe :
  ∀ t ch, P t → DeviceTab.current_characteristic t = Some ch →
    dict_mem (DeviceTab.uuid ch) (DeviceTab.notification_active t) = true →
    P (DeviceTab.set_notification
         (dict_del (DeviceTab.uuid ch) (DeviceTab.notification_active t))
         "Subscribe" t).
Hypothesis P_subscribe :
  ∀ t ch, P t → DeviceTab.current_characteristic t = Some ch →
    dict_mem (DeviceTab.uuid ch) (DeviceTab.notification_active t) = false →
    P (DeviceTab.set_notification
         (dict_set (DeviceTab.uuid ch) true (DeviceTab.notification_active t))
         "Unsubscribe" t).

Lemma tab_invariant_step e (s : Tabs.session) :
  Forall P (Tabs.device_tabs s) →
  Forall P (Tabs.device_tabs (Tabs.state (Tabs.handle_event e s))).
Proof using All.
  intros H.
  destruct e as [d | | index | index ch | index text | b | b | | sig];
    cbn [Tabs.handle_event Tabs.state].
  - done.
  - unfold Tabs.connect_to_device.
    destruct (Tabs.current_device s) as [d |]; [| done].
    destruct (dict_mem _ (Tabs.device_tabs_map s)); [by destruct (negb _) |].
    cbn. apply Forall_app. split; [done |]. by apply Forall_singleton.
  - unfold Tabs.close_device_tab.
    destruct (Tabs.address_of_index _ _) as [a |]; [| done].
    destruct (Tabs.truthy a); [| done].
    cbn. apply Forall_delete. by destruct (dict_mem _ _).
  - unfold Tabs.in_tab. destruct (Tabs.device_tabs s !! index) as [t |] eqn:Ht;
      [| done].
    cbn. apply Forall_insert; [done |]. apply P_characteristic_selected.
    by eapply Forall_lookup_1.
  - unfold Tabs.in_tab. destruct (Tabs.device_tabs s !! index) as [t |] eqn:Ht;
      [| done].
    cbn. apply Forall_insert; [done |]. apply P_set_write_input.
    by eapply Forall_lookup_1.
  - unfold Tabs.write_characteristic. by repeat case_match.
  - unfold Tabs.toggle_notifications.
    destruct (Tabs.dict_get b _) as [i |]; [| done].
    destruct (Tabs.device_tabs s !! i) as [t |] eqn:Ht; [| done].
    destruct (DeviceTab.current_characteristic t) as [ch |] eqn:Hch; [| done].
    pose proof (Forall_lookup_1 _ _ _ _ H Ht).
    destruct (dict_mem _ (DeviceTab.notification_active t)) eqn:Hmem;
      cbn; (apply Forall_insert; [done |]); eauto.
  - unfold Tabs.single_shot_fires. destruct (Tabs.single_shots s) as [| n]; [done |].
    by destruct (check_connection_status_frame None (Tabs.set_single_shots n s))
      as (_ & -> & _).
  - destruct sig as [| | is_on b client | | | | | | b is_on];
      cbn [Tabs.deliver Tabs.state]; try done.
    + unfold Tabs.update_connection_status.
      destruct (Tabs.dict_get b _) as [i |]; [| done].
      destruct is_on; cbn [Tabs.device_tabs Tabs.set_connected_devices];
        destruct (Tabs.device_tabs s !! i) as [t |] eqn:Ht; cbn [Tabs.state];
        try done.
      * match goal with
        | |- context [Tabs.check_connection_status ?x ?y] =>
            destruct (check_connection_status_frame x y) as (_ & -> & _)
        end.
        cbn. apply Forall_insert; [done |]. apply P_set_connected_state.
        by eapply Forall_lookup_1.
      * cbn. apply Forall_insert; [done |]. apply P_set_connected_state.
        by eapply Forall_lookup_1.
    + unfold Tabs.handle_connection_check.
      destruct (Tabs.dict_get b _) as [i |]; [| done].
      destruct is_on; [done |].
      destruct (Tabs.device_tabs s !! i) as [t |] eqn:Ht; [| done].
      destruct (DeviceTab.connected t); [| done].
      cbn. apply Forall_insert; [done |]. apply P_set_connected_state.
      by eapply Forall_lookup_1.
Qed.

End TabInvariant.

Lemma dict_set_keys_NoDup {V} (k : string) (v : V) (d : list (string * V)) :
  NoDup (dict_keys d) → NoDup (dict_keys (dict_set k v d)).
Proof.
  intros Hnd. destruct (dict_mem k d) eqn:Hmem.
  - by rewrite dict_set_present.
  - rewrite dict_set_fresh by done. unfold dict_keys. rewrite map_app.
    apply NoDup_app. split; [done |]. split; [| apply NoDup_singleton].
    intros x Hx [-> | []%elem_of_nil]%elem_of_cons.
    cbn [fst] in Hx. apply (dict_mem_keys k d) in Hx. congruence.
Qed.

Lemma label_in_sync_step e (s : Tabs.session) :
  Forall label_in_sync (Tabs.device_tabs s) →
  Forall label_in_sync (Tabs.device_tabs (Tabs.state (Tabs.handle_event e s))).
Proof.
  apply tab_invariant_step.
  - intros d. split; [apply NoDup_nil_2 | done].
  - by intros c t [Hnd Hlabel].
  - intros [ch |] t [Hnd Hlabel]; [| done].
    split; [done |]. cbn -[dict_mem]. by intros ch' [= <-].
  - by intros text t [Hnd Hlabel].
  - intros t ch [Hnd Hlabel] Hch Hmem. split; cbn -[dict_mem dict_del dict_keys].
    + by apply dict_del_keys_NoDup.
    + intros ch' Hch'. rewrite Hch in Hch'. injection Hch' as <-.
      assert (Hdel : dict_mem (DeviceTab.uuid ch)
                       (dict_del (DeviceTab.uuid ch)
                          (DeviceTab.notification_active t)) = false).
      { apply not_true_is_false. intros Hdel.
        apply dict_mem_get in Hdel as [v Hv].
        by rewrite dict_get_del_eq in Hv. }
      by rewrite Hdel.
  - intros t ch [Hnd Hlabel] Hch Hmem. split; cbn -[dict_mem dict_set dict_keys].
    + by apply dict_set_keys_NoDup.
    + intros ch' Hch'. rewrite Hch in Hch'. injection Hch' as <-.
      by rewrite dict_mem_set.
Qed.

(** X27.  The label of a tab's notify button follows the tab's
    subscription flags: if on every tab the button reads "Unsubscribe"
    exactly when the selected characteristic has a flag (as it does in a
    new window), this is so after any run of user actions, timer shots
    and worker signals. *)
Theorem notify_label_follows_flags (events : list Tabs.event) (s : Tabs.session) :
  Forall label_in_sync (Tabs.device_tabs s) →
  Forall label_in_sync (Tabs.device_tabs (Tabs.handle_events events s)).
Proof.
  intros H.
  apply (handle_events_invariant (fun _ => True)
           (fun s' => Forall label_in_sync (Tabs.device_tabs s')));
    [| by apply Forall_true | done].
  intros e s' _. apply label_in_sync_step.
Qed.

Lemma notify_label_follows_flags_witness :
  Forall label_in_sync
    (Tabs.device_tabs
       (Tabs.handle_events
          [Tabs.select_device sensor; Tabs.press_connect;
           Tabs.signal_arrives (connection_updated true "AA:BB" (Some client0));
           Tabs.select_characteristic 0 (Some heart_rate);
           Tabs.press_notify "AA:BB";
           Tabs.select_characteristic 0 (Some control_point);
           Tabs.select_characteristic 0 (Some heart_rate);
           Tabs.press_notify "AA:BB"]
          no_tabs)).
Proof.
  apply (notify_label_follows_flags _ no_tabs). apply Forall_nil_2.
Defined.

Lemma buttons_guarded_step e (s : Tabs.session) :
  Forall buttons_guarded (Tabs.device_tabs s) →
  Forall buttons_guarded (Tabs.device_tabs (Tabs.state (Tabs.handle_event e s))).
Proof.
  apply tab_invariant_step; unfold buttons_guarded.
  - intros d. cbn. done.
  - intros c t H. cbn. destruct c; [| done].
    destruct (DeviceTab.current_characteristic t); [by eauto | done].
  - intros [ch |] t H; [| done]. cbn.
    destruct (DeviceTab.connected t); [by eauto | done].
  - by intros text t H.
  - by intros t ch H _ _.
  - by intros t ch H _ _.
Qed.

Lemma tabs_agree_step e (s : Tabs.session) :
  tabs_agree s → tabs_agree (Tabs.state (Tabs.handle_event e s)).
Proof.
  intros H. destruct (handle_event_agrees e s H) as (s' & -> & H'). done.
Qed.

Lemma lookup_delete_Some {A} (l : list A) i j x :
  delete i l !! j = Some x → ∃ j', l !! j' = Some x.
Proof.
  destruct (decide (j < i)%nat).
  - rewrite list_lookup_delete_lt by done. eauto.
  - rewrite list_lookup_delete_ge by lia. eauto.
Qed.

(** Two pages with the same address are the same page, under the
    agreement. *)
Lemma tabs_agree_same_page (s : Tabs.session) i j t t' :
  tabs_agree s →
  Tabs.device_tabs s !! i = Some t →
  Tabs.device_tabs s !! j = Some t' →
  DeviceTab.tab_address t = DeviceTab.tab_address t' → i = j.
Proof.
  intros [Hnd Hagree] Ht Ht' Heq.
  assert (Hi : (DeviceTab.tab_address t, i) ∈ Tabs.device_tabs_map s)
    by (apply Hagree; by rewrite Ht).
  assert (Hj : (DeviceTab.tab_address t, j) ∈ Tabs.device_tabs_map s)
    by (apply Hagree; rewrite Ht'; cbn; congruence).
  by eapply keys_unique.
Qed.

(** Marking the page of [addr] disconnected and dropping [addr] from
    the connected devices keeps the other connected pages listed. *)
Lemma connected_tabs_listed_drop (s : Tabs.session) addr i t :
  tabs_agree s → connected_tabs_listed s →
  Tabs.dict_get addr (Tabs.device_tabs_map s) = Some i →
  Tabs.device_tabs s !! i = Some t →
  connected_tabs_listed
    (Tabs.set_device_tabs
       (<[i := DeviceTab.set_connected_state false t]> (Tabs.device_tabs s))
       (Tabs.set_connected_devices
          (dict_del addr (Tabs.connected_devices s)) s)).
Proof.
  intros Hagree Hlisted Hget Ht j t'. cbn -[dict_mem].
  destruct (tabs_agree_lookup s addr i Hagree Hget) as (t0 & Ht0 & Haddr).
  assert (t0 = t) as -> by congruence.
  intros [[-> [<- _]] | [Hne Hj]]%list_lookup_insert_Some; [done |].
  intros Hc. apply dict_mem_del_ne; [| by eapply Hlisted].
  intros Heq. apply Hne. eapply tabs_agree_same_page; eauto. congruence.
Qed.

Lemma connected_tabs_listed_step e (s : Tabs.session) :
  tabs_agree s → connected_tabs_listed s →
  connected_tabs_listed (Tabs.state (Tabs.handle_event e s)).
Proof.
  intros Hagree Hlisted. pose proof Hlisted as Hlisted'.
  unfold connected_tabs_listed in Hlisted.
  destruct e as [d | | index | index ch | index text | b | b | | sig];
    cbn [Tabs.handle_event Tabs.state].
  - done.
  - unfold Tabs.connect_to_device.
    destruct (Tabs.current_device s) as [d |]; [| done].
    destruct (dict_mem _ (Tabs.device_tabs_map s)); [by destruct (negb _) |].
    intros j t. cbn -[dict_mem].
    intros Hj. apply lookup_app_Some in Hj as [Hj | [_ Hj]];
      [by eapply Hlisted |].
    apply list_lookup_singleton_Some in Hj as [_ <-]. done.
  - unfold Tabs.close_device_tab.
    destruct (Tabs.address_of_index _ _) as [a |]; [| done].
    destruct (Tabs.truthy a); [| done].
    intros j t. cbn -[dict_mem].
    assert (∀ x, Tabs.device_tabs x = Tabs.device_tabs s →
                 Tabs.connected_devices x = Tabs.connected_devices s →
                 delete index (Tabs.device_tabs x) !! j = Some t →
                 DeviceTab.connected t = true →
                 dict_mem (DeviceTab.tab_address t) (Tabs.connected_devices x)
                 = true) as Hx.
    { intros x -> -> [j' Hj']%lookup_delete_Some. by eapply Hlisted. }
    destruct (dict_mem a (Tabs.connected_devices s)); by apply Hx.
  - unfold Tabs.in_tab.
    destruct (Tabs.device_tabs s !! index) as [t0 |] eqn:Ht0; [| done].
    intros j t. cbn -[dict_mem].
    intros [[-> [<- _]] | [Hne Hj]]%list_lookup_insert_Some;
      [| by eapply Hlisted].
    destruct ch as [ch |]; cbn -[dict_mem]; by eapply Hlisted.
  - unfold Tabs.in_tab.
    destruct (Tabs.device_tabs s !! index) as [t0 |] eqn:Ht0; [| done].
    intros j t. cbn -[dict_mem].
    intros [[-> [<- _]] | [Hne Hj]]%list_lookup_insert_Some;
      [| by eapply Hlisted].
    cbn -[dict_mem]. by eapply Hlisted.
  - unfold Tabs.write_characteristic. by repeat case_match.
  - unfold Tabs.toggle_notifications.
    destruct (Tabs.dict_get b _) as [i |]; [| done].
    destruct (Tabs.device_tabs s !! i) as [t0 |] eqn:Ht0; [| done].
    destruct (DeviceTab.current_characteristic t0) as [ch |]; [| done].
    destruct (dict_mem _ (DeviceTab.notification_active t0));
      intros j t; cbn -[dict_mem];
      (intros [[-> [<- _]] | [Hne Hj]]%list_lookup_insert_Some;
         [| by eapply Hlisted]);
      cbn -[dict_mem]; by eapply Hlisted.
  - unfold Tabs.single_shot_fires. destruct (Tabs.single_shots s) as [| n]; [done |].
    destruct (check_connection_status_frame None (Tabs.set_single_shots n s))
      as (_ & Htabs & Hconn & _).
    intros j t. rewrite Htabs, Hconn. apply Hlisted'.
  - destruct sig as [| | is_on b client | | | | | | b is_on];
      cbn [Tabs.deliver Tabs.state]; try done.
    + unfold Tabs.update_connection_status.
      destruct (Tabs.dict_get b _) as [i |] eqn:Hget; [| done].
      destruct (tabs_agree_lookup s b i Hagree Hget) as (t0 & Ht0 & Haddr).
      destruct is_on; cbn [Tabs.device_tabs Tabs.set_connected_devices];
        rewrite Ht0; cbn [Tabs.state].
      * match goal with
        | |- context [Tabs.check_connection_status ?x ?y] =>
            destruct (check_connection_status_frame x y)
              as (_ & Htabs & Hconn & _)
        end.
        intros j t. rewrite Htabs, Hconn. cbn -[dict_mem].
        intros [[-> [<- _]] | [Hne Hj]]%list_lookup_insert_Some.
        -- intros _. cbn -[dict_mem]. rewrite Haddr. apply dict_mem_set.
        -- intros Hc. apply dict_mem_set_other. by eapply Hlisted.
      * by apply connected_tabs_listed_drop.
    + unfold Tabs.handle_connection_check.
      destruct (Tabs.dict_get b _) as [i |] eqn:Hget; [| done].
      destruct is_on; [done |].
      destruct (tabs_agree_lookup s b i Hagree Hget) as (t0 & Ht0 & Haddr).
      rewrite Ht0. destruct (DeviceTab.connected t0); [| done].
      cbn [Tabs.state]. by apply connected_tabs_listed_drop.
Qed.

(** X28.  A tab that can be used belongs to a connected device: if the
    map and the pages agree, every enabled button sits on a tab that is
    marked connected and has a characteristic selected, and every tab
    marked connected is the tab of a device among the window's connected
    devices, then all of this holds after any run of user actions, timer
    shots and worker signals. *)
Theorem usable_tabs_stay_connected (events : list Tabs.event) (s : Tabs.session) :
  tabs_agree s →
  usable_tabs_are_connected s →
  usable_tabs_are_connected (Tabs.handle_events events s).
Proof.
  intros Hagree Husable.
  apply (handle_events_invariant (fun _ => True)
           (fun s' => tabs_agree s' ∧ usable_tabs_are_connected s'));
    [| by apply Forall_true | done].
  intros e s' _ [Hagree' [Hguarded Hlisted]]. split; [by apply tabs_agree_step |].
  split; [by apply buttons_guarded_step | by apply connected_tabs_listed_step].
Qed.

Lemma usable_tabs_stay_connected_witness :
  usable_tabs_are_connected
    (Tabs.handle_events
       [Tabs.select_device sensor; Tabs.press_connect;
        Tabs.signal_arrives (connection_updated true "AA:BB" (Some client0));
        Tabs.select_characteristic 0 (Some heart_rate);
        Tabs.signal_arrives (connection_status_checked "AA:BB" false);
        Tabs.press_connect;
        Tabs.signal_arrives (connection_updated true "AA:BB" (Some client0))]
       no_tabs).
Proof.
  apply (usable_tabs_stay_connected _ no_tabs).
  - apply tabs_agree_no_tabs.
  - split; [apply Forall_nil_2 | by intros j t H].
Defined.

(** * Properties of the hex text *)

(** A byte is shown as two characters, neither of them whitespace. *)
Lemma hex_digit_upper_not_space (b : Byte.byte) :
  Text.isspace (HexText.hex_digit_upper (Byte.to_N b / 16)) = false
  ∧ Text.isspace (HexText.hex_digit_upper (Byte.to_N b mod 16)) = false.
Proof. destruct b; split; vm_compute; reflexivity. Qed.

Lemma hex02X_chars (b : Byte.byte) :
  ∃ c1 c2, HexText.hex02X b = String c1 (String c2 EmptyString)
           ∧ Text.isspace c1 = false ∧ Text.isspace c2 = false.
Proof.
  destruct (hex_digit_upper_not_space b) as [H1 H2].
  exists (HexText.hex_digit_upper (Byte.to_N b / 16)),
         (HexText.hex_digit_upper (Byte.to_N b mod 16)).
  done.
Qed.

Lemma int16_hex02X (b : Byte.byte) :
  HexText.int16 (HexText.hex02X b) = Some (Z.of_N (Byte.to_N b)).
Proof. destruct b; vm_compute; reflexivity. Qed.

Lemma bytearray_of_byte (b : Byte.byte) :
  HexText.bytearray [Z.of_N (Byte.to_N b)] = Some [b].
Proof. destruct b; vm_compute; reflexivity. Qed.

Lemma append_nil_l (s : string) : EmptyString +:+ s = s.
Proof. reflexivity. Qed.

Lemma isspace_space : Text.isspace " " = true.
Proof. reflexivity. Qed.

Lemma split_from_byte (c1 c2 : ascii) (rest : string) :
  Text.isspace c1 = false → Text.isspace c2 = false →
  HexText.split_from (String c1 (String c2 (String " " rest))) []
  = String c1 (String c2 EmptyString) :: HexText.split_from rest [].
Proof.
  intros H1 H2. cbn [HexText.split_from]. by rewrite H1, H2, isspace_space.
Qed.

Lemma split_shown_hex (data : list Byte.byte) :
  HexText.split (HexText.shown_hex data) = map HexText.hex02X data.
Proof.
  unfold HexText.split, HexText.shown_hex.
  induction data as [| b data IH]; [done |].
  destruct (hex02X_chars b) as (c1 & c2 & Hb & H1 & H2).
  cbn [map HexText.join]. destruct data as [| b' data].
  - cbn [map]. rewrite Hb. cbn [HexText.split_from]. by rewrite H1, H2.
  - cbn [map] in *. rewrite Hb at 1. rewrite !append_String, !append_nil_l.
    rewrite split_from_byte, IH by done. by rewrite Hb.
Qed.

Lemma ints_shown_hex (data : list Byte.byte) :
  HexText.ints (map HexText.hex02X data)
  = Some (map (fun b => Z.of_N (Byte.to_N b)) data).
Proof.
  induction data as [| b data IH]; [done |].
  cbn [map HexText.ints]. by rewrite int16_hex02X, IH.
Qed.

Lemma bytearray_of_bytes (data : list Byte.byte) :
  HexText.bytearray (map (fun b => Z.of_N (Byte.to_N b)) data) = Some data.
Proof.
  induction data as [| b data IH]; [done |].
  pose proof (bytearray_of_byte b) as Hb. cbn [map HexText.bytearray] in *.
  destruct ((0 <=? Z.of_N (Byte.to_N b))%Z && (Z.of_N (Byte.to_N b) <? 256)%Z);
    [| done].
  destruct (Byte.of_N (Z.to_N (Z.of_N (Byte.to_N b)))) as [b0 |]; [| done].
  rewrite IH. congruence.
Qed.

(** Reading back the hex text of a value gives the value. *)
Lemma parse_shown_hex (data : list Byte.byte) :
  HexText.parse (HexText.shown_hex data) = Some data.
Proof.
  unfold HexText.parse. rewrite split_shown_hex, ints_shown_hex.
  apply bytearray_of_bytes.
Qed.

Lemma rstrip_String (c : ascii) (s : string) :
  s ≠ EmptyString → Text.rstrip s = s → Text.rstrip (String c s) = String c s.
Proof.
  intros Hne Hs. cbn [Text.rstrip]. rewrite Hs. by destruct s.
Qed.

(** The hex text of a value that is not empty has no whitespace at
    either end. *)
Lemma strip_shown_hex (data : list Byte.byte) :
  data ≠ [] →
  Text.strip (HexText.shown_hex data) = HexText.shown_hex data
  ∧ HexText.shown_hex data ≠ EmptyString.
Proof.
  intros Hdata. unfold Text.strip, HexText.shown_hex.
  assert (Hl : Text.lstrip (HexText.join " " (map HexText.hex02X data))
               = HexText.join " " (map HexText.hex02X data)).
  { destruct data as [| b data]; [done |].
    destruct (hex02X_chars b) as (c1 & c2 & Hb & H1 & H2).
    cbn [map HexText.join]. destruct (map HexText.hex02X data);
      rewrite Hb, ?append_String; cbn [Text.lstrip]; by rewrite H1. }
  rewrite Hl. clear Hl.
  induction data as [| b data IH]; [done |].
  destruct (hex02X_chars b) as (c1 & c2 & Hb & H1 & H2).
  cbn [map HexText.join]. destruct data as [| b' data].
  - cbn [map]. rewrite Hb. cbn [Text.rstrip]. by rewrite H2.
  - destruct IH as [IH1 IH2]; [done |]. cbn [map] in *.
    rewrite Hb, !append_String, !append_nil_l. split; [| done].
    do 3 (apply rstrip_String; [done |]). exact IH1.
Qed.

(** X29.  What the window shows for a value can be written back: when
    the hex text in which a value that is not empty is displayed is
    typed into the write box of a tab with a selected characteristic and
    Write is pressed, one write of exactly that value is queued for the
    tab's address and characteristic, with a response exactly when the
    characteristic has the "write" property. *)
Theorem shown_value_is_written_back addr i t ch (data : list Byte.byte)
    (s : Tabs.session) :
  Tabs.dict_get addr (Tabs.device_tabs_map s) = Some i →
  Tabs.device_tabs s !! i = Some t →
  DeviceTab.current_characteristic t = Some ch →
  data ≠ [] →
  Tabs.ble_worker
    (Tabs.handle_events
       [Tabs.type_hex i (HexText.shown_hex data); Tabs.press_write addr] s)
  = put (write addr (DeviceTab.uuid ch) data
           (DeviceTab.has "write" (DeviceTab.properties ch)))
      (Tabs.ble_worker s).
Proof.
  intros Hget Ht Hch Hdata.
  destruct (strip_shown_hex data Hdata) as [Hstrip Hne].
  unfold Tabs.handle_events. cbn [fold_left Tabs.handle_event Tabs.state].
  unfold Tabs.in_tab. rewrite Ht. unfold Tabs.write_characteristic.
  cbn [Tabs.device_tabs_map Tabs.device_tabs Tabs.set_device_tabs].
  rewrite Hget, list_lookup_insert_eq by (by eapply lookup_lt_Some).
  cbn [DeviceTab.current_characteristic DeviceTab.write_input
         DeviceTab.set_write_input].
  rewrite Hch, Hstrip, parse_shown_hex.
  destruct (String.eqb_spec (HexText.shown_hex data) EmptyString); done.
Qed.

Lemma shown_value_is_written_back_witness :
  Tabs.ble_worker
    (Tabs.handle_events
       [Tabs.type_hex 0
          (HexText.shown_hex [Byte.x01; Byte.xa0; Byte.xff]);
        Tabs.press_write "AA:BB"] control_point_selected)
  = put (write "AA:BB" "2a39" [Byte.x01; Byte.xa0; Byte.xff] true)
      (Tabs.ble_worker control_point_selected).
Proof.
  apply (shown_value_is_written_back "AA:BB" 0
           (DeviceTab.characteristic_selected (Some control_point)
              (DeviceTab.set_connected_state true (DeviceTab.init sensor)))
           control_point [Byte.x01; Byte.xa0; Byte.xff] control_point_selected).
  - reflexivity.
  - reflexivity.
  - reflexivity.
  - discriminate.
Defined.

(** X30.  A connection report enables every button of a tab that has a
    characteristic selected, whatever the characteristic supports: after
    the report the read, write and notify buttons are all enabled, while
    selecting the same characteristic again enables the read button
    only if the characteristic has the "read" property. *)
Theorem connection_report_enables_every_button addr client i t ch
    (s : Tabs.session) :
  Tabs.dict_get addr (Tabs.device_tabs_map s) = Some i →
  Tabs.device_tabs s !! i = Some t →
  DeviceTab.current_characteristic t = Some ch →
  ∃ t', Tabs.device_tabs
          (Tabs.handle_events
             [Tabs.signal_arrives (connection_updated true addr client)] s) !! i
        = Some t'
        ∧ DeviceTab.read_button_enabled t' = true
        ∧ DeviceTab.write_button_enabled t' = true
        ∧ DeviceTab.notify_button_enabled t' = true
        ∧ DeviceTab.read_button_enabled
            (DeviceTab.characteristic_selected (Some ch) t')
          = DeviceTab.has "read" (DeviceTab.properties ch).
Proof.
  intros Hget Ht Hch.
  exists (DeviceTab.set_connected_state true t).
  unfold Tabs.handle_events.
  cbn [fold_left Tabs.handle_event Tabs.deliver].
  unfold Tabs.update_connection_status. rewrite Hget.
  cbn [Tabs.device_tabs Tabs.set_connected_devices]. rewrite Ht.
  cbn [Tabs.state].
  match goal with
  | |- context [Tabs.check_connection_status ?x ?y] =>
      destruct (check_connection_status_frame x y) as (_ & -> & _)
  end.
  cbn [Tabs.device_tabs Tabs.set_device_tabs].
  rewrite list_lookup_insert_eq by (by eapply lookup_lt_Some).
  cbn. by rewrite Hch.
Qed.

Lemma connection_report_enables_every_button_witness :
  ∃ t', Tabs.device_tabs
          (Tabs.handle_events
             [Tabs.signal_arrives
                (connection_updated true "AA:BB" (Some client0))]
             sensor_lost) !! 0%nat
        = Some t'
        ∧ DeviceTab.read_button_enabled t' = true
        ∧ DeviceTab.write_button_enabled t' = true
        ∧ DeviceTab.notify_button_enabled t' = true
        ∧ DeviceTab.read_button_enabled
            (DeviceTab.characteristic_selected (Some control_point) t')
          = DeviceTab.has "read" (DeviceTab.properties control_point).
Proof.
  apply (connection_report_enables_every_button "AA:BB" (Some client0) 0
           (DeviceTab.set_connected_state false
              (DeviceTab.characteristic_selected (Some control_point)
                 (DeviceTab.set_connected_state true (DeviceTab.init sensor))))
           control_point sensor_lost).
  - reflexivity.
  - reflexivity.
  - reflexivity.
Defined.
